(** * micro-bench: a shallow embedding of [microbench.h]

    The development follows the header top-down: the 64-bit integer
    arithmetic the code computes with, the clock and the measured
    function as an explicit world, the sampler [gather_bench_stats], the
    reducer [process_stats] over IEEE binary64 numbers, the calibrator
    [calculate_clock_stats] and the facade [benchmark].  The stopwatch
    [ellapsed_time_ns] and the calibrators of two revisions of the
    header, which sort their samples, come after them. *)

From Stdlib Require Import ZArith List Bool Lia.
From Stdlib Require Import Floats.SpecFloat.
From Stdlib Require Import Sorting.Permutation Sorting.Sorted.
Import ListNotations.
Local Open Scope Z_scope.

(** ** [int64_t] *)

Module Int64.

Definition modulus : Z := Eval vm_compute in 2 ^ 64.
Definition half_modulus : Z := Eval vm_compute in 2 ^ 63.

Definition min_signed : Z := - half_modulus.
Definition max_signed : Z := half_modulus - 1.

(** Two's complement wrap-around of a mathematical integer. *)
Definition wrap (z : Z) : Z := (z + half_modulus) mod modulus - half_modulus.

Definition in_range (z : Z) : Prop := min_signed <= z <= max_signed.

Definition add (a b : Z) : Z := wrap (a + b).
Definition sub (a b : Z) : Z := wrap (a - b).
Definition mul (a b : Z) : Z := wrap (a * b).
(** C++ division truncates toward zero. *)
Definition div (a b : Z) : Z := wrap (Z.quot a b).

End Int64.

(** [(int64_t) 1 << 62], the "arbitrary very large number" of the source. *)
Definition LARGE : Z := Eval vm_compute in Z.shiftl 1 62.

(** [time_consts::MILISECOND_NANOSECONDS] *)
Definition SECOND_MILISECONDS : Z := 1000.
Definition SECOND_NANOSECONDS : Z := 1000000000.
Definition MILISECOND_NANOSECONDS : Z :=
  Eval vm_compute in Z.quot SECOND_NANOSECONDS SECOND_MILISECONDS.

(** ** [benchmark_internal::Bench_Stats] *)

Record Bench_Stats : Type := mkStats {
  batch_count : Z;
  batch_size : Z;
  time_sum : Z;
  squared_time_sum : Z;
  min_batch_time : Z;
  max_batch_time : Z;
  mean_time_estimate : Z
}.

(** The statistics as [gather_bench_stats] sets them before its loop. *)
Definition initial_stats (min_batch_size : Z) : Bench_Stats :=
  {| batch_count := 0;
     batch_size := min_batch_size;
     time_sum := 0;
     squared_time_sum := 0;
     min_batch_time := LARGE;
     max_batch_time := 0;
     mean_time_estimate := 0 |}.

(** The body of [if(reject == false)]: one kept batch of duration
    [batch_time] enters the accumulators as its delta from the estimate. *)
Definition accumulate (stats : Bench_Stats) (batch_time : Z) : Bench_Stats :=
  let delta := Int64.sub batch_time (mean_time_estimate stats) in
  {| batch_count := Int64.add (batch_count stats) 1;
     batch_size := batch_size stats;
     time_sum := Int64.add (time_sum stats) delta;
     squared_time_sum :=
       Int64.add (squared_time_sum stats) (Int64.mul delta delta);
     min_batch_time :=
       if min_batch_time stats >? delta then delta else min_batch_time stats;
     max_batch_time :=
       if max_batch_time stats <? delta then delta else max_batch_time stats;
     mean_time_estimate := mean_time_estimate stats |}.

(** The body of the resize branch, after the [break] test: the new
    estimate, the new batch size, and the discarded accumulators. *)
Definition resize (stats : Bench_Stats)
    (total_time max_time_ns batch_time_ns min_batch_size min_end_checks : Z)
    : Bench_Stats :=
  let iters0 := Int64.mul (batch_count stats) (batch_size stats) in
  let iters := if iters0 <=? 0 then 1 else iters0 in
  let estimate := Int64.div (time_sum stats) iters in
  let remaining := Int64.sub max_time_ns total_time in
  let num_checks0 := Int64.div remaining batch_time_ns in
  let num_checks :=
    if num_checks0 <? min_end_checks then min_end_checks else num_checks0 in
  let den0 := Int64.mul total_time num_checks in
  let den := if den0 <=? 0 then 1 else den0 in
  let size0 := Int64.div (Int64.mul iters remaining) den in
  let size := if size0 <? min_batch_size then min_batch_size else size0 in
  {| batch_count := 0;
     batch_size := size;
     time_sum := 0;
     squared_time_sum := 0;
     min_batch_time := LARGE;
     max_batch_time := 0;
     mean_time_estimate := estimate |}.

(** ** The sampler over an explicit world

    The clock and the measured function are the two effects of the loop.
    Both act on a world [W]: a call returns its value and the next world. *)

Section Sampler.

Context {W : Type}.
Variable clock_ns : W -> Z * W.
Variable measured_fn : W -> bool * W.

(** [for(i = 0; i < batch_size; i++) reject |= (int64_t) !measured_fn();] *)
Fixpoint run_batch (n : nat) (reject : Z) (w : W) : Z * W :=
  match n with
  | O => (reject, w)
  | S n' =>
      let (keep, w') := measured_fn w in
      run_batch n' (Z.lor reject (if keep then 0 else 1)) w'
  end.

(** The answers of [n] consecutive calls, and the world after them. *)
Fixpoint batch_results (n : nat) (w : W) : list bool * W :=
  match n with
  | O => ([], w)
  | S n' =>
      let (keep, w') := measured_fn w in
      let (rest, w'') := batch_results n' w' in
      (keep :: rest, w'')
  end.

(** What the loop carries from one iteration to the next. *)
Record Loop_State : Type := mkLoop {
  stats : Bench_Stats;
  to_time : Z;
  from : Z
}.

Inductive Step_Result : Type :=
| Continue (s : Loop_State) (w : W)
| Break (result : Bench_Stats) (w : W).

Section Loop.

Variables start max_time_ns batch_time_ns min_batch_size min_end_checks : Z.

(** First half of an iteration: the batch, the clock read after it,
    and the statistics with this batch taken in or rejected.  Returns
    the statistics, [now] and the world. *)
Definition measure_batch (s : Loop_State) (w : W) : Bench_Stats * Z * W :=
  let (reject, w1) := run_batch (Z.to_nat (batch_size (stats s))) 0 w in
  let (now, w2) := clock_ns w1 in
  let batch_time := Int64.sub now (from s) in
  (if reject =? 0 then accumulate (stats s) batch_time else stats s,
   now, w2).

(** Second half: [if(total_time > to_time)] with its [break] and its
    resize. *)
Definition check_deadline (to_time : Z) (stats1 : Bench_Stats) (now : Z)
    (w : W) : Step_Result :=
  let total_time := Int64.sub now start in
  if total_time >? to_time then
    if total_time >? max_time_ns then Break stats1 w
    else
      Continue
        {| stats := resize stats1 total_time max_time_ns batch_time_ns
                      min_batch_size min_end_checks;
           to_time := max_time_ns;
           from := now |} w
  else
    Continue {| stats := stats1; to_time := to_time; from := now |} w.

(** One iteration of [while(true)]. *)
Definition gather_step (s : Loop_State) (w : W) : Step_Result :=
  let '(stats1, now, w2) := measure_batch s w in
  check_deadline (to_time s) stats1 now w2.

(** The loop, cut after [fuel] iterations. *)
Fixpoint gather_loop (fuel : nat) (s : Loop_State) (w : W)
    : option (Bench_Stats * W) :=
  match fuel with
  | O => None
  | S fuel' =>
      match gather_step s w with
      | Break result w' => Some (result, w')
      | Continue s' w' => gather_loop fuel' s' w'
      end
  end.

(** The loop state at the boundary after [k] iterations (a finished
    loop stays finished). *)
Fixpoint gather_iter (k : nat) (s : Loop_State) (w : W) : Step_Result :=
  match k with
  | O => Continue s w
  | S k' =>
      match gather_iter k' s w with
      | Continue s' w' => gather_step s' w'
      | Break result w' => Break result w'
      end
  end.

End Loop.

(** The three assertions at the top of [gather_bench_stats]. *)
Definition gather_preconditions
    (max_time_ns min_batch_size min_end_checks : Z) : Prop :=
  min_end_checks > 0 /\ min_batch_size > 0 /\ max_time_ns >= 0.

Definition clamp_batch_time (batch_time_ns : Z) : Z :=
  if batch_time_ns <=? 0 then 1 else batch_time_ns.

Definition first_deadline (max_time_ns warm_up_ns : Z) : Z :=
  if (warm_up_ns >? max_time_ns) || (warm_up_ns <=? 0)
  then max_time_ns else warm_up_ns.

(** Everything before [while(true)]: the first loop state. *)
Definition gather_init (max_time_ns warm_up_ns min_batch_size : Z) (w : W)
    : Z * Loop_State * W :=
  let (start, w1) := clock_ns w in
  (start,
   {| stats := initial_stats min_batch_size;
      to_time := first_deadline max_time_ns warm_up_ns;
      from := start |},
   w1).

Definition gather_bench_stats (fuel : nat)
    (max_time_ns warm_up_ns batch_time_ns min_batch_size min_end_checks : Z)
    (w : W) : option (Bench_Stats * W) :=
  let '(start, s0, w1) := gather_init max_time_ns warm_up_ns min_batch_size w in
  gather_loop start max_time_ns (clamp_batch_time batch_time_ns)
    min_batch_size min_end_checks fuel s0 w1.

End Sampler.

(** ** [benchmark_internal::Clock_Stats] and the calibrator *)

Module Clock_Stats.
Record t : Type := mk { average : Z; min : Z; max : Z }.
End Clock_Stats.

Section Calibrator.

Context {W : Type}.
Variable clock_ns : W -> Z * W.

(** The [for] loop of [calculate_clock_stats]: two back-to-back reads,
    their difference into the running sum, minimum and maximum. *)
Fixpoint clock_loop (n : nat) (sum : Z) (st : Clock_Stats.t) (w : W)
    : Z * Clock_Stats.t * W :=
  match n with
  | O => (sum, st, w)
  | S n' =>
      let (from, w1) := clock_ns w in
      let (to, w2) := clock_ns w1 in
      let diff := Int64.sub to from in
      let sum' := Int64.add sum diff in
      let mn :=
        if diff <? Clock_Stats.min st then diff else Clock_Stats.min st in
      let mx :=
        if diff >? Clock_Stats.max st then diff else Clock_Stats.max st in
      clock_loop n' sum'
        {| Clock_Stats.average := Clock_Stats.average st;
           Clock_Stats.min := mn;
           Clock_Stats.max := mx |} w2
  end.

(** The source divides by [runs]: with [runs = 0] it has no defined
    result, and the definition stands for the calls with [runs <> 0],
    as the two of [benchmark] are. *)
Definition calculate_clock_stats (runs : Z) (w : W) : Clock_Stats.t * W :=
  let st0 :=
    {| Clock_Stats.average := 0;
       Clock_Stats.min := LARGE;
       Clock_Stats.max := Int64.mul LARGE (-1) |} in
  let '(sum, st, w') := clock_loop (Z.to_nat runs) 0 st0 w in
  let avg := Int64.div sum runs in
  let avg' := if avg =? 0 then Int64.add avg 1 else avg in
  ({| Clock_Stats.average := avg';
      Clock_Stats.min := Clock_Stats.min st;
      Clock_Stats.max := Clock_Stats.max st |}, w').

(** The same with the division looked at: no result where the source
    divides by zero. *)
Definition calculate_clock_stats_checked (runs : Z) (w : W)
    : option (Clock_Stats.t * W) :=
  if runs =? 0 then None else Some (calculate_clock_stats runs w).

End Calibrator.

(** ** [double]: IEEE 754 binary64, round to nearest even *)

Module Double.

Definition prec : Z := 53.
Definition emax : Z := 1024.

Definition t : Type := spec_float.

(** [(double) z] for an [int64_t] [z]. *)
Definition of_int64 (z : Z) : t := binary_normalize prec emax z 0 false.

Definition zero : t := S754_zero false.
Definition one : t := Eval vm_compute in of_int64 1.

Definition add : t -> t -> t := SFadd prec emax.
Definition sub : t -> t -> t := SFsub prec emax.
Definition mul : t -> t -> t := SFmul prec emax.
Definition div : t -> t -> t := SFdiv prec emax.
Definition sqrt : t -> t := SFsqrt prec emax.
Definition abs : t -> t := SFabs.

Definition ltb : t -> t -> bool := SFltb.
Definition leb : t -> t -> bool := SFleb.
Definition eqb : t -> t -> bool := SFeqb.
(** [a >= b] *)
Definition geb (a b : t) : bool := SFleb b a.

Definition is_nan (x : t) : bool :=
  match x with S754_nan => true | _ => false end.


End Double.

(** ** [Bench_Result] and the reducer *)

Module Bench_Result.
Record t : Type := mk {
  mean_ms : Double.t;
  deviation_ms : Double.t;
  max_ms : Double.t;
  min_ms : Double.t;
  batch_size : Z;
  iters : Z
}.
End Bench_Result.

(** The deviation over the batches, in milliseconds, before the batch
    size correction. *)
Definition batch_deviation_ms (stats : Bench_Stats) : Double.t :=
  if batch_count stats >? 1 then
    let n := Double.of_int64 (batch_count stats) in
    let sum := Double.of_int64 (time_sum stats) in
    let sum2 := Double.of_int64 (squared_time_sum stats) in
    let varience_ns :=
      Double.div (Double.sub sum2 (Double.div (Double.mul sum sum) n))
                 (Double.sub n Double.one) in
    Double.div (Double.sqrt (Double.abs varience_ns))
               (Double.of_int64 MILISECOND_NANOSECONDS)
  else Double.zero.

Definition adjusted_time_sum (stats : Bench_Stats) : Z :=
  Int64.add (time_sum stats)
            (Int64.mul (mean_time_estimate stats) (batch_count stats)).
Definition adjutsted_min (stats : Bench_Stats) : Z :=
  Int64.add (min_batch_time stats) (mean_time_estimate stats).
Definition adjutsted_max (stats : Bench_Stats) : Z :=
  Int64.add (max_batch_time stats) (mean_time_estimate stats).

Definition effective_batch_size (stats : Bench_Stats) (runs_mult : Z) : Z :=
  Int64.mul (batch_size stats) runs_mult.
Definition total_iters (stats : Bench_Stats) (runs_mult : Z) : Z :=
  Int64.mul (effective_batch_size stats runs_mult) (batch_count stats).

(** The per-call mean, minimum and maximum before the correction
    ([mean_ms], [min_ms], [max_ms] local to [process_stats]). *)
Definition uncorrected (stats : Bench_Stats) (runs_mult : Z)
    : Double.t * Double.t * Double.t :=
  let bsize := effective_batch_size stats runs_mult in
  let iters := total_iters stats runs_mult in
  if negb (iters =? 0) then
    (Double.div (Double.of_int64 (adjusted_time_sum stats))
                (Double.of_int64 (Int64.mul iters MILISECOND_NANOSECONDS)),
     Double.div (Double.of_int64 (adjutsted_min stats))
                (Double.of_int64 (Int64.mul bsize MILISECOND_NANOSECONDS)),
     Double.div (Double.of_int64 (adjutsted_max stats))
                (Double.of_int64 (Int64.mul bsize MILISECOND_NANOSECONDS)))
  else (Double.zero, Double.zero, Double.zero).

Definition sqrt_batch_size (bsize : Z) : Double.t :=
  if bsize =? 0 then Double.one else Double.sqrt (Double.of_int64 bsize).

(** [process_stats] as it computes, its assertions aside. *)
Definition process_stats (stats : Bench_Stats) (runs_mult : Z)
    : Bench_Result.t :=
  let bsize := effective_batch_size stats runs_mult in
  let iters := total_iters stats runs_mult in
  let '(mean_ms, min_ms, max_ms) := uncorrected stats runs_mult in
  let sq := sqrt_batch_size bsize in
  let rmin :=
    Double.add mean_ms (Double.mul (Double.sub min_ms mean_ms) sq) in
  let rmax :=
    Double.add mean_ms (Double.mul (Double.sub max_ms mean_ms) sq) in
  {| Bench_Result.mean_ms := mean_ms;
     Bench_Result.deviation_ms := Double.div (batch_deviation_ms stats) sq;
     Bench_Result.max_ms := rmax;
     Bench_Result.min_ms :=
       if Double.ltb rmin Double.zero then Double.zero else rmin;
     Bench_Result.batch_size := bsize;
     Bench_Result.iters := iters |}.

(** The two assertions on entry of [process_stats]. *)
Definition entry_asserts (stats : Bench_Stats) : bool :=
  (Int64.mul (min_batch_time stats) (batch_count stats) <=? time_sum stats)
  && (Int64.mul (max_batch_time stats) (batch_count stats) >=? time_sum stats).

(** The assertions on the adjusted sums and on the uncorrected figures. *)
Definition middle_asserts (stats : Bench_Stats) (runs_mult : Z) : bool :=
  let '(mean_ms, min_ms, max_ms) := uncorrected stats runs_mult in
  (Int64.mul (adjutsted_min stats) (batch_count stats)
     <=? adjusted_time_sum stats)
  && (Int64.mul (adjutsted_max stats) (batch_count stats)
        >=? adjusted_time_sum stats)
  && (Double.geb mean_ms Double.zero && Double.geb min_ms Double.zero
      && Double.geb max_ms Double.zero).

(** "results must be plausible": the assertions on the result. *)
Definition plausible (r : Bench_Result.t) : bool :=
  (Bench_Result.iters r >=? 0)
  && (Bench_Result.batch_size r >=? 0)
  && Double.geb (Bench_Result.min_ms r) Double.zero
  && Double.geb (Bench_Result.max_ms r) Double.zero
  && Double.geb (Bench_Result.mean_ms r) Double.zero
  && Double.geb (Bench_Result.deviation_ms r) Double.zero
  && (Double.leb (Bench_Result.min_ms r) (Bench_Result.mean_ms r)
      && Double.leb (Bench_Result.mean_ms r) (Bench_Result.max_ms r)).

(** All assertions of [process_stats] together. *)
Definition process_stats_asserts (stats : Bench_Stats) (runs_mult : Z)
    : bool :=
  entry_asserts stats && middle_asserts stats runs_mult
  && plausible (process_stats stats runs_mult).

(** [process_stats] of a build with assertions: no result when one fails. *)
Definition process_stats_checked (stats : Bench_Stats) (runs_mult : Z)
    : option Bench_Result.t :=
  if process_stats_asserts stats runs_mult
  then Some (process_stats stats runs_mult) else None.

(** ** The facade *)

Section Facade.

Context {W : Type}.
Variable clock_ns : W -> Z * W.
Variable measured_fn : W -> bool * W.

(** What [benchmark] hands to the sampler, after the two calibrations. *)
Definition benchmark_noise_floor (multiple : Z) (w : W) : Z * W :=
  let (_, w1) := calculate_clock_stats clock_ns 100 w in
  let (clock_stats, w2) := calculate_clock_stats clock_ns 1000 w1 in
  (Int64.mul multiple (Clock_Stats.average clock_stats), w2).

(** [benchmark] as it computes, the assertions of the functions it
    calls aside, as in a build with [NDEBUG]; no result means that the
    model of the sampling loop was cut off.  [benchmark_checked] below
    has the assertions. *)
Definition benchmark (fuel : nat)
    (max_time_ms warm_up_ms runs_mult batch_of_clock_accuarcy_multiple : Z)
    (w : W) : option (Bench_Result.t * W) :=
  let (noise, w2) :=
    benchmark_noise_floor batch_of_clock_accuarcy_multiple w in
  match gather_bench_stats clock_ns measured_fn fuel
          (Int64.mul max_time_ms MILISECOND_NANOSECONDS)
          (Int64.mul warm_up_ms MILISECOND_NANOSECONDS)
          noise 1 5 w2 with
  | Some (stats, w3) => Some (process_stats stats runs_mult, w3)
  | None => None
  end.

(** The overload without a warm-up time. *)
Definition benchmark_default_warm_up (fuel : nat)
    (max_time_ms runs_mult batch_of_clock_accuarcy_multiple : Z) (w : W)
    : option (Bench_Result.t * W) :=
  benchmark fuel max_time_ms (Int64.add (Int64.div max_time_ms 20) 1)
    runs_mult batch_of_clock_accuarcy_multiple w.

End Facade.

(** ** The facade in a build with assertions *)

(** How a call ends: it returns, an assertion fails, or the model of
    the sampling loop was cut off before the loop was left. *)
Inductive Outcome (A : Type) : Type :=
| Returns (a : A)
| Aborts
| Cut_off.

Arguments Returns {A} a.
Arguments Aborts {A}.
Arguments Cut_off {A}.

Section Checked.

Context {W : Type}.
Variable clock_ns : W -> Z * W.
Variable measured_fn : W -> bool * W.

(** [benchmark] with [assert] compiled in: the assertion on
    [max_time_ns] at the top of [gather_bench_stats] (the other two hold
    of the defaults 1 and 5) and the assertions of [process_stats]. *)
Definition benchmark_checked (fuel : nat)
    (max_time_ms warm_up_ms runs_mult batch_of_clock_accuarcy_multiple : Z)
    (w : W) : Outcome (Bench_Result.t * W) :=
  let (noise, w2) :=
    benchmark_noise_floor clock_ns batch_of_clock_accuarcy_multiple w in
  let max_time_ns := Int64.mul max_time_ms MILISECOND_NANOSECONDS in
  if max_time_ns >=? 0 then
    match gather_bench_stats clock_ns measured_fn fuel max_time_ns
            (Int64.mul warm_up_ms MILISECOND_NANOSECONDS) noise 1 5 w2 with
    | Some (stats, w3) =>
        match process_stats_checked stats runs_mult with
        | Some r => Returns (r, w3)
        | None => Aborts
        end
    | None => Cut_off
    end
  else Aborts.

End Checked.

(** ** The stopwatch *)

Section Stopwatch.

Context {W : Type}.
Variable clock_ns : W -> Z * W.

(** [ellapsed_time_ns]: a clock read, the function, a second read. *)
Definition ellapsed_time_ns (fn : W -> W) (w : W) : Z * W :=
  let (from, w1) := clock_ns w in
  let w2 := fn w1 in
  let (to, w3) := clock_ns w2 in
  (Int64.sub to from, w3).

End Stopwatch.

(** ** Vocabulary of the statements *)

(** The resize as the specification words it: exact integers, the raw
    product [batch_count * batch_size] in the new batch size, the
    divisors guarded. *)
Definition resize_spec (stats : Bench_Stats)
    (total_time max_time_ns noise_floor_ns min_batch_size min_end_checks : Z)
    : Bench_Stats :=
  let calls := batch_count stats * batch_size stats in
  let remaining := max_time_ns - total_time in
  let num_checks := Z.max (Z.quot remaining noise_floor_ns) min_end_checks in
  let den := total_time * num_checks in
  {| batch_count := 0;
     batch_size :=
       Z.max min_batch_size
         (Z.quot (calls * remaining) (if den =? 0 then 1 else den));
     time_sum := 0;
     squared_time_sum := 0;
     min_batch_time := LARGE;
     max_batch_time := 0;
     mean_time_estimate := Z.quot (time_sum stats) (Z.max 1 calls) |}.

(** The deviation as the specification words it: 0 for at most one
    batch, else the root of the absolute sample variance of the deltas,
    in milliseconds, over the root of the effective batch size. *)
Definition deviation_spec (stats : Bench_Stats) (runs_mult : Z) : Double.t :=
  if batch_count stats <=? 1 then Double.zero
  else
    let n := Double.of_int64 (batch_count stats) in
    let sum := Double.of_int64 (time_sum stats) in
    let sum2 := Double.of_int64 (squared_time_sum stats) in
    let variance :=
      Double.div (Double.sub sum2 (Double.div (Double.mul sum sum) n))
                 (Double.sub n Double.one) in
    Double.div
      (Double.div (Double.sqrt (Double.abs variance))
                  (Double.of_int64 MILISECOND_NANOSECONDS))
      (Double.sqrt (Double.of_int64 (effective_batch_size stats runs_mult))).

(** The divisors of the divisions [process_stats] executes on these
    arguments, in the order of the source. *)
Definition process_stats_divisors (stats : Bench_Stats) (runs_mult : Z)
    : list Double.t :=
  let bsize := effective_batch_size stats runs_mult in
  let iters := total_iters stats runs_mult in
  (if batch_count stats >? 1 then
     [Double.of_int64 (batch_count stats);
      Double.sub (Double.of_int64 (batch_count stats)) Double.one;
      Double.of_int64 MILISECOND_NANOSECONDS]
   else [])
  ++ (if negb (iters =? 0) then
        [Double.of_int64 (Int64.mul iters MILISECOND_NANOSECONDS);
         Double.of_int64 (Int64.mul bsize MILISECOND_NANOSECONDS);
         Double.of_int64 (Int64.mul bsize MILISECOND_NANOSECONDS)]
      else [])
  ++ [sqrt_batch_size bsize].

(** The fields the deviation reads are [int64_t] values. *)
Definition int64_sums (stats : Bench_Stats) : Prop :=
  Int64.in_range (batch_count stats)
  /\ Int64.in_range (time_sum stats)
  /\ Int64.in_range (squared_time_sum stats).

(** A [double] that is not a NaN and not below zero: a zero, a positive
    finite number or plus infinity. *)
Definition nonneg (x : Double.t) : Prop :=
  match x with
  | S754_zero _ => True
  | S754_finite s _ _ | S754_infinity s => s = false
  | S754_nan => False
  end.

Definition not_nan (x : Double.t) : Prop :=
  match x with S754_nan => False | _ => True end.

Definition finite_or_zero (x : Double.t) : Prop :=
  match x with S754_zero _ | S754_finite _ _ _ => True | _ => False end.

Definition positive_finite (x : Double.t) : Prop :=
  exists m e, x = S754_finite false m e.

(** *** Rounding, for the order of the result *)

(** Where the fraction [P / Q] lies between its floor and the next
    integer. *)
Definition frac_loc (P Q : Z) : location :=
  if P mod Q =? 0 then loc_Exact else loc_Inexact (2 * (P mod Q) ?= Q).

(** The shift record of the fraction [P / Q]: its floor and the place
    of the rest. *)
Definition located (P Q : Z) : shr_record :=
  shr_record_of_loc (P / Q) (frac_loc P Q).

(** [P / Q] rounded to the nearest integer, ties to even. *)
Definition rne (P Q : Z) : Z := round_nearest_even (P / Q) (frac_loc P Q).

(** The second half of [binary_round_aux]: a rounded mantissa made a
    number. *)
Definition pack (sx : bool) (m e : Z) : Double.t :=
  let '(mrs, e') := shr_fexp Double.prec Double.emax m e loc_Exact in
  match shr_m mrs with
  | 0 => S754_zero sx
  | Zpos p =>
      if e' <=? Double.emax - Double.prec then S754_finite sx p e'
      else S754_infinity sx
  | Zneg _ => S754_nan
  end.

(** The floor [m] of a fraction fits the exponent [e] of the format:
    53 digits, or fewer at the least exponent. *)
Definition fits (m e : Z) : Prop :=
  (2 ^ 52 <= m < 2 ^ 53 /\ - 1074 <= e)
  \/ (0 <= m < 2 ^ 52 /\ e = - 1074).

(** A [double] that is not a NaN and not above zero. *)
Definition nonpos (x : Double.t) : Prop :=
  match x with
  | S754_zero _ => True
  | S754_finite s _ _ | S754_infinity s => s = true
  | S754_nan => False
  end.

(** A zero or a positive finite number of the format. *)
Definition regular (x : Double.t) : Prop :=
  match x with
  | S754_zero _ => True
  | S754_finite false m e => fits (Zpos m) e /\ e <= 971
  | _ => False
  end.


Section Worlds.

Context {W : Type}.
Variable clock_ns : W -> Z * W.
Variable measured_fn : W -> bool * W.

(** What the clock would show in world [w]. *)
Definition reading (w : W) : Z := fst (clock_ns w).

(** The world one batch later: a clock read, then [n] calls. *)
Definition after_batch (n : nat) (w : W) : W :=
snd (run_batch measured_fn n 0 (snd (clock_ns w))).

(** The clock source of the sampler: non-negative [int64_t] readings
  that never go back, whatever happens in between. *)
Record monotonic_clock : Prop := {
reading_range : forall w, 0 <= reading w <= Int64.max_signed;
read_mono : forall w, reading w <= reading (snd (clock_ns w));
call_mono : forall w, reading w <= reading (snd (measured_fn w))
}.

(** Up to [horizon], the clock shows at least 1 ns more after a batch
  than it showed at the read before the batch. *)
Definition advancing_clock (horizon : Z) : Prop :=
forall (w : W) (n : nat),
  (0 < n)%nat -> reading w <= horizon ->
  reading w + 1 <= reading (after_batch n w).

(** The loop is at a boundary of the run: its world is the one just
    after the clock read that gave [from]. *)
Definition at_boundary (s : Loop_State) (w : W) : Prop :=
  exists w0, w = snd (clock_ns w0) /\ from s = reading w0.

(** What every boundary of a run that started at [start] satisfies. *)
Record run_invariant (start max_time_ns : Z) (s : Loop_State) (w : W)
    : Prop := {
  inv_boundary : at_boundary s w;
  inv_started : start <= from s;
  inv_in_time : from s - start <= max_time_ns;
  inv_deadline : to_time s <= max_time_ns;
  inv_batch_size : 1 <= batch_size (stats s)
}.

(** Far from the end of the [int64_t] range. *)
Definition small (z : Z) : Prop := z < 2 ^ 62.

(** The accounting behind the invariant: after at most [k] batches in
    [elapsed] nanoseconds, how large the fields can be. *)
Record accounted (k elapsed : Z) (st : Bench_Stats) : Prop := {
  acc_count : 0 <= batch_count st <= k;
  acc_size : 1 <= batch_size st;
  acc_estimate : 0 <= mean_time_estimate st <= elapsed;
  acc_min_low : - elapsed <= min_batch_time st;
  acc_min_high : 1 <= batch_count st -> min_batch_time st <= elapsed;
  acc_max : 0 <= max_batch_time st <= elapsed;
  acc_sum_low : min_batch_time st * batch_count st <= time_sum st;
  acc_sum_high : time_sum st <= max_batch_time st * batch_count st
}.

(** Before the resize the estimate is 0 and the sum is a sum of
    durations; after it the deadline is the end of the run. *)
Record accounting (start max_time_ns k : Z) (s : Loop_State) (w : W)
    : Prop := {
  acc_stats : accounted k (reading w - start) (stats s);
  acc_boundary : at_boundary s w;
  acc_started : start <= from s;
  acc_phase :
    to_time s = max_time_ns
    \/ (mean_time_estimate (stats s) = 0
        /\ 0 <= time_sum (stats s) <= from s - start)
}.


(** The statistics and the world at a loop boundary. *)
Definition boundary_stats (r : @Step_Result W) : Bench_Stats :=
match r with
| Continue s _ => stats s
| Break result _ => result
end.

Definition boundary_world (r : @Step_Result W) : W :=
match r with
| Continue _ w => w
| Break _ w => w
end.

(** The differences of [n] pairs of back-to-back clock reads. *)
Fixpoint clock_deltas (n : nat) (w : W) : list Z :=
match n with
| O => []
| S n' =>
    let (from, w1) := clock_ns w in
    let (to, w2) := clock_ns w1 in
    Int64.sub to from :: clock_deltas n' w2
end.

(** *** The same world with a log of what happened in it *)

Inductive event : Type :=
| Read (t : Z)
| Call (keep : bool).

(** The log grows at its head: the latest event comes first. *)
Definition logged_clock (x : W * list event) : Z * (W * list event) :=
let (t, w') := clock_ns (fst x) in (t, (w', Read t :: snd x)).

Definition logged_fn (x : W * list event) : bool * (W * list event) :=
let (keep, w') := measured_fn (fst x) in (keep, (w', Call keep :: snd x)).

(** A step result of the plain world, carried to the logged world. *)
Definition with_log (r : @Step_Result W) (log : list event)
    : @Step_Result (W * list event) :=
  match r with
  | Continue s w => Continue s (w, log)
  | Break result w => Break result (w, log)
  end.

(** A batch in a log: the answers of its calls, then the clock read. *)
Definition batch_events (b : list bool * Z) : list event :=
map Call (fst b) ++ [Read (snd b)].

(** The batches the loop runs in its first [k] iterations, in order:
    the answers of the calls and the clock read that follows them. *)
Fixpoint executed_batches
    (start max_time_ns batch_time_ns min_batch_size min_end_checks : Z)
    (k : nat) (s : Loop_State) (w : W) : list (list bool * Z) :=
  match k with
  | O => []
  | S k' =>
      let r := batch_results measured_fn
                 (Z.to_nat (batch_size (stats s))) w in
      (fst r, fst (clock_ns (snd r))) ::
      match gather_step clock_ns measured_fn start max_time_ns batch_time_ns
              min_batch_size min_end_checks s w with
      | Continue s' w' =>
          executed_batches start max_time_ns batch_time_ns min_batch_size
            min_end_checks k' s' w'
      | Break _ _ => []
      end
  end.

(** The batch sizes in force at the first [k] iterations of the loop. *)
Fixpoint batch_sizes
  (start max_time_ns batch_time_ns min_batch_size min_end_checks : Z)
  (k : nat) (s : Loop_State) (w : W) : list Z :=
match k with
| O => []
| S k' =>
    batch_size (stats s) ::
    match gather_step clock_ns measured_fn start max_time_ns batch_time_ns
            min_batch_size min_end_checks s w with
    | Continue s' w' =>
        batch_sizes start max_time_ns batch_time_ns min_batch_size
          min_end_checks k' s' w'
    | Break _ _ => []
    end
end.

End Worlds.

Definition list_min (l : list Z) (d : Z) : Z := fold_right Z.min d l.
Definition list_max (l : list Z) (d : Z) : Z := fold_right Z.max d l.
Definition list_sum (l : list Z) : Z := fold_right Z.add 0 l.

(** *** Concrete worlds *)

(** The world is the time in nanoseconds since the clock's origin.  The
    clock shows it, up to the far end of its range; a read takes
    [read_cost], a call takes [call_cost] and answers [keep]. *)
Definition ticking_clock (read_cost : N) (w : N) : Z * N :=
  (Z.min (Z.of_N w) LARGE, (w + read_cost)%N).

Definition steady_fn (keep : bool) (call_cost : N) (w : N) : bool * N :=
  (keep, (w + call_cost)%N).




(** *** Reads and kept batches *)

Section Observations.

Context {W : Type}.
Variable clock_ns : W -> Z * W.

(** The clock's contract as far as reads alone go: non-negative
    [int64_t] readings that never go back from one read to the next. *)
Definition monotonic_reads : Prop :=
  (forall w, 0 <= reading clock_ns w <= Int64.max_signed)
  /\ (forall w, reading clock_ns w <= reading clock_ns (snd (clock_ns w))).

(** The world after [n] clock reads and nothing else. *)
Definition after_reads (n : nat) (w : W) : W :=
  Nat.iter n (fun x => snd (clock_ns x)) w.

End Observations.

(** The durations of the kept batches among [bs], in order.  A batch is
    kept when each of its calls answered "keep"; its duration runs from
    the clock read before it, [from] for the first one. *)
Fixpoint kept_batches (bs : list (list bool * Z)) (from : Z) : list Z :=
  match bs with
  | [] => []
  | (answers, now) :: rest =>
      (if forallb (fun keep => keep) answers
       then [Int64.sub now from] else [])
      ++ kept_batches rest now
  end.

(** The adjusted minimum is a duration, and the minimum was never
    above its initial sentinel. *)
Definition durations_adjusted (st : Bench_Stats) : Prop :=
  0 <= min_batch_time st + mean_time_estimate st
  /\ min_batch_time st <= LARGE.

(** ** The median calibrator

    [micro_bench::calculate_median_clock_accuarcy] of the header's
    revision with a fixed clock accuracy: 1000 back-to-back deltas in an
    array, a bubble sort in place, and the mean of two middle entries. *)

Module Median.

Definition runs : nat := 1000.

(** [times[i]]; the loops never index outside the array. *)
Definition get (times : list Z) (i : nat) : Z := nth i times 0.

(** [times[i] = x] *)
Fixpoint set (times : list Z) (i : nat) (x : Z) : list Z :=
  match times, i with
  | [], _ => []
  | _ :: rest, O => x :: rest
  | t :: rest, S i' => t :: set rest i' x
  end.

(** The body of the inner loop: [if (times[j] > times[j + 1])] swap. *)
Definition compare_swap (times : list Z) (j : nat) : list Z :=
  if get times j >? get times (S j) then
    let temp := get times j in
    let times1 := set times j (get times (S j)) in
    set times1 (S j) temp
  else times.

(** [for (j = ...; j < runs - i - 1; j++)], with [count] iterations
    left from [j]. *)
Fixpoint inner_loop (times : list Z) (j count : nat) : list Z :=
  match count with
  | O => times
  | S count' => inner_loop (compare_swap times j) (S j) count'
  end.

(** [for (i = ...; i < runs - 1; i++)], with [count] iterations left
    from [i]. *)
Fixpoint outer_loop (n : nat) (times : list Z) (i count : nat) : list Z :=
  match count with
  | O => times
  | S count' =>
      outer_loop n (inner_loop times 0 (n - i - 1)) (S i) count'
  end.

Definition bubble_sort (n : nat) (times : list Z) : list Z :=
  outer_loop n times 0 (n - 1).

Definition median (n : nat) (times : list Z) : Z :=
  if (n mod 2 =? 0)%nat
  then Int64.div (Int64.add (get times (n / 2)) (get times (n / 2 + 1))) 2
  else get times (n / 2).

Section Calibrator.

Context {W : Type}.
Variable clock : W -> Z * W.

(** The first loop: [times[i] = to - from] for [count] further
    entries. *)
Fixpoint gather_samples (count : nat) (w : W) : list Z * W :=
  match count with
  | O => ([], w)
  | S count' =>
      let (from, w1) := clock w in
      let (to, w2) := clock w1 in
      let (rest, w') := gather_samples count' w2 in
      (Int64.sub to from :: rest, w')
  end.

Definition calculate_median_clock_accuarcy (w : W) : Z * W :=
  let (times, w') := gather_samples runs w in
  (median runs (bubble_sort runs times), w').

End Calibrator.

(** One pass of the bubble sort seen on a list: [count] comparisons of
    neighbours from the head on, the greater one carried along. *)
Fixpoint pass (count : nat) (l : list Z) : list Z :=
  match count, l with
  | S count', x :: y :: rest =>
      if x >? y then y :: pass count' (x :: rest)
      else x :: pass count' (y :: rest)
  | _, _ => l
  end.

End Median.

(** ** The calibrator with an accuracy

    [microbench::calculate_clock_stats()] of the header's revision that
    sorts its samples: minimum, maximum and median from the sorted
    array, the average from the running sum, and the accuracy chosen
    among them. *)

Module Accuracy.

Record Clock_Stats : Type := mk {
  median : Z;
  average : Z;
  min : Z;
  max : Z;
  accuracy : Z
}.

Definition runs : nat := 1000.

Section Calibrator.

Context {W : Type}.
Variable clock : W -> Z * W.

(** The first loop: [times[i] = to - from; sum += to - from;] for
    [count] further entries. *)
Fixpoint gather_samples (count : nat) (sum : Z) (w : W) : list Z * Z * W :=
  match count with
  | O => ([], sum, w)
  | S count' =>
      let (from, w1) := clock w in
      let (to, w2) := clock w1 in
      let '(rest, sum', w') :=
        gather_samples count' (Int64.add sum (Int64.sub to from)) w2 in
      (Int64.sub to from :: rest, sum', w')
  end.

Definition calculate_clock_stats (w : W) : Clock_Stats * W :=
  let '(times0, sum, w') := gather_samples runs 0 w in
  let times := Median.bubble_sort runs times0 in
  let average := Int64.div sum (Z.of_nat runs) in
  let median := Median.median runs times in
  let accuracy0 :=
    if (median <? average) && negb (median =? 0) then median else average in
  ({| median := median;
      average := average;
      min := Median.get times 0;
      max := Median.get times (runs - 1);
      accuracy := if accuracy0 =? 0 then 1 else accuracy0 |}, w').

End Calibrator.

End Accuracy.

(** * Properties *)

(** ** Arithmetic of [int64_t] *)

Module Int64Facts.
Import Int64.

Lemma wrap_id z : in_range z -> wrap z = z.
Proof.
  unfold in_range, min_signed, max_signed, wrap, half_modulus, modulus.
  intros H. rewrite Z.mod_small; lia.
Qed.

Lemma wrap_range z : in_range (wrap z).
Proof.
  unfold in_range, min_signed, max_signed, wrap, half_modulus, modulus.
  pose proof (Z.mod_pos_bound (z + 9223372036854775808)
                18446744073709551616 ltac:(lia)).
  lia.
Qed.

Lemma wrap_add_l a b : wrap (wrap a + b) = wrap (a + b).
Proof.
  unfold wrap. f_equal.
  replace ((a + half_modulus) mod modulus - half_modulus + b + half_modulus)
    with ((a + half_modulus) mod modulus + b) by lia.
  rewrite Zplus_mod_idemp_l. f_equal. lia.
Qed.

Lemma quot_range a b : in_range a -> 0 < b -> in_range (Z.quot a b).
Proof.
  unfold in_range, min_signed, max_signed, half_modulus. intros Ha Hb.
  destruct (Z_lt_le_dec a 0).
  - assert (H : Z.quot (- a) b = - Z.quot a b)
      by apply Z.quot_opp_l, Z.neq_sym, Z.lt_neq, Hb.
    pose proof (Z.quot_pos (- a) b ltac:(lia) Hb).
    pose proof (Z.quot_le_upper_bound (- a) b (- a) Hb ltac:(nia)). lia.
  - pose proof (Z.quot_pos a b ltac:(lia) Hb).
    pose proof (Z.quot_le_upper_bound a b a Hb ltac:(nia)). lia.
Qed.

Lemma add_exact a b : in_range (a + b) -> add a b = a + b.
Proof. apply wrap_id. Qed.

Lemma sub_exact a b : in_range (a - b) -> sub a b = a - b.
Proof. apply wrap_id. Qed.

Lemma mul_exact a b : in_range (a * b) -> mul a b = a * b.
Proof. apply wrap_id. Qed.

Lemma div_exact a b : in_range a -> 0 < b -> div a b = Z.quot a b.
Proof. intros. now apply wrap_id, quot_range. Qed.

End Int64Facts.

Lemma at_least_one x : (if x <=? 0 then 1 else x) = Z.max 1 x.
Proof. destruct (Z.leb_spec x 0); lia. Qed.

Lemma at_least x lo : (if x <? lo then lo else x) = Z.max lo x.
Proof. destruct (Z.ltb_spec x lo); lia. Qed.

(** ** One iteration of the sampling loop *)

Section Iteration.

Context {W : Type}.
Variable clock_ns : W -> Z * W.
Variable measured_fn : W -> bool * W.

Lemma batch_results_length n : forall w,
  length (fst (batch_results measured_fn n w)) = n.
Proof.
  induction n as [|n IH]; intros w; simpl; [reflexivity|].
  destruct (measured_fn w) as [keep w']. specialize (IH w').
  destruct (batch_results measured_fn n w'). simpl in *. now rewrite IH.
Qed.

(** The or-accumulated flag is 0 exactly when every call answered
    "keep"; the calls are all made in either case. *)
Lemma run_batch_results n : forall reject w,
  run_batch measured_fn n reject w =
    (Z.lor reject
       (if forallb (fun keep => keep) (fst (batch_results measured_fn n w))
        then 0 else 1),
     snd (batch_results measured_fn n w)).
Proof.
  induction n as [|n IH]; intros reject w; simpl.
  - now rewrite Z.lor_0_r.
  - destruct (measured_fn w) as [keep w'].
    rewrite IH. destruct (batch_results measured_fn n w') as [rest w''].
    simpl. destruct keep; simpl.
    + now rewrite Z.lor_0_r.
    + rewrite <- Z.lor_assoc. now destruct (forallb _ rest).
Qed.

Lemma measure_batch_results s w :
  measure_batch clock_ns measured_fn s w =
    let n := Z.to_nat (batch_size (stats s)) in
    let r := batch_results measured_fn n w in
    let now := fst (clock_ns (snd r)) in
    (if forallb (fun keep => keep) (fst r)
     then accumulate (stats s) (Int64.sub now (from s)) else stats s,
     now, snd (clock_ns (snd r))).
Proof.
  unfold measure_batch. rewrite run_batch_results. simpl.
  destruct (clock_ns _) as [now w2]. simpl.
  now destruct (forallb _ _).
Qed.

(** C4.  One answer "reject" among the calls of a batch keeps the batch
    out of every accumulator; a batch whose calls all answered "keep"
    enters all of them through its delta from the estimate, the
    minimum and the maximum included.  Either way the clock read after
    the batch is the next [from], and the elapsed time it gives alone
    selects between going on, resizing and leaving the loop. *)
Theorem batch_rejection :
  forall start max_time_ns batch_time_ns min_batch_size min_end_checks
         (s : Loop_State) (w : W),
    let step := gather_step clock_ns measured_fn start max_time_ns
                  batch_time_ns min_batch_size min_end_checks in
    let n := Z.to_nat (batch_size (stats s)) in
    let answers := fst (batch_results measured_fn n w) in
    let kept := forallb (fun keep => keep) answers in
    let w1 := snd (batch_results measured_fn n w) in
    let now := fst (clock_ns w1) in
    let w2 := snd (clock_ns w1) in
    let st := stats s in
    let delta := Int64.sub (Int64.sub now (from s)) (mean_time_estimate st) in
    let total_time := Int64.sub now start in
    exists stats1,
      length answers = n
      /\ measure_batch clock_ns measured_fn s w = (stats1, now, w2)
      /\ (kept = false -> stats1 = st)
      /\ (kept = true ->
            time_sum stats1 = Int64.add (time_sum st) delta
            /\ squared_time_sum stats1 =
                 Int64.add (squared_time_sum st) (Int64.mul delta delta)
            /\ batch_count stats1 = Int64.add (batch_count st) 1
            /\ min_batch_time stats1 = Z.min (min_batch_time st) delta
            /\ max_batch_time stats1 = Z.max (max_batch_time st) delta
            /\ batch_size stats1 = batch_size st
            /\ mean_time_estimate stats1 = mean_time_estimate st)
      /\ (total_time <= to_time s ->
            step s w =
              Continue {| stats := stats1; to_time := to_time s;
                          from := now |} w2)
      /\ (to_time s < total_time <= max_time_ns ->
            exists s', step s w = Continue s' w2
                       /\ to_time s' = max_time_ns /\ from s' = now)
      /\ (to_time s < total_time -> max_time_ns < total_time ->
            step s w = Break stats1 w2).
Proof.
  intros. subst step. unfold gather_step.
  rewrite measure_batch_results. cbv zeta.
  fold n. fold answers. fold kept. fold w1. fold now. fold w2.
  eexists. split; [apply batch_results_length|].
  split; [reflexivity|].
  split; [intros ->; reflexivity|].
  split.
  { intros ->. unfold accumulate. simpl. fold st. fold delta.
    repeat split.
    - destruct (Z.gtb_spec (min_batch_time st) delta); lia.
    - destruct (Z.ltb_spec (max_batch_time st) delta); lia. }
  unfold check_deadline. fold total_time.
  split; [|split].
  - intros H. destruct (Z.gtb_spec total_time (to_time s)); [lia|reflexivity].
  - intros [H1 H2].
    destruct (Z.gtb_spec total_time (to_time s)); [|lia].
    destruct (Z.gtb_spec total_time max_time_ns); [lia|].
    eexists. split; [reflexivity|]. now split.
  - intros H1 H2.
    destruct (Z.gtb_spec total_time (to_time s)); [|lia].
    destruct (Z.gtb_spec total_time max_time_ns); [reflexivity|lia].
Qed.

(** C2, amended.  At a resize checkpoint the loop goes on with the
    deadline at [max_time_ns] and the accumulators back at their
    initial values; the new estimate is the sum of the deltas over the
    number of calls clamped to at least 1, and the new batch size uses
    that same clamped number of calls, not the raw product. *)
Theorem resize_checkpoint :
  forall start max_time_ns batch_time_ns min_batch_size min_end_checks
         (s : Loop_State) (w : W) stats1 now w2,
    measure_batch clock_ns measured_fn s w = (stats1, now, w2) ->
    let total_time := Int64.sub now start in
    to_time s < total_time <= max_time_ns ->
    exists s',
      gather_step clock_ns measured_fn start max_time_ns batch_time_ns
        min_batch_size min_end_checks s w = Continue s' w2
      /\ to_time s' = max_time_ns
      /\ from s' = now
      /\ (let iters :=
            Z.max 1 (Int64.mul (batch_count stats1) (batch_size stats1)) in
          let remaining := Int64.sub max_time_ns total_time in
          let num_checks :=
            Z.max (Int64.div remaining batch_time_ns) min_end_checks in
          let den := Z.max 1 (Int64.mul total_time num_checks) in
          mean_time_estimate (stats s') = Int64.div (time_sum stats1) iters
          /\ batch_size (stats s') =
               Z.max min_batch_size
                 (Int64.div (Int64.mul iters remaining) den))
      /\ batch_count (stats s') = 0
      /\ time_sum (stats s') = 0
      /\ squared_time_sum (stats s') = 0
      /\ min_batch_time (stats s')
           = min_batch_time (initial_stats min_batch_size)
      /\ max_batch_time (stats s')
           = max_batch_time (initial_stats min_batch_size).
Proof.
  intros start max_time_ns batch_time_ns min_batch_size min_end_checks s w
         stats1 now w2 Hm total_time [Hlo Hhi].
  unfold gather_step. rewrite Hm.
  unfold check_deadline. fold total_time.
  destruct (Z.gtb_spec total_time (to_time s)); [|lia].
  destruct (Z.gtb_spec total_time max_time_ns); [lia|].
  eexists. split; [reflexivity|]. simpl.
  rewrite !at_least_one, !at_least, (Z.max_comm min_end_checks).
  repeat split; reflexivity.
Qed.

End Iteration.

(** C2 as worded fails when the warm-up kept no batch: with every call
    rejected, a first batch ending 10 ns after the start, a warm-up of
    5 ns, 1000 ns in all and a noise floor of 1000 ns, the loop goes on
    with batches of 19 calls, where the worded formula gives 1. *)
Lemma resize_counterexample :
  let clock := ticking_clock 0 in
  let fn := steady_fn false 10 in
  let '(start, s0, w0) := gather_init clock 1000 5 1 0%N in
  let '(stats1, now, w1) := measure_batch clock fn s0 w0 in
  let total_time := Int64.sub now start in
  to_time s0 < total_time <= 1000
  /\ (exists s', gather_step clock fn start 1000 1000 1 5 s0 w0 = Continue s' w1
                 /\ batch_size (stats s') = 19)
  /\ batch_size (resize_spec stats1 total_time 1000 1000 1 5) = 1.
Proof.
  vm_compute. repeat split; try discriminate.
  eexists. split; reflexivity.
Qed.

Lemma resize_checkpoint_witness :
  exists s',
    gather_step (ticking_clock 0) (steady_fn true 10) 0 1000 1000 1 5
      {| stats := initial_stats 1; to_time := 5; from := 0 |} 0%N
    = Continue s' 10%N
    /\ batch_size (stats s') = 19 /\ mean_time_estimate (stats s') = 10.
Proof.
  destruct (resize_checkpoint (ticking_clock 0) (steady_fn true 10)
              0 1000 1000 1 5
              {| stats := initial_stats 1; to_time := 5; from := 0 |} 0%N
              (accumulate (initial_stats 1) 10) 10 10%N)
    as (s' & Hstep & _ & _ & [Hest Hsize] & _).
  - reflexivity.
  - vm_compute. split; [reflexivity | discriminate].
  - exists s'. split; [exact Hstep|]. split.
    + rewrite Hsize. reflexivity.
    + rewrite Hest. reflexivity.
Defined.

(** ** The calibrator *)

Lemma list_min_push l : forall d m,
  list_min l (Z.min d m) = Z.min d (list_min l m).
Proof.
  induction l as [|x l IH]; intros d m; simpl; [reflexivity|].
  rewrite IH. lia.
Qed.

Lemma list_max_push l : forall d m,
  list_max l (Z.max d m) = Z.max d (list_max l m).
Proof.
  induction l as [|x l IH]; intros d m; simpl; [reflexivity|].
  rewrite IH. lia.
Qed.

(** Below its default, the folded minimum is an element of the list and
    a lower bound of it. *)
Lemma list_min_least l m :
  l <> [] -> Forall (fun d => d <= m) l ->
  In (list_min l m) l /\ Forall (fun d => list_min l m <= d) l.
Proof.
  induction l as [|x l IH]; intros Hne Hall; [congruence|].
  inversion Hall as [|? ? Hx Hl]; subst.
  change (list_min (x :: l) m) with (Z.min x (list_min l m)).
  destruct l as [|y l].
  - change (list_min [] m) with m. rewrite Z.min_l by lia.
    split; [now left|]. constructor; [lia|constructor].
  - destruct (IH ltac:(discriminate) Hl) as [Hin Hlow].
    destruct (Z.min_spec x (list_min (y :: l) m)) as [[? ->]|[? ->]].
    + split; [now left|]. constructor; [lia|].
      eapply Forall_impl; [|exact Hlow]. cbv beta. intros. lia.
    + split; [now right|]. constructor; [lia|exact Hlow].
Qed.

Lemma list_max_greatest l m :
  l <> [] -> Forall (fun d => m <= d) l ->
  In (list_max l m) l /\ Forall (fun d => d <= list_max l m) l.
Proof.
  induction l as [|x l IH]; intros Hne Hall; [congruence|].
  inversion Hall as [|? ? Hx Hl]; subst.
  change (list_max (x :: l) m) with (Z.max x (list_max l m)).
  destruct l as [|y l].
  - change (list_max [] m) with m. rewrite Z.max_l by lia.
    split; [now left|]. constructor; [lia|constructor].
  - destruct (IH ltac:(discriminate) Hl) as [Hin Hup].
    destruct (Z.max_spec x (list_max (y :: l) m)) as [[? ->]|[? ->]].
    + split; [now right|]. constructor; [lia|exact Hup].
    + split; [now left|]. constructor; [lia|].
      eapply Forall_impl; [|exact Hup]. cbv beta. intros. lia.
Qed.

Section Calibration.

Context {W : Type}.
Variable clock_ns : W -> Z * W.

Lemma clock_deltas_length n : forall w,
  length (clock_deltas clock_ns n w) = n.
Proof.
  induction n as [|n IH]; intros w; simpl; [reflexivity|].
  destruct (clock_ns w) as [from w1]. destruct (clock_ns w1) as [to w2].
  simpl. now rewrite IH.
Qed.

(** The loop folds the deltas into its three accumulators; the sum is
    the exact sum reduced to 64 bits, whatever happened in between. *)
Lemma clock_loop_deltas n : forall sum st w,
  Int64.in_range sum ->
  let ds := clock_deltas clock_ns n w in
  let r := clock_loop clock_ns n sum st w in
  fst (fst r) = Int64.wrap (sum + list_sum ds)
  /\ Clock_Stats.min (snd (fst r)) = list_min ds (Clock_Stats.min st)
  /\ Clock_Stats.max (snd (fst r)) = list_max ds (Clock_Stats.max st).
Proof.
  induction n as [|n IH]; intros sum st w Hsum; simpl.
  - rewrite Z.add_0_r, Int64Facts.wrap_id by exact Hsum. auto.
  - destruct (clock_ns w) as [from w1]. destruct (clock_ns w1) as [to w2].
    simpl.
    match goal with
    | |- context [clock_loop clock_ns n ?s ?t ?v] =>
        destruct (IH s t v (Int64Facts.wrap_range _)) as (Hs & Hmin & Hmax)
    end.
    rewrite Hs, Hmin, Hmax. simpl. unfold Int64.add.
    rewrite Int64Facts.wrap_add_l.
    split; [f_equal; unfold list_sum; simpl; lia|].
    split.
    + replace (if Int64.sub to from <? Clock_Stats.min st
               then Int64.sub to from else Clock_Stats.min st)
        with (Z.min (Int64.sub to from) (Clock_Stats.min st))
        by (destruct (Z.ltb_spec (Int64.sub to from) (Clock_Stats.min st)); lia).
      apply list_min_push.
    + replace (if Int64.sub to from >? Clock_Stats.max st
               then Int64.sub to from else Clock_Stats.max st)
        with (Z.max (Int64.sub to from) (Clock_Stats.max st))
        by (destruct (Z.gtb_spec (Int64.sub to from) (Clock_Stats.max st)); lia).
      apply list_max_push.
Qed.

(** C9.  For [runs > 0], with every back-to-back delta within the
    sentinels [-2^62 .. 2^62] and their sum an [int64_t], the average is
    the sum of the [runs] deltas divided by [runs], an average of 0
    replaced by 1, and the minimum and the maximum are the least and the
    greatest of the deltas. *)
Theorem calibration_average_min_max :
  forall (runs : Z) (w : W),
    0 < runs ->
    let ds := clock_deltas clock_ns (Z.to_nat runs) w in
    Forall (fun d => - LARGE <= d <= LARGE) ds ->
    Int64.in_range (list_sum ds) ->
    let cs := fst (calculate_clock_stats clock_ns runs w) in
    let quotient := Z.quot (list_sum ds) runs in
    Z.of_nat (length ds) = runs
    /\ Clock_Stats.average cs = (if quotient =? 0 then 1 else quotient)
    /\ In (Clock_Stats.min cs) ds
    /\ Forall (fun d => Clock_Stats.min cs <= d) ds
    /\ In (Clock_Stats.max cs) ds
    /\ Forall (fun d => d <= Clock_Stats.max cs) ds.
Proof.
  intros runs w Hruns ds Hds Hsum cs quotient.
  assert (Hlen : length ds = Z.to_nat runs) by apply clock_deltas_length.
  assert (Hne : ds <> []).
  { intros E. rewrite E in Hlen. simpl in Hlen. lia. }
  split; [lia|].
  subst cs. unfold calculate_clock_stats.
  match goal with
  | |- context [clock_loop clock_ns ?n ?s ?t ?v] =>
      pose proof (clock_loop_deltas n s t v) as H;
      destruct (clock_loop clock_ns n s t v) as [[sum st] w']
  end.
  destruct H as (Hs & Hmin & Hmax);
    [unfold Int64.in_range, Int64.min_signed, Int64.max_signed,
       Int64.half_modulus; lia|].
  simpl in Hs, Hmin, Hmax. fold ds in Hs, Hmin, Hmax. simpl.
  rewrite Hs, Hmin, Hmax. rewrite Int64Facts.wrap_id by exact Hsum.
  rewrite Int64Facts.div_exact by (exact Hsum || exact Hruns).
  fold quotient.
  split.
  { destruct (Z.eqb_spec quotient 0) as [->|]; reflexivity. }
  destruct (list_min_least ds LARGE Hne) as [H1 H2].
  { eapply Forall_impl; [|exact Hds]. cbv beta. intros. lia. }
  assert (Hneg : Int64.mul LARGE (-1) = - LARGE) by reflexivity.
  destruct (list_max_greatest ds (Int64.mul LARGE (-1)) Hne) as [H3 H4].
  { eapply Forall_impl; [|exact Hds]. cbv beta. intros a Ha. lia. }
  auto.
Qed.

End Calibration.

(** The stub clock of the specification: 1000 samples on a clock whose
    back-to-back reads are 50 ns apart. *)
Lemma calibration_average_min_max_witness :
  let cs := fst (calculate_clock_stats (ticking_clock 50) 1000 0%N) in
  Clock_Stats.average cs = 50
  /\ Clock_Stats.min cs = 50 /\ Clock_Stats.max cs = 50.
Proof.
  pose (ds := clock_deltas (ticking_clock 50) (Z.to_nat 1000) 0%N).
  assert (Hall : Forall (fun d => d = 50) ds).
  { apply Forall_forall. intros d Hd.
    assert (Hb : forallb (fun d => d =? 50) ds = true) by (vm_compute; reflexivity).
    rewrite forallb_forall in Hb. apply Z.eqb_eq, Hb, Hd. }
  destruct (calibration_average_min_max (ticking_clock 50) 1000 0%N)
    as (_ & Havg & Hmin & _ & Hmax & _).
  - lia.
  - eapply Forall_impl; [|exact Hall]. simpl. intros a ->.
    vm_compute. split; discriminate.
  - vm_compute. split; discriminate.
  - cbv zeta. rewrite Havg. split; [vm_compute; reflexivity|].
    fold ds in Hmin, Hmax. rewrite Forall_forall in Hall.
    split; [apply (Hall _ Hmin) | apply (Hall _ Hmax)].
Defined.

(** ** The reducer: what the mean depends on *)

(** C10.  The reported mean is the adjusted sum over [iters] milliseconds
    (0 when [iters] is 0), with no factor from the batch size
    correction: it is the same whatever the sum of squares, the minimum
    and the maximum of the statistics are. *)
Theorem mean_unaffected_by_corrections :
  forall (stats : Bench_Stats) (runs_mult squares lowest highest : Z),
    let stats' :=
      {| batch_count := batch_count stats;
         batch_size := batch_size stats;
         time_sum := time_sum stats;
         squared_time_sum := squares;
         min_batch_time := lowest;
         max_batch_time := highest;
         mean_time_estimate := mean_time_estimate stats |} in
    let iters :=
      Int64.mul (Int64.mul (batch_size stats) runs_mult) (batch_count stats) in
    let sum :=
      Int64.add (time_sum stats)
        (Int64.mul (mean_time_estimate stats) (batch_count stats)) in
    Bench_Result.mean_ms (process_stats stats runs_mult) =
      (if iters =? 0 then Double.zero
       else Double.div (Double.of_int64 sum)
              (Double.of_int64 (Int64.mul iters MILISECOND_NANOSECONDS)))
    /\ Bench_Result.mean_ms (process_stats stats' runs_mult)
       = Bench_Result.mean_ms (process_stats stats runs_mult).
Proof.
  intros stats runs_mult squares lowest highest stats' iters sum.
  assert (Hmean : forall st,
    Bench_Result.mean_ms (process_stats st runs_mult)
    = fst (fst (uncorrected st runs_mult))).
  { intros st. unfold process_stats.
    now destruct (uncorrected st runs_mult) as [[mean lo] hi]. }
  rewrite !Hmean. unfold uncorrected, total_iters, effective_batch_size.
  subst stats'. cbn [batch_count batch_size time_sum mean_time_estimate].
  fold iters. unfold adjusted_time_sum.
  cbn [batch_count batch_size time_sum mean_time_estimate]. fold sum.
  destruct (iters =? 0); split; reflexivity.
Qed.

(** ** Runs of the sampler under the clock's contract *)

Section Runs.

Context {W : Type}.
Variable clock_ns : W -> Z * W.
Variable measured_fn : W -> bool * W.

Variables start max_time_ns batch_time_ns min_batch_size min_end_checks : Z.

Local Abbreviation step :=
  (gather_step clock_ns measured_fn start max_time_ns batch_time_ns
     min_batch_size min_end_checks).
Local Abbreviation loop :=
  (gather_loop clock_ns measured_fn start max_time_ns batch_time_ns
     min_batch_size min_end_checks).
Local Abbreviation iter :=
  (gather_iter clock_ns measured_fn start max_time_ns batch_time_ns
     min_batch_size min_end_checks).
Local Abbreviation time := (reading clock_ns).

Lemma accumulate_batch_size st bt :
  batch_size (accumulate st bt) = batch_size st.
Proof. reflexivity. Qed.

Lemma resize_batch_size st total :
  min_batch_size <=
  batch_size (resize st total max_time_ns batch_time_ns min_batch_size
                min_end_checks).
Proof. unfold resize. simpl. rewrite at_least. lia. Qed.

(** One iteration seen from outside: the batch, the read, the verdict. *)
Lemma step_cases s w :
  let n := Z.to_nat (batch_size (stats s)) in
  let w1 := snd (run_batch measured_fn n 0 w) in
  let now := time w1 in
  let w2 := snd (clock_ns w1) in
  let total := Int64.sub now start in
  exists stats1,
    (stats1 = stats s \/ stats1 = accumulate (stats s) (Int64.sub now (from s)))
    /\ ((total <= to_time s
         /\ step s w = Continue {| stats := stats1; to_time := to_time s;
                                   from := now |} w2)
        \/ (to_time s < total <= max_time_ns
            /\ step s w =
                 Continue {| stats := resize stats1 total max_time_ns
                                        batch_time_ns min_batch_size
                                        min_end_checks;
                             to_time := max_time_ns; from := now |} w2)
        \/ (to_time s < total /\ max_time_ns < total
            /\ step s w = Break stats1 w2)).
Proof.
  intros n w1 now w2 total. subst n w1 now w2 total.
  unfold gather_step, measure_batch, reading.
  destruct (run_batch measured_fn _ 0 w) as [reject w1]. simpl.
  destruct (clock_ns w1) as [now w2]. simpl.
  set (total := Int64.sub now start).
  exists (if reject =? 0
          then accumulate (stats s) (Int64.sub now (from s)) else stats s).
  split.
  { destruct (reject =? 0); [right|left]; reflexivity. }
  unfold check_deadline. fold total.
  destruct (Z.gtb_spec total (to_time s)).
  - destruct (Z.gtb_spec total max_time_ns).
    + right. right. auto.
    + right. left. split; [lia|reflexivity].
  - left. split; [lia|reflexivity].
Qed.

Hypothesis clock : monotonic_clock clock_ns measured_fn.

Lemma run_batch_mono n : forall reject w,
  time w <= time (snd (run_batch measured_fn n reject w)).
Proof.
  induction n as [|n IH]; intros reject w; simpl; [lia|].
  pose proof (call_mono _ _ clock w) as Hc.
  destruct (measured_fn w) as [keep w']. simpl in Hc.
  specialize (IH (Z.lor reject (if keep then 0 else 1)) w'). lia.
Qed.

Lemma elapsed_exact a b :
  0 <= a <= b -> b <= Int64.max_signed -> Int64.sub b a = b - a.
Proof.
  intros. apply Int64Facts.sub_exact.
  unfold Int64.in_range, Int64.min_signed, Int64.max_signed,
    Int64.half_modulus in *. lia.
Qed.

Hypothesis start_nonneg : 0 <= start.
Hypothesis min_batch_size_pos : 1 <= min_batch_size.

Lemma run_invariant_step s w s' w' :
  run_invariant clock_ns start max_time_ns s w -> step s w = Continue s' w' -> run_invariant clock_ns start max_time_ns s' w'.
Proof.
  intros [[w0 [Hw Hfrom]] Hst Hin Hdl Hbs] Hstep.
  destruct (step_cases s w) as (stats1 & Hstats & Hcases).
  cbv zeta in Hcases.
  set (w1 := snd (run_batch measured_fn (Z.to_nat (batch_size (stats s))) 0 w)) in *.
  assert (Hnow : from s <= time w1).
  { pose proof (read_mono _ _ clock w0).
    pose proof (run_batch_mono (Z.to_nat (batch_size (stats s))) 0 w).
    fold w1 in H0. rewrite Hw in H0. lia. }
  pose proof (reading_range _ _ clock w1) as Hr.
  rewrite (elapsed_exact start (time w1)) in Hcases by lia.
  assert (Hbs1 : 1 <= batch_size stats1).
  { destruct Hstats as [->| ->]; [|rewrite accumulate_batch_size]; exact Hbs. }
  destruct Hcases as [[Hle E]|[[Hrs E]|(_ & _ & E)]];
    rewrite E in Hstep; inversion Hstep; subst s' w'; clear Hstep.
  - constructor; cbn [stats from to_time]; try lia.
    exists w1. split; reflexivity.
  - constructor; cbn [stats from to_time]; try lia.
    + exists w1. split; reflexivity.
    + pose proof (resize_batch_size stats1 (time w1 - start)). lia.
Qed.

(** Up to the deadline the clock gains at least 1 ns over each batch:
    the loop leaves within [max_time_ns + 1] iterations. *)
Hypothesis advancing :
  advancing_clock clock_ns measured_fn (start + max_time_ns).

Lemma step_advances s w s' w' :
  run_invariant clock_ns start max_time_ns s w -> step s w = Continue s' w' -> from s + 1 <= from s'.
Proof.
  intros [[w0 [Hw Hfrom]] Hst Hin Hdl Hbs] Hstep.
  destruct (step_cases s w) as (stats1 & Hstats & Hcases).
  cbv zeta in Hcases.
  pose proof (advancing w0 (Z.to_nat (batch_size (stats s)))
                ltac:(lia) ltac:(lia)) as Hadv.
  unfold after_batch in Hadv. rewrite <- Hw in Hadv.
  destruct Hcases as [[Hle E]|[[Hrs E]|(_ & _ & E)]];
    rewrite E in Hstep; inversion Hstep; subst s' w'; simpl; lia.
Qed.

Lemma loop_terminates : forall (fuel : nat) s w,
  run_invariant clock_ns start max_time_ns s w ->
  (Z.to_nat (max_time_ns - (from s - start)) < fuel)%nat ->
  exists result w', loop fuel s w = Some (result, w').
Proof.
  induction fuel as [|fuel IH]; intros s w Hinv Hfuel; [lia|].
  simpl. destruct (step s w) as [s' w'|result w'] eqn:Hstep.
  - pose proof (run_invariant_step _ _ _ _ Hinv Hstep) as Hinv'.
    pose proof (step_advances _ _ _ _ Hinv Hstep) as Hadv.
    apply IH; [exact Hinv'|].
    destruct Hinv, Hinv'. lia.
  - eauto.
Qed.

End Runs.

(** ** The log of a run: whole batches, each followed by one clock read *)

Section Logged.

Context {W : Type}.
Variable clock_ns : W -> Z * W.
Variable measured_fn : W -> bool * W.
Variables start max_time_ns batch_time_ns min_batch_size min_end_checks : Z.

Lemma batch_results_logged n : forall w log,
  batch_results (logged_fn measured_fn) n (w, log) =
    (fst (batch_results measured_fn n w),
     (snd (batch_results measured_fn n w),
      rev (map Call (fst (batch_results measured_fn n w))) ++ log)).
Proof.
  induction n as [|n IH]; intros w log; simpl; [reflexivity|].
  unfold logged_fn at 1. simpl.
  destruct (measured_fn w) as [keep w']. rewrite IH.
  destruct (batch_results measured_fn n w') as [rest w'']. simpl.
  now rewrite <- app_assoc.
Qed.

Lemma step_logged s w log :
  gather_step (logged_clock clock_ns) (logged_fn measured_fn) start
    max_time_ns batch_time_ns min_batch_size min_end_checks s (w, log)
  = with_log
      (gather_step clock_ns measured_fn start max_time_ns batch_time_ns
         min_batch_size min_end_checks s w)
      (let r := batch_results measured_fn
                  (Z.to_nat (batch_size (stats s))) w in
       rev (batch_events (fst r, fst (clock_ns (snd r)))) ++ log).
Proof.
  unfold gather_step. rewrite !measure_batch_results. cbv zeta.
  rewrite batch_results_logged. cbn [fst snd].
  destruct (batch_results measured_fn _ w) as [answers w1]. cbn [fst snd].
  unfold logged_clock. cbn [fst snd].
  destruct (clock_ns w1) as [now w2]. cbn [fst snd].
  unfold batch_events. cbn [fst snd]. rewrite rev_app_distr. simpl.
  unfold check_deadline.
  destruct (Int64.sub now start >? to_time s); [|reflexivity].
  destruct (Int64.sub now start >? max_time_ns); reflexivity.
Qed.

Lemma loop_logged fuel : forall s w log,
  gather_loop (logged_clock clock_ns) (logged_fn measured_fn) start
    max_time_ns batch_time_ns min_batch_size min_end_checks fuel s (w, log)
  = match gather_loop clock_ns measured_fn start max_time_ns batch_time_ns
            min_batch_size min_end_checks fuel s w with
    | Some (result, w') =>
        Some (result,
              (w', rev (flat_map batch_events
                          (executed_batches clock_ns measured_fn start
                             max_time_ns batch_time_ns min_batch_size
                             min_end_checks fuel s w)) ++ log))
    | None => None
    end.
Proof.
  induction fuel as [|fuel IH]; intros s w log; [reflexivity|].
  cbn [gather_loop executed_batches]. rewrite step_logged.
  destruct (gather_step clock_ns measured_fn _ _ _ _ _ s w) as [s' w'|r w'];
    cbn [with_log flat_map].
  - rewrite IH. destruct (gather_loop clock_ns measured_fn _ _ _ _ _ fuel s' w')
      as [[result w'']|]; [|reflexivity].
    now rewrite rev_app_distr, <- app_assoc.
  - now rewrite app_nil_r.
Qed.

Lemma executed_batch_sizes k : forall s w,
  map (fun b => length (fst b))
    (executed_batches clock_ns measured_fn start max_time_ns batch_time_ns
       min_batch_size min_end_checks k s w)
  = map Z.to_nat
      (batch_sizes clock_ns measured_fn start max_time_ns batch_time_ns
         min_batch_size min_end_checks k s w).
Proof.
  induction k as [|k IH]; intros s w; [reflexivity|].
  cbn [executed_batches batch_sizes map fst].
  rewrite batch_results_length. f_equal.
  destruct (gather_step clock_ns measured_fn _ _ _ _ _ s w); [apply IH|reflexivity].
Qed.

End Logged.

(** ** The concrete worlds keep the clock's contract *)

Lemma steady_batch keep cost n : forall reject w,
  snd (run_batch (steady_fn keep cost) n reject w)
  = (w + N.of_nat n * cost)%N.
Proof.
  induction n as [|n IH]; intros reject w.
  - simpl. lia.
  - cbn [run_batch steady_fn]. rewrite IH. lia.
Qed.

Lemma ticking_clock_monotonic read_cost keep call_cost :
  monotonic_clock (ticking_clock read_cost) (steady_fn keep call_cost).
Proof.
  constructor; intros w; unfold reading, ticking_clock, steady_fn; simpl.
  - unfold Int64.max_signed, Int64.half_modulus, LARGE. lia.
  - lia.
  - lia.
Qed.

Lemma ticking_clock_advancing read_cost keep call_cost horizon :
  (0 < call_cost)%N -> horizon < LARGE ->
  advancing_clock (ticking_clock read_cost) (steady_fn keep call_cost) horizon.
Proof.
  intros Hcost Hh w n Hn Hw. unfold after_batch. rewrite steady_batch.
  unfold reading, ticking_clock in *. simpl in *.
  assert (1 <= N.of_nat n * call_cost)%N by nia. lia.
Qed.

(** ** Termination, and the shape of what was run *)

Section Start.

Context {W : Type}.
Variable clock_ns : W -> Z * W.
Variable measured_fn : W -> bool * W.

Lemma initial_invariant max_time_ns warm_up_ns min_batch_size w :
  1 <= min_batch_size -> 0 <= max_time_ns ->
  run_invariant clock_ns (reading clock_ns w) max_time_ns
    {| stats := initial_stats min_batch_size;
       to_time := first_deadline max_time_ns warm_up_ns;
       from := reading clock_ns w |}
    (snd (clock_ns w)).
Proof.
  intros Hb Hm. constructor; cbn [stats from to_time]; try lia.
  - exists w. split; reflexivity.
  - unfold first_deadline.
    destruct (Z.gtb_spec warm_up_ns max_time_ns); simpl; [lia|].
    destruct (Z.leb_spec warm_up_ns 0); lia.
  - exact Hb.
Qed.

Lemma gather_bench_stats_unfold fuel max_time_ns warm_up_ns batch_time_ns
    min_batch_size min_end_checks w :
  gather_bench_stats clock_ns measured_fn fuel max_time_ns warm_up_ns
    batch_time_ns min_batch_size min_end_checks w
  = gather_loop clock_ns measured_fn (reading clock_ns w) max_time_ns
      (clamp_batch_time batch_time_ns) min_batch_size min_end_checks fuel
      {| stats := initial_stats min_batch_size;
         to_time := first_deadline max_time_ns warm_up_ns;
         from := reading clock_ns w |}
      (snd (clock_ns w)).
Proof.
  unfold gather_bench_stats, gather_init, reading.
  now destruct (clock_ns w).
Qed.

Lemma logged_reading w log :
  reading (logged_clock clock_ns) (w, log) = reading clock_ns w.
Proof. unfold reading, logged_clock. simpl. now destruct (clock_ns w). Qed.

Lemma logged_read w log :
  snd (logged_clock clock_ns (w, log))
  = (snd (clock_ns w), Read (reading clock_ns w) :: log).
Proof. unfold reading, logged_clock. simpl. now destruct (clock_ns w). Qed.

End Start.

Section Termination.

Context {W : Type}.
Variable clock_ns : W -> Z * W.
Variable measured_fn : W -> bool * W.

(** C8.  Whenever [gather_bench_stats] returns, the log of its run is the
    first clock read followed by whole batches: each is as many calls as
    the batch size then in force and one clock read after them.  The
    first batch has [min_batch_size] calls and comes before the first
    read that a deadline is checked against; the last event is the read
    after a batch.  This holds whatever a call costs, and for
    [max_time_ns = 0].  Under the clock's contract, with a clock that
    gains at least 1 ns over each batch up to the deadline, it does
    return. *)
Theorem complete_batches_then_deadline :
  forall max_time_ns warm_up_ns batch_time_ns min_batch_size min_end_checks
         (w : W),
    gather_preconditions max_time_ns min_batch_size min_end_checks ->
    let logged_run fuel :=
      gather_bench_stats (logged_clock clock_ns) (logged_fn measured_fn)
        fuel max_time_ns warm_up_ns batch_time_ns min_batch_size
        min_end_checks (w, []) in
    (forall fuel result w' log,
       logged_run fuel = Some (result, (w', log)) ->
       gather_bench_stats clock_ns measured_fn fuel max_time_ns warm_up_ns
         batch_time_ns min_batch_size min_end_checks w = Some (result, w')
       /\ exists blocks,
            rev log = Read (reading clock_ns w) :: flat_map batch_events blocks
            /\ (exists first rest,
                  blocks = first :: rest
                  /\ Z.of_nat (length (fst first)) = min_batch_size)
            /\ map (fun b => length (fst b)) blocks
               = map Z.to_nat
                   (batch_sizes clock_ns measured_fn (reading clock_ns w)
                      max_time_ns (clamp_batch_time batch_time_ns)
                      min_batch_size min_end_checks fuel
                      {| stats := initial_stats min_batch_size;
                         to_time := first_deadline max_time_ns warm_up_ns;
                         from := reading clock_ns w |}
                      (snd (clock_ns w))))
    /\ (monotonic_clock clock_ns measured_fn ->
        advancing_clock clock_ns measured_fn
          (reading clock_ns w + max_time_ns) ->
        exists fuel result w' log,
          logged_run fuel = Some (result, (w', log))).
Proof.
  intros max_time_ns warm_up_ns batch_time_ns min_batch_size min_end_checks w
         (Hchecks & Hsize & Hmax) logged_run.
  assert (Hlogged : forall fuel,
    logged_run fuel
    = match gather_bench_stats clock_ns measured_fn fuel max_time_ns
              warm_up_ns batch_time_ns min_batch_size min_end_checks w with
      | Some (result, w') =>
          Some (result,
                (w', rev (flat_map batch_events
                            (executed_batches clock_ns measured_fn
                               (reading clock_ns w) max_time_ns
                               (clamp_batch_time batch_time_ns)
                               min_batch_size min_end_checks fuel
                               {| stats := initial_stats min_batch_size;
                                  to_time :=
                                    first_deadline max_time_ns warm_up_ns;
                                  from := reading clock_ns w |}
                               (snd (clock_ns w))))
                     ++ [Read (reading clock_ns w)]))
      | None => None
      end).
  { intros fuel. subst logged_run. cbv beta.
    rewrite !gather_bench_stats_unfold, logged_reading, logged_read.
    apply loop_logged. }
  split.
  - intros fuel result w' log Hrun. rewrite Hlogged in Hrun.
    destruct (gather_bench_stats clock_ns measured_fn fuel _ _ _ _ _ w)
      as [[result0 w0]|] eqn:Hbase; [|discriminate].
    inversion Hrun; subst result0 w0 log; clear Hrun.
    split; [reflexivity|]. eexists.
    split; [rewrite rev_app_distr, rev_involutive; reflexivity|].
    split; [|apply executed_batch_sizes].
    rewrite gather_bench_stats_unfold in Hbase.
    destruct fuel as [|fuel]; [discriminate|].
    cbn [executed_batches]. eexists. eexists.
    split; [reflexivity|]. cbn [fst].
    rewrite batch_results_length. cbn [stats initial_stats batch_size]. lia.
  - intros Hclock Hadv.
    pose proof (reading_range _ _ Hclock w) as Hstart.
    pose proof (initial_invariant clock_ns max_time_ns warm_up_ns
                  min_batch_size w ltac:(lia) ltac:(lia)) as Hinv.
    destruct (loop_terminates clock_ns measured_fn (reading clock_ns w)
                max_time_ns (clamp_batch_time batch_time_ns) min_batch_size
                min_end_checks Hclock ltac:(lia) ltac:(lia) Hadv
                (S (Z.to_nat max_time_ns)) _ _ Hinv)
      as (result & w' & Hloop).
    { cbn [from]. lia. }
    exists (S (Z.to_nat max_time_ns)), result, w'. eexists.
    rewrite Hlogged, gather_bench_stats_unfold, Hloop. reflexivity.
Qed.

End Termination.

(** One call that alone outlasts the whole budget, here a budget of 0:
    the batch is run to its end before the clock is looked at. *)
Lemma complete_batches_then_deadline_witness :
  exists fuel result w' log,
    gather_bench_stats (logged_clock (ticking_clock 3))
      (logged_fn (steady_fn true 500)) fuel 0 0 0 1 5 (0%N, [])
    = Some (result, (w', log))
    /\ gather_bench_stats (ticking_clock 3) (steady_fn true 500) fuel 0 0 0
         1 5 0%N = Some (result, w')
    /\ exists first rest,
         rev log = Read 0 :: flat_map batch_events (first :: rest)
         /\ Z.of_nat (length (fst first)) = 1.
Proof.
  destruct (complete_batches_then_deadline (ticking_clock 3)
              (steady_fn true 500) 0 0 0 1 5 0%N) as [Hshape Hrun].
  - unfold gather_preconditions. lia.
  - destruct Hrun as (fuel & result & w' & log & Hrun).
    + apply ticking_clock_monotonic.
    + apply ticking_clock_advancing; [lia | reflexivity].
    + destruct (Hshape fuel result w' log Hrun)
        as (Hbase & blocks & Hlog & (first & rest & -> & Hfirst) & _).
      exists fuel, result, w', log. split; [exact Hrun|].
      split; [exact Hbase|]. exists first, rest. split; assumption.
Defined.

(** ** The invariant of the raw statistics *)

Lemma in_range_small z : - 2 ^ 62 <= z <= 2 ^ 62 -> Int64.in_range z.
Proof.
  unfold Int64.in_range, Int64.min_signed, Int64.max_signed,
    Int64.half_modulus. lia.
Qed.

Lemma accounted_mono k k' e e' st :
  k <= k' -> e <= e' -> accounted k e st -> accounted k' e' st.
Proof. intros Hk He []. constructor; lia. Qed.

Lemma accounted_accumulate k e e' st bt :
  accounted k e st -> 0 <= e <= e' -> 0 <= bt <= e' ->
  (k + 1) * (e' + 1) < 2 ^ 62 ->
  accounted (k + 1) e' (accumulate st bt)
  /\ time_sum (accumulate st bt)
     = time_sum st + (bt - mean_time_estimate st).
Proof.
  intros [Hc Hsz Hest Hml Hmh Hmx Hsl Hsh] He Hbt Hsmall.
  assert (Hk0 : 0 <= k) by lia.
  assert (Hk : (k + 1) * e' < 2 ^ 62 /\ k + 1 < 2 ^ 62) by nia.
  assert (He' : e' < 2 ^ 62) by nia.
  unfold accumulate.
  rewrite (Int64Facts.sub_exact bt) by (apply in_range_small; lia).
  set (delta := bt - mean_time_estimate st).
  assert (Hdelta : - e' <= delta <= e') by (subst delta; lia).
  assert (Hce : (batch_count st + 1) * e' <= (k + 1) * e')
    by (apply Z.mul_le_mono_nonneg_r; lia).
  assert (Hsum : - (batch_count st * e') <= time_sum st <= batch_count st * e').
  { destruct (Z.eq_dec (batch_count st) 0) as [E|N].
    - rewrite E in *. lia.
    - specialize (Hmh ltac:(lia)).
      assert (min_batch_time st * batch_count st
              >= - e' * batch_count st)
        by (apply Z.le_ge, Z.mul_le_mono_nonneg_r; lia).
      assert (max_batch_time st * batch_count st <= e' * batch_count st)
        by (apply Z.mul_le_mono_nonneg_r; lia).
      lia. }
  rewrite (Int64Facts.add_exact (batch_count st)) by (apply in_range_small; lia).
  rewrite (Int64Facts.add_exact (time_sum st)) by (apply in_range_small; lia).
  split; [|reflexivity].
  constructor; cbn [batch_count batch_size time_sum min_batch_time
                    max_batch_time mean_time_estimate]; try lia.
  - destruct (Z.gtb_spec (min_batch_time st) delta); lia.
  - intros _. destruct (Z.gtb_spec (min_batch_time st) delta); lia.
  - destruct (Z.ltb_spec (max_batch_time st) delta); lia.
  - destruct (Z.gtb_spec (min_batch_time st) delta); nia.
  - destruct (Z.ltb_spec (max_batch_time st) delta); nia.
Qed.


Section Invariant.

Context {W : Type}.
Variable clock_ns : W -> Z * W.
Variable measured_fn : W -> bool * W.
Variables start max_time_ns batch_time_ns min_batch_size min_end_checks : Z.

Local Abbreviation step :=
  (gather_step clock_ns measured_fn start max_time_ns batch_time_ns
     min_batch_size min_end_checks).
Local Abbreviation iter :=
  (gather_iter clock_ns measured_fn start max_time_ns batch_time_ns
     min_batch_size min_end_checks).
Local Abbreviation time := (reading clock_ns).

Hypothesis clock : monotonic_clock clock_ns measured_fn.
Hypothesis start_nonneg : 0 <= start.
Hypothesis min_batch_size_pos : 1 <= min_batch_size.

Lemma step_world_mono s w :
  at_boundary clock_ns s w ->
  from s <= time (snd (run_batch measured_fn
                         (Z.to_nat (batch_size (stats s))) 0 w))
  /\ time w <= time (boundary_world (step s w)).
Proof.
  intros [w0 [Hw Hfrom]].
  destruct (step_cases clock_ns measured_fn start max_time_ns batch_time_ns
              min_batch_size min_end_checks s w) as (stats1 & _ & Hcases).
  cbv zeta in Hcases.
  set (w1 := snd (run_batch measured_fn _ 0 w)) in *.
  pose proof (read_mono _ _ clock w0).
  pose proof (read_mono _ _ clock w1).
  pose proof (run_batch_mono clock_ns measured_fn clock
                (Z.to_nat (batch_size (stats s))) 0 w) as Hb.
  fold w1 in Hb. rewrite <- Hw in *. split; [lia|].
  destruct Hcases as [[_ E]|[[_ E]|(_ & _ & E)]]; rewrite E; simpl; lia.
Qed.

Lemma accounting_step k s w :
  accounting clock_ns start max_time_ns k s w ->
  small ((k + 1) * (time (boundary_world (step s w)) - start + 1)) ->
  match step s w with
  | Continue s' w' => accounting clock_ns start max_time_ns (k + 1) s' w'
  | Break result w' => accounted (k + 1) (time w' - start) result
  end.
Proof.
  intros [Hst Hb Hstart Hphase] Hsmall. unfold small in Hsmall.
  destruct (step_world_mono s w Hb) as [Hfrom Hmono].
  destruct (step_cases clock_ns measured_fn start max_time_ns batch_time_ns
              min_batch_size min_end_checks s w) as (stats1 & Hstats & Hcases).
  cbv zeta in Hcases.
  set (w1 := snd (run_batch measured_fn _ 0 w)) in *.
  set (w2 := snd (clock_ns w1)) in *.
  pose proof (reading_range _ _ clock w1) as Hr1.
  pose proof (read_mono _ _ clock w1) as Hr2. fold w2 in Hr2.
  destruct Hb as [w0 [Hw Hw0]].
  pose proof (read_mono _ _ clock w0) as Hr0. rewrite <- Hw in Hr0.
  rewrite (elapsed_exact start (time w1)) in Hcases by lia.
  rewrite (elapsed_exact (from s) (time w1)) in Hstats by lia.
  assert (Hw2 : time (boundary_world (step s w)) = time w2).
  { destruct Hcases as [[_ E]|[[_ E]|(_ & _ & E)]]; rewrite E; reflexivity. }
  rewrite Hw2 in Hsmall, Hmono.
  set (e := time w - start) in *. set (e' := time w2 - start) in *.
  assert (He : 0 <= e <= e') by (subst e e'; lia).
  assert (Hk : 0 <= k) by (destruct Hst; lia).
  assert (He62 : e' < 2 ^ 62) by nia.
  (* the statistics after the batch, kept or rejected *)
  assert (Hst1 : accounted (k + 1) e' stats1
                 /\ (mean_time_estimate (stats s) = 0 ->
                     0 <= time_sum (stats s) <= from s - start ->
                     mean_time_estimate stats1 = 0
                     /\ 0 <= time_sum stats1 <= time w1 - start)).
  { destruct Hstats as [->| ->].
    - split; [apply (accounted_mono k _ e); auto; lia|]. intros; lia.
    - destruct (accounted_accumulate k e e' (stats s) (time w1 - from s))
        as [Hacc Hsum]; auto; [subst e'; lia|].
      split; [exact Hacc|]. intros Hz Hs. rewrite Hsum, Hz.
      cbn [accumulate mean_time_estimate]. lia. }
  destruct Hst1 as [Hacc1 Hphase1].
  destruct Hcases as [[Hle E]|[[Hrs E]|(_ & _ & E)]]; rewrite E.
  - constructor; cbn [stats from to_time]; fold w2; fold e'; auto; try lia.
    exists w1. split; reflexivity.
  - destruct Hphase as [Hp|[Hz Hs]]; [lia|].
    destruct (Hphase1 Hz Hs) as [Hz1 Hs1].
    constructor; cbn [stats from to_time]; fold w2; fold e'; auto; try lia.
    + destruct Hacc1 as [Hc1 Hsz1 Hest1 Hml1 Hmh1 Hmx1 Hsl1 Hsh1].
      unfold resize.
      rewrite !at_least_one, !at_least.
      set (iters := Z.max 1 _).
      assert (Hiters : 1 <= iters) by (subst iters; lia).
      rewrite (Int64Facts.div_exact (time_sum stats1))
        by (try apply in_range_small; lia).
      pose proof (Z.quot_pos (time_sum stats1) iters ltac:(lia) ltac:(lia)).
      pose proof (Z.quot_le_upper_bound (time_sum stats1) iters
                    (time_sum stats1) ltac:(lia) ltac:(nia)).
      constructor; cbn [batch_count batch_size time_sum min_batch_time
                        max_batch_time mean_time_estimate];
        unfold LARGE; try lia.
    + exists w1. split; reflexivity.
  - cbn [boundary_world]. fold w2. fold e'. exact Hacc1.
Qed.

Lemma iter_succ k : forall s w,
  iter (S k) s w
  = match step s w with
    | Continue s' w' => iter k s' w'
    | Break result w' => Break result w'
    end.
Proof.
  induction k as [|k IH]; intros s w.
  - cbn [gather_iter]. now destruct (step s w).
  - change (iter (S (S k)) s w)
      with (match iter (S k) s w with
            | Continue s' w' => step s' w'
            | Break result w' => Break result w'
            end).
    rewrite IH. destruct (step s w) as [s' w'|result w']; reflexivity.
Qed.

Lemma loop_iter fuel : forall s w result w',
  gather_loop clock_ns measured_fn start max_time_ns batch_time_ns
    min_batch_size min_end_checks fuel s w = Some (result, w') ->
  iter fuel s w = Break result w'.
Proof.
  induction fuel as [|fuel IH]; intros s w result w' H; [discriminate|].
  rewrite iter_succ. cbn [gather_loop] in H.
  destruct (step s w) as [s1 w1|r1 w1]; [now apply IH|congruence].
Qed.

(** Along a run every boundary is one, and the clock never shows less
    than at the start. *)
Lemma iter_boundary s0 w0 :
  at_boundary clock_ns s0 w0 -> start <= time w0 ->
  forall k,
    start <= time (boundary_world (iter k s0 w0))
    /\ match iter k s0 w0 with
       | Continue s w => at_boundary clock_ns s w
       | Break _ _ => True
       end.
Proof.
  intros Hb Hs. induction k as [|k [IHw IHb]]; [simpl; auto|].
  cbn [gather_iter].
  destruct (iter k s0 w0) as [s w|result w]; [|simpl in *; auto].
  cbn [boundary_world] in IHw.
  destruct (step_world_mono s w IHb) as [_ Hmono].
  split; [lia|].
  destruct (step_cases clock_ns measured_fn start max_time_ns batch_time_ns
              min_batch_size min_end_checks s w) as (stats1 & _ & Hcases).
  cbv zeta in Hcases.
  destruct Hcases as [[_ E]|[[_ E]|(_ & _ & E)]]; rewrite E; auto;
    eexists; split; reflexivity.
Qed.

Lemma iter_accounting s0 w0 :
  accounting clock_ns start max_time_ns 0 s0 w0 -> start <= time w0 ->
  forall k,
    small (Z.of_nat k * (time (boundary_world (iter k s0 w0)) - start + 1)) ->
    match iter k s0 w0 with
    | Continue s w => accounting clock_ns start max_time_ns (Z.of_nat k) s w
    | Break result w => accounted (Z.of_nat k) (time w - start) result
    end.
Proof.
  intros H0 Hs. pose proof (iter_boundary s0 w0 (acc_boundary _ _ _ _ _ _ H0) Hs)
    as Hbd.
  induction k as [|k IH]; intros Hsmall; [exact H0|].
  destruct (Hbd k) as [Hw Hb]. destruct (Hbd (S k)) as [Hw' _].
  cbn [gather_iter] in *. unfold small in *.
  destruct (iter k s0 w0) as [s w|result w]; cbn [boundary_world] in *.
  - destruct (step_world_mono s w Hb) as [_ Hmono].
    replace (Z.of_nat (S k)) with (Z.of_nat k + 1) in * by lia.
    apply accounting_step; [apply IH; nia|exact Hsmall].
  - apply (accounted_mono (Z.of_nat k) _ (time w - start)); [lia|lia|].
    apply IH. nia.
Qed.


End Invariant.




(** *** Where the claim as worded fails *)



(** ** A noise floor of 0 *)

Section No_Coalescing.

Context {W : Type}.
Variable clock_ns : W -> Z * W.
Variable measured_fn : W -> bool * W.
Variables start max_time_ns : Z.

Local Abbreviation step :=
  (gather_step clock_ns measured_fn start max_time_ns 1 1 5).
Local Abbreviation iter :=
  (gather_iter clock_ns measured_fn start max_time_ns 1 1 5).
Local Abbreviation time := (reading clock_ns).

Hypothesis clock : monotonic_clock clock_ns measured_fn.
Hypothesis start_nonneg : 0 <= start.
Hypothesis budget : 0 <= max_time_ns <= 6000000000.
Hypothesis advancing :
  advancing_clock clock_ns measured_fn (start + max_time_ns).




End No_Coalescing.

Lemma process_stats_batch_size st runs_mult :
  Bench_Result.batch_size (process_stats st runs_mult)
  = Int64.mul (batch_size st) runs_mult.
Proof.
  unfold process_stats. now destruct (uncorrected st runs_mult) as [[? ?] ?].
Qed.

Lemma process_stats_iters st runs_mult :
  Bench_Result.iters (process_stats st runs_mult)
  = Int64.mul (Int64.mul (batch_size st) runs_mult) (batch_count st).
Proof.
  unfold process_stats. now destruct (uncorrected st runs_mult) as [[? ?] ?].
Qed.


(** What the build with assertions returns, the build without them
    returns as well. *)
Lemma benchmark_checked_returns {W : Type} (clock_ns : W -> Z * W)
    (measured_fn : W -> bool * W) fuel max_time_ms warm_up_ms runs_mult
    multiple w r w' :
  benchmark_checked clock_ns measured_fn fuel max_time_ms warm_up_ms
    runs_mult multiple w = Returns (r, w') ->
  benchmark clock_ns measured_fn fuel max_time_ms warm_up_ms runs_mult
    multiple w = Some (r, w').
Proof.
  unfold benchmark_checked, benchmark, process_stats_checked.
  destruct (benchmark_noise_floor clock_ns multiple w) as [noise w2].
  destruct (Int64.mul max_time_ms MILISECOND_NANOSECONDS >=? 0);
    [|discriminate].
  destruct (gather_bench_stats clock_ns measured_fn fuel _ _ noise 1 5 w2)
    as [[stats w3]|]; [|discriminate].
  destruct (process_stats_asserts stats runs_mult); [|discriminate].
  intros H. inversion H; subst. reflexivity.
Qed.

Lemma benchmark_checked_unfold {W : Type} (clock_ns : W -> Z * W)
    (measured_fn : W -> bool * W) fuel max_time_ms warm_up_ms runs_mult
    multiple w :
  benchmark_checked clock_ns measured_fn fuel max_time_ms warm_up_ms
    runs_mult multiple w
  = if Int64.mul max_time_ms MILISECOND_NANOSECONDS >=? 0 then
      match gather_bench_stats clock_ns measured_fn fuel
              (Int64.mul max_time_ms MILISECOND_NANOSECONDS)
              (Int64.mul warm_up_ms MILISECOND_NANOSECONDS)
              (fst (benchmark_noise_floor clock_ns multiple w)) 1 5
              (snd (benchmark_noise_floor clock_ns multiple w)) with
      | Some (stats, w3) =>
          if process_stats_asserts stats runs_mult
          then Returns (process_stats stats runs_mult, w3) else Aborts
      | None => Cut_off
      end
    else Aborts.
Proof.
  unfold benchmark_checked, process_stats_checked.
  destruct (benchmark_noise_floor clock_ns multiple w). cbn [fst snd].
  destruct (_ >=? 0); [|reflexivity].
  destruct (gather_bench_stats _ _ _ _ _ _ _ _ _) as [[stats w3]|];
    [|reflexivity].
  now destruct (process_stats_asserts stats runs_mult).
Qed.



(** *** Where the claim as worded fails *)




(** A budget of 15 s with the default warm-up, on a function of 0.1 s a
    call: at the resize [total_time * num_checks] leaves the 64-bit
    range, the wrapped product is negative and replaced by 1, and the
    loop goes on with batches of 113600000000 calls. *)
Lemma long_budget_overflow :
  let max_time_ns := Int64.mul 15000 MILISECOND_NANOSECONDS in
  let warm_up_ns :=
    Int64.mul (Int64.add (Int64.div 15000 20) 1) MILISECOND_NANOSECONDS in
  let clock := ticking_clock 0 in
  let fn := steady_fn true 100000000 in
  let '(noise, w2) := benchmark_noise_floor clock 0 0%N in
  let '(start, s0, w1) := gather_init clock max_time_ns warm_up_ns 1 w2 in
  batch_size
    (boundary_stats
       (gather_iter clock fn start max_time_ns (clamp_batch_time noise) 1 5 8
          s0 w1)) = 113600000000.
Proof. vm_compute. reflexivity. Qed.

(** ** IEEE arithmetic: what the reducer relies on *)

Module DoubleFacts.

Import Double.

Lemma digits2_size p : digits2_pos p = Pos.size p.
Proof. induction p as [p IH|p IH|]; simpl; now rewrite ?IH. Qed.

Lemma digits_bounds p :
  2 ^ Zpos (digits2_pos p) <= 2 * Zpos p
  /\ Zpos p < 2 ^ Zpos (digits2_pos p).
Proof.
  rewrite digits2_size.
  pose proof (Pos.size_le p) as Hle. pose proof (Pos.size_gt p) as Hgt.
  apply Pos2Z.pos_le_pos in Hle. apply Pos2Z.pos_lt_pos in Hgt.
  rewrite Pos2Z.inj_pow in Hle, Hgt.
  change (Zpos p~0) with (2 * Zpos p) in Hle. lia.
Qed.

Lemma digits_le p n : 0 <= n -> Zpos p < 2 ^ n -> Zpos (digits2_pos p) <= n.
Proof.
  intros Hn Hp. destruct (digits_bounds p) as [Hlow _].
  assert (H : 2 ^ Zpos (digits2_pos p) < 2 ^ (n + 1)).
  { rewrite Z.pow_add_r, Z.pow_1_r by lia. lia. }
  apply Z.pow_lt_mono_r_iff in H; lia.
Qed.

Lemma shr_1_half r : 0 <= shr_m r -> shr_m (shr_1 r) = shr_m r / 2.
Proof.
  destruct r as [m b s]. simpl. intros Hm.
  destruct m as [|[p|p|]|p]; simpl; try reflexivity; try lia.
  - rewrite Pos2Z.inj_xI. apply (Z.div_unique _ 2 _ 1); lia.
  - rewrite Pos2Z.inj_xO. apply (Z.div_unique _ 2 _ 0); lia.
Qed.

Lemma pow2_pos k : 0 <= k -> 0 < 2 ^ k.
Proof. intros. apply Z.pow_pos_nonneg; lia. Qed.

Lemma iter_shr_1 n : forall r,
  0 <= shr_m r -> shr_m (iter_pos shr_1 n r) = shr_m r / 2 ^ Zpos n.
Proof.
  assert (Hnn : forall r k, 0 <= shr_m r -> 0 <= shr_m r / 2 ^ Zpos k).
  { intros. apply Z.div_pos; [assumption|]. apply Z.pow_pos_nonneg; lia. }
  assert (H1 : forall r, 0 <= shr_m r -> 0 <= shr_m (shr_1 r)).
  { intros r Hr. rewrite shr_1_half by assumption. apply Z.div_pos; lia. }
  induction n as [n IH|n IH|]; intros r Hr; cbn [iter_pos].
  - rewrite IH, IH, shr_1_half by (rewrite ?IH; auto).
    pose proof (pow2_pos (Zpos n) ltac:(lia)).
    rewrite !Z.div_div by lia.
    f_equal. replace (Zpos n~1) with (1 + Zpos n + Zpos n) by lia.
    rewrite !Z.pow_add_r, Z.pow_1_r by lia. ring.
  - rewrite IH, IH by (rewrite ?IH; auto).
    pose proof (pow2_pos (Zpos n) ltac:(lia)).
    rewrite Z.div_div by lia.
    f_equal. replace (Zpos n~0) with (Zpos n + Zpos n) by lia.
    rewrite Z.pow_add_r by lia. ring.
  - rewrite shr_1_half by assumption. reflexivity.
Qed.

(** A right shift by [k] binary places (none when [k <= 0]). *)
Lemma shr_spec r e k :
  0 <= shr_m r ->
  shr_m (fst (shr r e k)) = shr_m r / 2 ^ Z.max 0 k
  /\ snd (shr r e k) = e + Z.max 0 k.
Proof.
  intros Hr. destruct k as [|k|k]; simpl.
  - rewrite Z.div_1_r. lia.
  - rewrite iter_shr_1 by assumption. split; [reflexivity|lia].
  - rewrite Z.div_1_r. lia.
Qed.

Lemma shr_record_of_loc_m m l : shr_m (shr_record_of_loc m l) = m.
Proof. now destruct l as [|[| |]]. Qed.

Lemma round_nearest_even_bounds m l :
  m <= round_nearest_even m l <= m + 1.
Proof.
  unfold round_nearest_even.
  destruct l as [|[| |]]; try lia. destruct (Z.even m); lia.
Qed.

Lemma fexp_double e : fexp prec emax e = Z.max (e - 53) (- 1074).
Proof. reflexivity. Qed.

(** Dividing by less than the number has digits leaves something. *)
Lemma shifted_positive p k :
  0 <= k < Zpos (digits2_pos p) ->
  1 <= Zpos p / 2 ^ k
  /\ Zpos p < (Zpos p / 2 ^ k + 1) * 2 ^ k.
Proof.
  intros Hk. destruct (digits_bounds p) as [Hlow _].
  assert (Hpow : 0 < 2 ^ k) by (apply Z.pow_pos_nonneg; lia).
  assert (H2 : 2 ^ (k + 1) <= 2 ^ Zpos (digits2_pos p))
    by (apply Z.pow_le_mono_r; lia).
  rewrite Z.pow_add_r, Z.pow_1_r in H2 by lia.
  split.
  - apply Z.div_le_lower_bound; lia.
  - pose proof (Z.mul_succ_div_gt (Zpos p) (2 ^ k) Hpow). lia.
Qed.

Lemma div_pow2_le a k : 0 <= a -> 0 <= k -> a / 2 ^ k <= a.
Proof.
  intros Ha Hk. pose proof (pow2_pos k Hk).
  apply Z.div_le_upper_bound; [assumption|]. nia.
Qed.

(** Two truncations with one rounding up in between lose less than
    half of the number. *)
Lemma truncation_chain p m1 x y a b :
  0 < a -> 0 < b -> 1 <= y ->
  p < (m1 + 1) * a -> m1 <= x -> x < (y + 1) * b ->
  p < 2 * y * (a * b).
Proof.
  intros Ha Hb Hy H1 H2 H3.
  assert ((m1 + 1) * a <= (x + 1) * a)
    by (apply Z.mul_le_mono_nonneg_r; lia).
  assert ((x + 1) * a <= (y + 1) * b * a)
    by (apply Z.mul_le_mono_nonneg_r; lia).
  assert ((y + 1) * (b * a) <= 2 * y * (b * a))
    by (apply Z.mul_le_mono_nonneg_r; nia).
  lia.
Qed.

(** Rounding a positive number of less than [n] bits gives a finite,
    non-zero number of the same sign, not much smaller. *)
Lemma binary_round_aux_finite sx mx ex lx n :
  53 <= n -> 0 < mx < 2 ^ n -> - 1074 <= ex -> ex + 2 * n <= 1076 ->
  exists m e,
    binary_round_aux prec emax sx mx ex lx = S754_finite sx m e
    /\ ex <= e <= ex + (2 * n - 105)
    /\ Zpos m <= mx + 1
    /\ mx < 2 * Zpos m * 2 ^ (e - ex).
Proof.
  intros Hn Hmx Hex Hhigh. destruct mx as [|p|p]; try lia.
  unfold binary_round_aux, shr_fexp. cbn [Zdigits2]. rewrite fexp_double.
  set (d := Zpos (digits2_pos p)).
  assert (Hd : 1 <= d <= n) by (split; [subst d; lia|apply digits_le; lia]).
  set (k1 := Z.max (d + ex - 53) (- 1074) - ex).
  destruct (shr_spec (shr_record_of_loc (Zpos p) lx) ex k1) as [Hm1 He1];
    [rewrite shr_record_of_loc_m; lia|].
  rewrite shr_record_of_loc_m in Hm1.
  destruct (shr (shr_record_of_loc (Zpos p) lx) ex k1) as [mrs1 e1].
  cbn [fst snd] in Hm1, He1.
  set (K1 := Z.max 0 k1) in *.
  assert (HK1 : 0 <= K1 <= n - 53 /\ K1 < d) by (subst K1 k1; lia).
  destruct (shifted_positive p K1 ltac:(fold d; lia)) as [Hm1pos Hm1up].
  rewrite <- Hm1 in Hm1pos, Hm1up.
  pose proof (round_nearest_even_bounds (shr_m mrs1) (loc_of_shr_record mrs1))
    as Hm2.
  destruct (round_nearest_even (shr_m mrs1) (loc_of_shr_record mrs1))
    as [|p2|p2]; try lia.
  assert (Hm1le : shr_m mrs1 <= Zpos p)
    by (rewrite Hm1; apply div_pow2_le; lia).
  cbn [Zdigits2]. rewrite fexp_double.
  set (d2 := Zpos (digits2_pos p2)).
  assert (Hd2 : 1 <= d2 <= n + 1).
  { split; [subst d2; lia|]. apply digits_le; [lia|].
    rewrite Z.pow_add_r, Z.pow_1_r by lia. lia. }
  set (k2 := Z.max (d2 + e1 - 53) (- 1074) - e1).
  destruct (shr_spec (shr_record_of_loc (Zpos p2) loc_Exact) e1 k2)
    as [Hm3 He2]; [simpl; lia|].
  rewrite shr_record_of_loc_m in Hm3.
  destruct (shr (shr_record_of_loc (Zpos p2) loc_Exact) e1 k2) as [mrs2 e2].
  cbn [fst snd] in Hm3, He2.
  set (K2 := Z.max 0 k2) in *.
  assert (HK2 : 0 <= K2 <= n - 52 /\ K2 < d2) by (subst K2 k2; lia).
  destruct (shifted_positive p2 K2 ltac:(fold d2; lia)) as [Hm3pos Hm3up].
  rewrite <- Hm3 in Hm3pos, Hm3up.
  assert (Hm3le : shr_m mrs2 <= Zpos p2)
    by (rewrite Hm3; apply div_pow2_le; lia).
  destruct (shr_m mrs2) as [|m|m]; try lia.
  replace (e2 <=? emax - prec) with true
    by (symmetry; apply Z.leb_le; unfold emax, prec; lia).
  exists m, e2. split; [reflexivity|].
  split; [lia|]. split; [lia|].
  replace (e2 - ex) with (K1 + K2) by lia.
  rewrite Z.pow_add_r by lia.
  apply (truncation_chain _ (shr_m mrs1) (Zpos p2));
    try (apply pow2_pos); lia.
Qed.

(** Whatever the magnitude, rounding a non-negative number never gives a
    NaN nor changes the sign. *)
Lemma binary_round_aux_class sx mx ex lx :
  0 <= mx ->
  match binary_round_aux prec emax sx mx ex lx with
  | S754_zero s | S754_infinity s | S754_finite s _ _ => s = sx
  | S754_nan => False
  end.
Proof.
  intros Hmx. unfold binary_round_aux, shr_fexp.
  match goal with
  | |- context [shr (shr_record_of_loc mx lx) ex ?k] =>
      destruct (shr_spec (shr_record_of_loc mx lx) ex k) as [Hm1 _];
        [rewrite shr_record_of_loc_m; lia|];
      destruct (shr (shr_record_of_loc mx lx) ex k) as [mrs1 e1]
  end.
  rewrite shr_record_of_loc_m in Hm1. cbn [fst] in Hm1.
  assert (H1 : 0 <= shr_m mrs1)
    by (rewrite Hm1; apply Z.div_pos; [lia|apply pow2_pos; lia]).
  pose proof (round_nearest_even_bounds (shr_m mrs1) (loc_of_shr_record mrs1))
    as Hm2.
  set (m2 := round_nearest_even _ _) in *.
  match goal with
  | |- context [shr (shr_record_of_loc m2 loc_Exact) e1 ?k] =>
      destruct (shr_spec (shr_record_of_loc m2 loc_Exact) e1 k) as [Hm3 _];
        [rewrite shr_record_of_loc_m; lia|];
      destruct (shr (shr_record_of_loc m2 loc_Exact) e1 k) as [mrs2 e2]
  end.
  rewrite shr_record_of_loc_m in Hm3. cbn [fst] in Hm3.
  assert (H3 : 0 <= shr_m mrs2)
    by (rewrite Hm3; apply Z.div_pos; [lia|apply pow2_pos; lia]).
  destruct (shr_m mrs2); try lia; [reflexivity|].
  destruct (_ <=? _); reflexivity.
Qed.

Lemma iter_xO p d : Zpos (Pos.iter xO p d) = Zpos p * 2 ^ Zpos d.
Proof.
  induction d as [|d IH] using Pos.peano_ind.
  - simpl. lia.
  - rewrite Pos.iter_succ, Pos2Z.inj_xO, IH, Pos2Z.inj_succ, Z.pow_succ_r by lia.
    ring.
Qed.

(** Aligning to a smaller exponent keeps the value. *)
Lemma shl_align_spec mx ex ex' :
  snd (shl_align mx ex ex') = Z.min ex ex'
  /\ Zpos (fst (shl_align mx ex ex'))
     = Zpos mx * 2 ^ (ex - Z.min ex ex').
Proof.
  unfold shl_align. destruct (ex' - ex) as [|d|d] eqn:Hd; cbn [fst snd].
  - rewrite Z.min_l by lia. rewrite Z.sub_diag. simpl. lia.
  - rewrite Z.min_l by lia. rewrite Z.sub_diag. simpl. lia.
  - rewrite Z.min_r by lia. rewrite iter_xO.
    split; [reflexivity|]. do 2 f_equal. lia.
Qed.

Lemma binary_round_finite sx p ex n :
  53 <= n -> Zpos p < 2 ^ n -> - 1074 <= ex -> ex + 2 * n <= 1076 ->
  exists m e ez,
    binary_round prec emax sx p ex = S754_finite sx m e
    /\ ez = Z.min ex (Z.max (Zpos (digits2_pos p) + ex - 53) (- 1074))
    /\ ez <= e <= ex + (2 * n - 105)
    /\ Zpos m <= Zpos p * 2 ^ (ex - ez) + 1
    /\ Zpos p * 2 ^ (ex - ez) < 2 * Zpos m * 2 ^ (e - ez).
Proof.
  intros Hn Hp Hex Hhigh. unfold binary_round. rewrite fexp_double.
  set (d := Zpos (digits2_pos p)).
  assert (Hd : 1 <= d <= n) by (split; [subst d; lia|apply digits_le; lia]).
  set (ex' := Z.max (d + ex - 53) (- 1074)).
  destruct (shl_align_spec p ex ex') as [Hez Hmz].
  destruct (shl_align p ex ex') as [mz ez]. cbn [fst snd] in Hez, Hmz.
  assert (Hsmall : Zpos mz < 2 ^ n).
  { rewrite Hmz. destruct (Z.le_gt_cases ex ex').
    - rewrite Z.min_l, Z.sub_diag by lia. simpl. lia.
    - rewrite Z.min_r by lia.
      destruct (digits_bounds p) as [_ Hup]. fold d in Hup.
      assert (Hs : 0 <= ex - ex' <= 53 - d) by (subst ex'; lia).
      assert (2 ^ d * 2 ^ (ex - ex') <= 2 ^ n).
      { rewrite <- Z.pow_add_r by lia. apply Z.pow_le_mono_r; lia. }
      pose proof (pow2_pos (ex - ex') ltac:(lia)). nia. }
  destruct (binary_round_aux_finite sx (Zpos mz) ez loc_Exact n)
    as (m & e & Hr & He & Hm & Hv); try lia.
  rewrite <- Hez in Hmz.
  exists m, e, ez. rewrite <- Hmz.
  repeat split; try lia. exact Hr.
Qed.

(** [(double) z] of a non-zero [z] of at most 64 bits: finite, of the
    sign of [z], at least half of [|z|]. *)
Lemma of_int64_finite z :
  z <> 0 -> - 2 ^ 64 < z < 2 ^ 64 ->
  exists m e,
    of_int64 z = S754_finite (z <? 0) m e
    /\ - 52 <= e <= 23
    /\ Zpos m < 2 ^ 117
    /\ Z.abs z * 2 ^ 52 < 2 * Zpos m * 2 ^ (e + 52).
Proof.
  intros Hz Hrange. unfold of_int64, binary_normalize.
  assert (Hgen : forall sx p, Zpos p < 2 ^ 64 ->
    exists m e,
      binary_round prec emax sx p 0 = S754_finite sx m e
      /\ - 52 <= e <= 23 /\ Zpos m < 2 ^ 117
      /\ Zpos p * 2 ^ 52 < 2 * Zpos m * 2 ^ (e + 52)).
  { intros sx p Hp.
    destruct (binary_round_finite sx p 0 64) as (m & e & ez & Hr & Hez & He & Hm & Hv);
      try lia.
    exists m, e. split; [exact Hr|].
    assert (Hezr : - 52 <= ez <= 0) by lia.
    split; [lia|].
    assert (Hp2 : 2 ^ (0 - ez) <= 2 ^ 52) by (apply Z.pow_le_mono_r; lia).
    pose proof (pow2_pos (0 - ez) ltac:(lia)).
    split; [nia|].
    replace (2 ^ 52) with (2 ^ (0 - ez) * 2 ^ (52 + ez))
      by (rewrite <- Z.pow_add_r by lia; f_equal; lia).
    replace (2 ^ (e + 52)) with (2 ^ (e - ez) * 2 ^ (52 + ez))
      by (rewrite <- Z.pow_add_r by lia; f_equal; lia).
    pose proof (pow2_pos (52 + ez) ltac:(lia)). nia. }
  destruct z as [|p|p]; [congruence| |].
  - apply Hgen. lia.
  - destruct (Hgen true p ltac:(lia)) as (m & e & H). exists m, e. exact H.
Qed.

Lemma sqrt_finite m e :
  Zpos m < 2 ^ 117 -> - 52 <= e <= 23 ->
  exists m' e', sqrt (S754_finite false m e) = S754_finite false m' e'.
Proof.
  intros Hm He. unfold sqrt, SFsqrt, SFsqrt_core_binary.
  cbn [Zdigits2]. rewrite fexp_double, !Z.div2_div.
  set (d := Zpos (digits2_pos m)).
  assert (Hd : 1 <= d <= 117) by (split; [subst d; lia|apply digits_le; lia]).
  set (e' := Z.min (Z.max ((d + e + 1) / 2 - 53) (- 1074)) (e / 2)).
  assert (He' : - 78 <= e' <= 11 /\ 0 <= e - 2 * e' <= 179).
  { pose proof (Z.div_mod e 2 ltac:(lia)).
    pose proof (Z.mod_pos_bound e 2 ltac:(lia)).
    pose proof (Z.div_mod (d + e + 1) 2 ltac:(lia)).
    pose proof (Z.mod_pos_bound (d + e + 1) 2 ltac:(lia)).
    subst e'. lia. }
  set (s := e - 2 * e') in *.
  set (m' := match s with
             | 0 => Zpos m
             | Zpos _ => Z.shiftl (Zpos m) s
             | Zneg _ => 0
             end).
  assert (Hm' : m' = Zpos m * 2 ^ s).
  { subst m'. destruct s as [|ps|ps] eqn:Hs; [simpl; lia| |lia].
    apply Z.shiftl_mul_pow2. lia. }
  assert (Hm'r : 0 < m' < 2 ^ 296).
  { rewrite Hm'. pose proof (pow2_pos s ltac:(lia)).
    assert (2 ^ 117 * 2 ^ s <= 2 ^ 296).
    { rewrite <- Z.pow_add_r by lia. apply Z.pow_le_mono_r; lia. }
    nia. }
  pose proof (Z.sqrtrem_sqrt m') as Hq.
  destruct (Z.sqrtrem m') as [q r]. cbn [fst] in Hq. subst q.
  assert (Hqr : 0 < Z.sqrt m' < 2 ^ 296).
  { split; [apply Z.sqrt_pos; lia|].
    pose proof (Z.sqrt_le_lin m' ltac:(lia)). lia. }
  destruct (binary_round_aux_finite false (Z.sqrt m') e'
              (if r =? 0 then loc_Exact
               else loc_Inexact (if r <=? Z.sqrt m' then Lt else Gt)) 296)
    as (m2 & e2 & Hr & _); try lia.
  exists m2, e2. exact Hr.
Qed.

(** A number above 1 minus 1 is finite and positive. *)
Lemma sub_one_finite m e :
  Zpos m < 2 ^ 117 -> - 52 <= e <= 23 ->
  2 ^ 52 < Zpos m * 2 ^ (e + 52) ->
  exists m' e', sub (S754_finite false m e) one = S754_finite false m' e'.
Proof.
  intros Hm He Habove. unfold sub, one, SFsub.
  rewrite (Z.min_r e (- 52)) by lia. cbn [cond_Zopp].
  destruct (shl_align_spec m e (- 52)) as [_ Ha].
  destruct (shl_align_spec 4503599627370496 (- 52) (- 52)) as [_ Hb].
  rewrite Z.min_r in Ha by lia. rewrite Z.min_l in Hb by lia.
  rewrite Ha, Hb. replace (e - - 52) with (e + 52) by lia.
  change (-52 - -52) with 0. change (Z.pos 4503599627370496 * 2 ^ 0) with (2 ^ 52).
  assert (Hup : Zpos m * 2 ^ (e + 52) < 2 ^ 192).
  { pose proof (pow2_pos (e + 52) ltac:(lia)).
    assert (2 ^ 117 * 2 ^ (e + 52) <= 2 ^ 192).
    { rewrite <- Z.pow_add_r by lia. apply Z.pow_le_mono_r; lia. }
    nia. }
  destruct (Zpos m * 2 ^ (e + 52) - 2 ^ 52) as [|q|q] eqn:Hq; try lia.
  cbn [binary_normalize].
  destruct (binary_round_finite false q (- 52) 192)
    as (m' & e' & _ & Hr & _); try lia.
  exists m', e'. exact Hr.
Qed.

(** *** Classes of results *)

Lemma class_not_nan sx x :
  match x with
  | S754_zero s | S754_infinity s | S754_finite s _ _ => s = sx
  | S754_nan => False
  end -> not_nan x.
Proof. now destruct x. Qed.

Lemma class_nonneg x :
  match x with
  | S754_zero s | S754_infinity s | S754_finite s _ _ => s = false
  | S754_nan => False
  end -> nonneg x.
Proof. now destruct x. Qed.

Lemma binary_round_class sx p ex :
  match binary_round prec emax sx p ex with
  | S754_zero s | S754_infinity s | S754_finite s _ _ => s = sx
  | S754_nan => False
  end.
Proof.
  unfold binary_round. destruct (shl_align _ _ _) as [mz ez].
  apply binary_round_aux_class. lia.
Qed.

Lemma not_nan_binary_normalize z e : not_nan (binary_normalize prec emax z e false).
Proof.
  destruct z as [|p|p]; cbn [binary_normalize]; [exact I| |].
  - apply (class_not_nan false), binary_round_class.
  - apply (class_not_nan true), binary_round_class.
Qed.

Lemma div_core_nonneg mx ex my ey :
  0 <= fst (fst (SFdiv_core_binary prec emax (Zpos mx) ex (Zpos my) ey)).
Proof.
  unfold SFdiv_core_binary.
  match goal with
  | |- context [Z.div_eucl ?a ?b] =>
      assert (Ha : 0 <= a);
        [|pose proof (Z.div_pos a b Ha ltac:(lia)) as Hq;
          unfold Z.div in Hq; destruct (Z.div_eucl a b) as [q r]; exact Hq]
  end.
  destruct (_ - _ - _) as [|s|s]; [lia| |lia].
  apply Z.shiftl_nonneg. lia.
Qed.

Lemma div_class sx mx ex sy my ey :
  match div (S754_finite sx mx ex) (S754_finite sy my ey) with
  | S754_zero s | S754_infinity s | S754_finite s _ _ => s = xorb sx sy
  | S754_nan => False
  end.
Proof.
  unfold div, SFdiv.
  pose proof (div_core_nonneg mx ex my ey) as Hq.
  destruct (SFdiv_core_binary _ _ _ _ _ _) as [[mz ez] lz]. cbn [fst] in Hq.
  now apply binary_round_aux_class.
Qed.

Lemma div_zero_l y : positive_finite y -> div zero y = zero.
Proof. intros (m & e & ->). reflexivity. Qed.

Lemma nonneg_div x y : nonneg x -> positive_finite y -> nonneg (div x y).
Proof.
  intros Hx (m & e & ->). destruct x as [s|s| |s mx ex]; simpl in Hx;
    try contradiction; subst; try exact I; try reflexivity.
  apply class_nonneg. apply (div_class false mx ex false m e).
Qed.

Lemma not_nan_div x y : not_nan x -> positive_finite y -> not_nan (div x y).
Proof.
  intros Hx (m & e & ->). destruct x as [s|s| |s mx ex]; simpl in Hx;
    try contradiction; try exact I.
  eapply class_not_nan. apply div_class.
Qed.

Lemma not_nan_mul x y :
  finite_or_zero x -> finite_or_zero y -> not_nan (mul x y).
Proof.
  destruct x as [sx|sx| |sx mx ex], y as [sy|sy| |sy my ey]; simpl;
    try contradiction; intros _ _; try exact I.
  eapply class_not_nan. apply binary_round_aux_class. lia.
Qed.

Lemma not_nan_sub x y : finite_or_zero x -> not_nan y -> not_nan (sub x y).
Proof.
  destruct x as [sx|sx| |sx mx ex], y as [sy|sy| |sy my ey]; simpl;
    try contradiction; intros _ _; try exact I.
  - now destruct sx, sy.
  - apply not_nan_binary_normalize.
Qed.

Lemma nonneg_abs x : not_nan x -> nonneg (abs x).
Proof. destruct x; simpl; auto. Qed.

Lemma nonneg_sqrt x : nonneg x -> nonneg (sqrt x).
Proof.
  destruct x as [s|s| |s m e]; simpl; try contradiction; intros Hx;
    subst; try exact I; try reflexivity.
  unfold SFsqrt_core_binary.
  match goal with
  | |- context [Z.sqrtrem ?a] =>
      pose proof (Z.sqrtrem_sqrt a) as Hq; destruct (Z.sqrtrem a) as [q r];
      cbn [fst] in Hq; subst q; pose proof (Z.sqrt_nonneg a)
  end.
  apply class_nonneg. now apply binary_round_aux_class.
Qed.

Lemma nonneg_geb x : nonneg x -> geb x zero = true.
Proof.
  destruct x as [s|s| |s m e]; simpl; try contradiction; intros Hx;
    subst; reflexivity.
Qed.


(** *** Conversions of 64-bit integers *)

Lemma int64_bits z : Int64.in_range z -> - 2 ^ 64 < z < 2 ^ 64.
Proof.
  unfold Int64.in_range, Int64.min_signed, Int64.max_signed,
    Int64.half_modulus. lia.
Qed.

Lemma of_int64_positive z :
  0 < z -> Int64.in_range z -> positive_finite (of_int64 z).
Proof.
  intros Hz Hr.
  destruct (of_int64_finite z ltac:(lia) (int64_bits z Hr)) as (m & e & H & _).
  replace (z <? 0) with false in H by (symmetry; apply Z.ltb_ge; lia).
  now exists m, e.
Qed.

Lemma of_int64_finite_or_zero z :
  Int64.in_range z -> finite_or_zero (of_int64 z).
Proof.
  intros Hr. destruct (Z.eq_dec z 0) as [->|Hz]; [exact I|].
  destruct (of_int64_finite z Hz (int64_bits z Hr)) as (m & e & -> & _).
  exact I.
Qed.

Lemma sqrt_of_int64_positive z :
  0 < z -> Int64.in_range z -> positive_finite (sqrt (of_int64 z)).
Proof.
  intros Hz Hr.
  destruct (of_int64_finite z ltac:(lia) (int64_bits z Hr))
    as (m & e & H & He & Hm & _).
  replace (z <? 0) with false in H by (symmetry; apply Z.ltb_ge; lia).
  rewrite H. now apply sqrt_finite.
Qed.


(** For two or more batches [n - 1.0] is a positive number. *)
Lemma count_minus_one z :
  1 < z -> Int64.in_range z -> positive_finite (sub (of_int64 z) one).
Proof.
  intros Hz Hr. destruct (Z.eq_dec z 2) as [->|Hz2].
  - eexists. eexists. vm_compute. reflexivity.
  - destruct (of_int64_finite z ltac:(lia) (int64_bits z Hr))
      as (m & e & H & He & Hm & Hv).
    replace (z <? 0) with false in H by (symmetry; apply Z.ltb_ge; lia).
    rewrite H. apply sub_one_finite; try assumption.
    rewrite Z.abs_eq in Hv by lia.
    assert (3 * 2 ^ 52 <= z * 2 ^ 52) by lia. lia.
Qed.

(** The divisor of the batch size correction is never zero, and it is a
    positive number unless the effective batch size is negative. *)
Lemma sqrt_batch_size_positive bsize :
  0 <= bsize -> Int64.in_range bsize ->
  positive_finite (sqrt_batch_size bsize).
Proof.
  intros Hb Hr. unfold sqrt_batch_size.
  destruct (Z.eqb_spec bsize 0) as [->|Hz].
  - eexists. eexists. reflexivity.
  - apply sqrt_of_int64_positive; [lia|exact Hr].
Qed.


End DoubleFacts.

(** ** IEEE arithmetic: rounding to nearest is monotonic *)

Module RoundFacts.
Import Double DoubleFacts.

Lemma loc_of_located P Q : loc_of_shr_record (located P Q) = frac_loc P Q.
Proof. unfold located. now destruct (frac_loc P Q) as [|[| |]]. Qed.

Lemma located_m P Q : shr_m (located P Q) = P / Q.
Proof. apply shr_record_of_loc_m. Qed.

Lemma mod_double P Q :
  0 < Q -> P mod (2 * Q) = Q * ((P / Q) mod 2) + P mod Q.
Proof.
  intros HQ. rewrite (Z.mul_comm 2 Q), Z.rem_mul_r by lia. lia.
Qed.

Lemma div_double P Q : 0 < Q -> P / (2 * Q) = P / Q / 2.
Proof. intros HQ. rewrite (Z.mul_comm 2 Q), Z.div_div by lia. reflexivity. Qed.

(** One shift to the right halves the fraction. *)
Lemma shr_1_located P Q :
  0 < Q -> 0 <= P -> shr_1 (located P Q) = located P (2 * Q).
Proof.
  intros HQ HP. unfold located, frac_loc.
  rewrite (div_double P Q HQ), (mod_double P Q HQ).
  pose proof (Z.mod_pos_bound P Q HQ) as HR.
  pose proof (Z.div_pos P Q HP HQ) as Hm.
  set (m := P / Q) in *. set (R := P mod Q) in *.
  assert (Hcases : (m = 0) \/ (exists p, m = Zpos p)) by
    (destruct m as [|p|p]; [now left|right; now exists p|lia]).
  destruct Hcases as [->|[p ->]].
  - change (0 / 2) with 0. change (0 mod 2) with 0.
    rewrite Z.mul_0_r, Z.add_0_l.
    destruct (Z.eqb_spec R 0) as [->|HR0].
    + reflexivity.
    + replace (2 * R ?= 2 * Q) with Lt by (symmetry; apply Z.compare_lt_iff; lia).
      now destruct (2 * R ?= Q).
  - destruct p as [p|p|].
    + replace (Zpos p~1 / 2) with (Zpos p)
        by (rewrite Pos2Z.inj_xI; apply (Z.div_unique _ 2 _ 1); lia).
      replace (Zpos p~1 mod 2) with 1
        by (rewrite Pos2Z.inj_xI; apply (Z.mod_unique _ 2 (Zpos p) 1); lia).
      replace (Q * 1 + R =? 0) with false by (symmetry; apply Z.eqb_neq; lia).
      destruct (Z.eqb_spec R 0) as [->|HR0].
      * replace (2 * (Q * 1 + 0) ?= 2 * Q) with Eq
          by (symmetry; apply Z.compare_eq_iff; lia).
        reflexivity.
      * replace (2 * (Q * 1 + R) ?= 2 * Q) with Gt
          by (symmetry; apply Z.compare_gt_iff; lia).
        now destruct (2 * R ?= Q).
    + replace (Zpos p~0 / 2) with (Zpos p)
        by (rewrite Pos2Z.inj_xO; apply (Z.div_unique _ 2 _ 0); lia).
      replace (Zpos p~0 mod 2) with 0
        by (rewrite Pos2Z.inj_xO; apply (Z.mod_unique _ 2 (Zpos p) 0); lia).
      rewrite Z.mul_0_r, Z.add_0_l.
      destruct (Z.eqb_spec R 0) as [->|HR0].
      * reflexivity.
      * replace (2 * R ?= 2 * Q) with Lt
          by (symmetry; apply Z.compare_lt_iff; lia).
        now destruct (2 * R ?= Q).
    + change (1 / 2) with 0. change (1 mod 2) with 1.
      replace (Q * 1 + R =? 0) with false by (symmetry; apply Z.eqb_neq; lia).
      destruct (Z.eqb_spec R 0) as [->|HR0].
      * replace (2 * (Q * 1 + 0) ?= 2 * Q) with Eq
          by (symmetry; apply Z.compare_eq_iff; lia).
        reflexivity.
      * replace (2 * (Q * 1 + R) ?= 2 * Q) with Gt
          by (symmetry; apply Z.compare_gt_iff; lia).
        now destruct (2 * R ?= Q).
Qed.

Lemma iter_shr_1_located n : forall P Q,
  0 < Q -> 0 <= P ->
  iter_pos shr_1 n (located P Q) = located P (Q * 2 ^ Zpos n).
Proof.
  induction n as [n IH|n IH|]; intros P Q HQ HP; cbn [iter_pos].
  - pose proof (pow2_pos (Zpos n) ltac:(lia)).
    rewrite shr_1_located, IH, IH by nia.
    f_equal. replace (Zpos n~1) with (1 + Zpos n + Zpos n) by lia.
    rewrite !Z.pow_add_r, Z.pow_1_r by lia. ring.
  - pose proof (pow2_pos (Zpos n) ltac:(lia)).
    rewrite IH, IH by nia.
    f_equal. replace (Zpos n~0) with (Zpos n + Zpos n) by lia.
    rewrite Z.pow_add_r by lia. ring.
  - rewrite shr_1_located by assumption. f_equal. change (2 ^ 1) with 2. ring.
Qed.

(** A right shift by [k] places of the fraction [P / Q] is the fraction
    [P / (Q * 2^k)]. *)
Lemma shr_located P Q e k :
  0 < Q -> 0 <= P ->
  shr (located P Q) e k = (located P (Q * 2 ^ Z.max 0 k), e + Z.max 0 k).
Proof.
  intros HQ HP. destruct k as [|k|k]; cbn [shr].
  - change (Z.max 0 0) with 0. now rewrite Z.mul_1_r, Z.add_0_r.
  - rewrite iter_shr_1_located by assumption.
    now rewrite Z.max_r by lia.
  - rewrite Z.max_l by lia. now rewrite Z.mul_1_r, Z.add_0_r.
Qed.

(** [binary_round_aux] on a located fraction: a shift that leaves at
    most 53 digits, rounding to nearest even, and packing. *)
Lemma binary_round_aux_located sx P Q ex :
  0 < Q -> 0 <= P ->
  let k := Z.max 0 (fexp prec emax (Zdigits2 (P / Q) + ex) - ex) in
  binary_round_aux prec emax sx (P / Q) ex (frac_loc P Q)
  = pack sx (rne P (Q * 2 ^ k)) (ex + k).
Proof.
  intros HQ HP k. unfold binary_round_aux, shr_fexp at 1.
  fold (located P Q). rewrite shr_located by assumption. fold k.
  rewrite loc_of_located, located_m. reflexivity.
Qed.

(** *** Rounding to the nearest integer *)

Lemma rne_bounds P Q : P / Q <= rne P Q <= P / Q + 1.
Proof. apply round_nearest_even_bounds. Qed.

Lemma rne_exact P : rne P 1 = P.
Proof.
  unfold rne, frac_loc. rewrite Z.mod_1_r, Z.div_1_r. reflexivity.
Qed.

Lemma floor_mono P1 Q1 P2 Q2 :
  0 < Q1 -> 0 < Q2 -> P1 * Q2 <= P2 * Q1 -> P1 / Q1 <= P2 / Q2.
Proof.
  intros H1 H2 H. apply Z.div_le_lower_bound; [assumption|].
  pose proof (Z.mul_div_le P1 Q1 H1) as Hf.
  assert (Q2 * (Q1 * (P1 / Q1)) <= Q2 * P1)
    by (apply Z.mul_le_mono_nonneg_l; lia).
  assert (Hc : Q1 * (Q2 * (P1 / Q1)) <= Q1 * P2) by lia.
  apply Z.mul_le_mono_pos_l in Hc; assumption.
Qed.

(** The rest of the division, against the divisor. *)
Lemma rest_mono P1 Q1 P2 Q2 :
  0 < Q1 -> 0 < Q2 -> P1 * Q2 <= P2 * Q1 -> P1 / Q1 = P2 / Q2 ->
  (P1 mod Q1) * Q2 <= (P2 mod Q2) * Q1.
Proof.
  intros H1 H2 H Heq.
  rewrite (Z.mod_eq P1 Q1), (Z.mod_eq P2 Q2), Heq by lia.
  set (a := P2 / Q2). 
  replace ((P1 - Q1 * a) * Q2) with (P1 * Q2 - a * (Q1 * Q2)) by ring.
  replace ((P2 - Q2 * a) * Q1) with (P2 * Q1 - a * (Q1 * Q2)) by ring.
  lia.
Qed.

Lemma rne_mono P1 Q1 P2 Q2 :
  0 < Q1 -> 0 < Q2 -> P1 * Q2 <= P2 * Q1 -> rne P1 Q1 <= rne P2 Q2.
Proof.
  intros H1 H2 H.
  pose proof (floor_mono P1 Q1 P2 Q2 H1 H2 H) as Hfloor.
  pose proof (rne_bounds P1 Q1) as Hb1. pose proof (rne_bounds P2 Q2) as Hb2.
  destruct (Z.eq_dec (P1 / Q1) (P2 / Q2)) as [Heq|Hne]; [|lia].
  pose proof (rest_mono P1 Q1 P2 Q2 H1 H2 H Heq) as Hrest.
  pose proof (Z.mod_pos_bound P1 Q1 H1) as HR1.
  pose proof (Z.mod_pos_bound P2 Q2 H2) as HR2.
  unfold rne, frac_loc in *. rewrite Heq in *.
  set (a := P2 / Q2) in *. set (R1 := P1 mod Q1) in *.
  set (R2 := P2 mod Q2) in *.
  assert (Hhalf : Q1 <= 2 * R1 -> Q2 <= 2 * R2).
  { intros Hh. assert (Q1 * Q2 <= 2 * R1 * Q2)
      by (apply Z.mul_le_mono_nonneg_r; lia).
    assert (Hc : Q1 * Q2 <= Q1 * (2 * R2)) by lia.
    apply Z.mul_le_mono_pos_l in Hc; assumption. }
  assert (Hover : Q1 < 2 * R1 -> Q2 < 2 * R2).
  { intros Hh. assert (Q1 * Q2 < 2 * R1 * Q2)
      by (apply Z.mul_lt_mono_pos_r; lia).
    assert (Hc : Q1 * Q2 < Q1 * (2 * R2)) by lia.
    apply Z.mul_lt_mono_pos_l in Hc; assumption. }
  assert (Hzero : R2 = 0 -> R1 = 0).
  { intros Hz. rewrite Hz in Hrest.
    destruct (Z.eq_dec R1 0) as [|Hn]; [assumption|].
    assert (0 < R1 * Q2) by (apply Z.mul_pos_pos; lia). lia. }
  destruct (Z.eqb_spec R1 0) as [HR10|HR10];
    destruct (Z.eqb_spec R2 0) as [HR20|HR20];
    cbn [round_nearest_even] in *.
  - lia.
  - destruct (2 * R2 ?= Q2); try destruct (Z.even a); lia.
  - lia.
  - destruct (Z.compare_spec (2 * R1) Q1);
      destruct (Z.compare_spec (2 * R2) Q2); try destruct (Z.even a); lia.
Qed.

(** *** Packing a rounded mantissa *)

Lemma digits_bound_pos p n : 0 <= n -> Zpos p < 2 ^ n -> Zdigits2 (Zpos p) <= n.
Proof. intros. now apply digits_le. Qed.

Lemma pack_spec sx m e :
  - 1074 <= e -> 0 <= m <= 2 ^ 53 ->
  pack sx m e
  = if m =? 0 then S754_zero sx
    else if m =? 2 ^ 53 then
      if e + 1 <=? 971 then S754_finite sx 4503599627370496 (e + 1)
      else S754_infinity sx
    else
      if e <=? 971 then S754_finite sx (Z.to_pos m) e
      else S754_infinity sx.
Proof.
  intros He Hm. unfold pack, shr_fexp. rewrite fexp_double.
  destruct (Z.eqb_spec m 0) as [->|Hm0].
  - cbn [Zdigits2].
    destruct (Z.max (0 + e - 53) (-1074) - e) as [|k|k] eqn:Hk; try lia;
      reflexivity.
  - destruct (Z.eqb_spec m (2 ^ 53)) as [->|Hm53].
    + change (Zdigits2 (2 ^ 53)) with 54.
      replace (Z.max (54 + e - 53) (-1074) - e) with 1 by lia.
      cbn [shr shr_record_of_loc iter_pos shr_1 shr_m].
      change (emax - prec) with 971. reflexivity.
    + destruct m as [|p|p]; try lia.
      pose proof (digits_bound_pos p 53 ltac:(lia) ltac:(lia)) as Hd.
      assert (1 <= Zdigits2 (Zpos p)) by (cbn [Zdigits2]; lia).
      destruct (Z.max (Zdigits2 (Zpos p) + e - 53) (-1074) - e)
        as [|k|k] eqn:Hk; try lia;
        cbn [shr shr_record_of_loc shr_m Z.to_pos];
        change (emax - prec) with 971; reflexivity.
Qed.

Lemma leb_finite m1 e1 m2 e2 :
  e1 < e2 \/ (e1 = e2 /\ (m1 <= m2)%positive) ->
  SFleb (S754_finite false m1 e1) (S754_finite false m2 e2) = true.
Proof.
  intros H. unfold SFleb, SFcompare.
  destruct (Z.compare_spec e1 e2) as [He|He|He]; [|reflexivity|lia].
  destruct H as [H|[_ H]]; [lia|].
  change (Pos.compare_cont Eq m1 m2) with (Pos.compare m1 m2).
  apply Pos.compare_le_iff in H.
  destruct (Pos.compare m1 m2); try reflexivity. now elim H.
Qed.

Lemma fits_low P Q : 0 < Q -> 2 ^ 52 <= P / Q -> 2 ^ 52 * Q <= P.
Proof.
  intros HQ Hm. pose proof (Z.mul_div_le P Q HQ).
  assert (Q * 2 ^ 52 <= Q * (P / Q)) by (apply Z.mul_le_mono_nonneg_l; lia).
  lia.
Qed.

Lemma fits_high k P Q : 0 < Q -> P / Q < k -> P < k * Q.
Proof.
  intros HQ Hm. destruct (Z.lt_ge_cases P (k * Q)) as [H|H]; [exact H|].
  assert (k <= P / Q) by (apply Z.div_le_lower_bound; lia). lia.
Qed.

(** Rounding is monotonic: of two fractions with their exponents, each
    fitting the format, the lesser in value rounds to the lesser
    number. *)
Lemma pack_rne_mono P1 Q1 e1 P2 Q2 e2 :
  0 < Q1 -> 0 < Q2 -> 0 <= P1 -> 0 <= P2 ->
  fits (P1 / Q1) e1 -> fits (P2 / Q2) e2 ->
  P1 * Q2 * 2 ^ (e1 - Z.min e1 e2) <= P2 * Q1 * 2 ^ (e2 - Z.min e1 e2) ->
  SFleb (pack false (rne P1 Q1) e1) (pack false (rne P2 Q2) e2) = true.
Proof.
  intros HQ1 HQ2 HP1 HP2 Hf1 Hf2 Hle.
  pose proof (rne_bounds P1 Q1) as Hb1. pose proof (rne_bounds P2 Q2) as Hb2.
  assert (He1 : - 1074 <= e1) by (destruct Hf1 as [[_ ?]|[_ ?]]; lia).
  assert (He2 : - 1074 <= e2) by (destruct Hf2 as [[_ ?]|[_ ?]]; lia).
  assert (Hr1 : 0 <= rne P1 Q1 <= 2 ^ 53) by (destruct Hf1 as [[? _]|[? _]]; lia).
  assert (Hr2 : 0 <= rne P2 Q2 <= 2 ^ 53) by (destruct Hf2 as [[? _]|[? _]]; lia).
  assert (Horder : e1 <= e2).
  { destruct (Z.le_gt_cases e1 e2) as [H|H]; [exact H|exfalso].
    rewrite Z.min_r, Z.sub_diag, Z.pow_0_r, Z.mul_1_r in Hle by lia.
    destruct Hf1 as [[[Hlow _] _]|[_ ?]]; [|lia].
    pose proof (fits_low P1 Q1 HQ1 Hlow) as Hp1.
    assert (Hp2 : P2 < 2 ^ 53 * Q2)
      by (apply fits_high; [assumption|destruct Hf2 as [[? _]|[? _]]; lia]).
    assert (Hpow : 2 <= 2 ^ (e1 - e2)).
    { change 2 with (2 ^ 1) at 1. apply Z.pow_le_mono_r; lia. }
    assert (2 ^ 52 * Q1 * Q2 <= P1 * Q2)
      by (apply Z.mul_le_mono_nonneg_r; lia).
    assert (P1 * Q2 * 2 <= P1 * Q2 * 2 ^ (e1 - e2))
      by (apply Z.mul_le_mono_nonneg_l; nia).
    assert (P2 * Q1 < 2 ^ 53 * Q2 * Q1)
      by (apply Z.mul_lt_mono_pos_r; lia).
    lia. }
  rewrite !pack_spec by lia.
  destruct (Z.eq_dec e1 e2) as [Heq|Hne].
  - subst e2. rewrite Z.min_id, Z.sub_diag, Z.pow_0_r, !Z.mul_1_r in Hle.
    pose proof (rne_mono P1 Q1 P2 Q2 HQ1 HQ2 Hle) as Hmono.
    destruct (Z.eqb_spec (rne P1 Q1) 0) as [H10|H10].
    + destruct (Z.eqb_spec (rne P2 Q2) 0); [reflexivity|].
      destruct (Z.eqb_spec (rne P2 Q2) (2 ^ 53));
        [destruct (e1 + 1 <=? 971)|destruct (e1 <=? 971)]; reflexivity.
    + destruct (Z.eqb_spec (rne P2 Q2) 0) as [H20|H20]; [lia|].
      destruct (Z.eqb_spec (rne P1 Q1) (2 ^ 53)) as [H1t|H1t];
        destruct (Z.eqb_spec (rne P2 Q2) (2 ^ 53)) as [H2t|H2t]; try lia.
      * destruct (e1 + 1 <=? 971); [apply leb_finite; right; split; lia|].
        reflexivity.
      * destruct (Z.leb_spec (e1 + 1) 971).
        { replace (e1 <=? 971) with true by (symmetry; apply Z.leb_le; lia).
          apply leb_finite. left. lia. }
        destruct (e1 <=? 971); reflexivity.
      * destruct (e1 <=? 971); [|reflexivity].
        apply leb_finite. right. split; [reflexivity|].
        lia.
  - assert (Hlt : e1 < e2) by lia.
    destruct Hf2 as [[[Hlow2 _] _]|[_ ?]]; [|lia].
    assert (H2pos : 2 ^ 52 <= rne P2 Q2) by lia.
    destruct (Z.eqb_spec (rne P2 Q2) 0) as [H20|H20]; [lia|].
    destruct (Z.eqb_spec (rne P1 Q1) 0) as [H10|H10].
    + destruct (Z.eqb_spec (rne P2 Q2) (2 ^ 53));
        [destruct (e2 + 1 <=? 971)|destruct (e2 <=? 971)]; reflexivity.
    + destruct (Z.eqb_spec (rne P1 Q1) (2 ^ 53)) as [H1t|H1t];
        destruct (Z.eqb_spec (rne P2 Q2) (2 ^ 53)) as [H2t|H2t].
      * destruct (Z.leb_spec (e2 + 1) 971).
        { replace (e1 + 1 <=? 971) with true by (symmetry; apply Z.leb_le; lia).
          apply leb_finite. left. lia. }
        destruct (e1 + 1 <=? 971); reflexivity.
      * destruct (Z.leb_spec e2 971).
        { replace (e1 + 1 <=? 971) with true by (symmetry; apply Z.leb_le; lia).
          apply leb_finite.
          destruct (Z.eq_dec (e1 + 1) e2); [right|left; lia].
          split; [assumption|].
          lia. }
        destruct (e1 + 1 <=? 971); reflexivity.
      * destruct (Z.leb_spec (e2 + 1) 971).
        { replace (e1 <=? 971) with true by (symmetry; apply Z.leb_le; lia).
          apply leb_finite. left. lia. }
        destruct (e1 <=? 971); reflexivity.
      * destruct (Z.leb_spec e2 971).
        { replace (e1 <=? 971) with true by (symmetry; apply Z.leb_le; lia).
          apply leb_finite. left. lia. }
        destruct (e1 <=? 971); reflexivity.
Qed.

(** *** Numbers of the format *)

Lemma digits_unique p n :
  2 ^ (n - 1) <= Zpos p < 2 ^ n -> Zpos (digits2_pos p) = n.
Proof.
  intros [Hlow Hup]. destruct (digits_bounds p) as [Hdl Hdu].
  set (d := Zpos (digits2_pos p)) in *.
  assert (Hn : 0 <= n).
  { destruct (Z.le_gt_cases 0 n) as [|Hneg]; [assumption|].
    rewrite Z.pow_neg_r in Hup by assumption. lia. }
  assert (Hd : 1 <= d) by (subst d; lia).
  destruct (Z.lt_trichotomy d n) as [Hlt|[Heq|Hgt]]; [exfalso|exact Heq|exfalso].
  - assert (2 ^ d <= 2 ^ (n - 1)) by (apply Z.pow_le_mono_r; lia). lia.
  - assert (2 ^ (n + 1) <= 2 ^ d) by (apply Z.pow_le_mono_r; lia).
    rewrite Z.pow_add_r, Z.pow_1_r in * by lia. lia.
Qed.

Lemma fexp_fits m e :
  fits (Zpos m) e -> fexp prec emax (Zdigits2 (Zpos m) + e) = e.
Proof.
  intros Hf. rewrite fexp_double. cbn [Zdigits2].
  destruct Hf as [[Hm He]|[Hm He]].
  - rewrite (digits_unique m 53) by (change (53 - 1) with 52; lia). lia.
  - pose proof (digits_le m 52 ltac:(lia) ltac:(lia)). lia.
Qed.

Lemma binary_round_aux_exact sx P ex :
  0 <= P ->
  let k := Z.max 0 (fexp prec emax (Zdigits2 P + ex) - ex) in
  binary_round_aux prec emax sx P ex loc_Exact
  = pack sx (rne P (2 ^ k)) (ex + k).
Proof.
  intros HP k.
  pose proof (binary_round_aux_located sx P 1 ex ltac:(lia) HP) as H.
  cbv zeta in H. rewrite Z.div_1_r, Z.mul_1_l in H. fold k in H.
  unfold frac_loc in H. rewrite Z.mod_1_r in H. exact H.
Qed.

(** Rounding a number of the format gives it back. *)
Lemma round_canonical sx m e :
  fits (Zpos m) e -> e <= 971 ->
  binary_round_aux prec emax sx (Zpos m) e loc_Exact = S754_finite sx m e.
Proof.
  intros Hf He. rewrite binary_round_aux_exact by lia.
  rewrite fexp_fits by assumption. rewrite Z.sub_diag.
  change (Z.max 0 0) with 0. rewrite Z.add_0_r, Z.pow_0_r, rne_exact.
  assert (Hlow : - 1074 <= e) by (destruct Hf as [[_ ?]|[_ ?]]; lia).
  assert (Hm : Zpos m < 2 ^ 53) by (destruct Hf as [[? _]|[? _]]; lia).
  rewrite pack_spec by lia.
  replace (Zpos m =? 0) with false by (symmetry; apply Z.eqb_neq; lia).
  replace (Zpos m =? 2 ^ 53) with false by (symmetry; apply Z.eqb_neq; lia).
  replace (e <=? 971) with true by (symmetry; apply Z.leb_le; lia).
  reflexivity.
Qed.

(** After the shift of [binary_round_aux], the fraction fits. *)
Lemma shift_fits P Q ex :
  0 < Q -> 0 <= P ->
  ex <= fexp prec emax (Zdigits2 (P / Q) + ex) ->
  let k := fexp prec emax (Zdigits2 (P / Q) + ex) - ex in
  fits (P / (Q * 2 ^ k)) (ex + k).
Proof.
  intros HQ HP. rewrite fexp_double. intros Hk k.
  assert (Hk0 : 0 <= k) by (subst k; lia).
  pose proof (pow2_pos k Hk0) as Hpow.
  rewrite <- Z.div_div by lia.
  pose proof (Z.div_pos P Q HP HQ) as Hq.
  assert (Hkdef : k = Z.max (Zdigits2 (P / Q) + ex - 53) (-1074) - ex)
    by reflexivity.
  clearbody k. set (q := P / Q) in *.
  destruct q as [|p|p]; [| |lia].
  - cbn [Zdigits2] in *. right. rewrite Z.div_0_l by lia. lia.
  - cbn [Zdigits2] in *. destruct (digits_bounds p) as [Hdl Hdu].
    set (d := Zpos (digits2_pos p)) in *.
    assert (Hd : 1 <= d) by (subst d; lia).
    destruct (Z.le_gt_cases (- 1074) (d + ex - 53)) as [Hn|Hs].
    + left. assert (Hkd : k = d - 53) by lia.
      assert (Hsplit : 2 ^ d = 2 ^ 53 * 2 ^ k)
        by (rewrite <- Z.pow_add_r by lia; f_equal; lia).
      split; [split|lia].
      * apply Z.div_le_lower_bound; [assumption|]. 
        change (2 ^ 53) with (2 * 2 ^ 52) in Hsplit. lia.
      * apply Z.div_lt_upper_bound; [assumption|]. lia.
    + right. assert (Hkd : d - 53 < k) by lia.
      split; [split|lia].
      * apply Z.div_pos; lia.
      * apply Z.div_lt_upper_bound; [assumption|].
        assert (2 ^ d <= 2 ^ (52 + k)) by (apply Z.pow_le_mono_r; lia).
        rewrite Z.pow_add_r in * by lia. lia.
Qed.

(** *** Exact conversions *)

(** An integer of at most 53 bits converts exactly: its mantissa is the
    integer shifted to 53 digits. *)
Lemma of_int64_exact A :
  0 < A < 2 ^ 53 ->
  exists m,
    of_int64 A = S754_finite false m (Zdigits2 A - 53)
    /\ Zpos m = A * 2 ^ (53 - Zdigits2 A)
    /\ 2 ^ 52 <= Zpos m < 2 ^ 53
    /\ 1 <= Zdigits2 A <= 53.
Proof.
  intros HA. destruct A as [|p|p]; try lia.
  unfold of_int64, binary_normalize, binary_round. rewrite fexp_double.
  cbn [Zdigits2]. destruct (digits_bounds p) as [Hdl Hdu].
  pose proof (digits_le p 53 ltac:(lia) ltac:(lia)) as Hd53.
  set (d := Zpos (digits2_pos p)) in *.
  assert (Hd : 1 <= d) by (subst d; lia).
  replace (Z.max (d + 0 - 53) (-1074)) with (d - 53) by lia.
  destruct (shl_align_spec p 0 (d - 53)) as [He Hm].
  destruct (shl_align p 0 (d - 53)) as [mz ez]. cbn [fst snd] in He, Hm.
  rewrite Z.min_r in He, Hm by lia. subst ez.
  replace (0 - (d - 53)) with (53 - d) in Hm by lia.
  assert (Hsplit : 2 ^ 53 = 2 ^ d * 2 ^ (53 - d))
    by (rewrite <- Z.pow_add_r by lia; f_equal; lia).
  pose proof (pow2_pos (53 - d) ltac:(lia)) as Hpow.
  assert (Hrange : 2 ^ 52 <= Zpos mz < 2 ^ 53).
  { rewrite Hm. split.
    - assert (2 ^ d * 2 ^ (53 - d) <= 2 * Zpos p * 2 ^ (53 - d))
        by (apply Z.mul_le_mono_nonneg_r; lia).
      change (2 ^ 53) with (2 * 2 ^ 52) in Hsplit. lia.
    - rewrite Hsplit. apply Z.mul_lt_mono_pos_r; lia. }
  exists mz. rewrite round_canonical; [|left; lia|lia].
  split; [reflexivity|]. split; [exact Hm|]. split; [exact Hrange|lia].
Qed.

(** *** Division *)

Lemma new_location_frac P Q :
  0 < Q -> new_location Q (P mod Q) = frac_loc P Q.
Proof.
  intros HQ. unfold new_location, frac_loc.
  pose proof (Z.mod_pos_bound P Q HQ) as HR. set (R := P mod Q) in *.
  destruct (Z.even Q) eqn:Heven; [reflexivity|].
  unfold new_location_odd.
  destruct (Z.eqb_spec R 0); [reflexivity|].
  assert (Hodd : Z.odd Q = true) by (rewrite <- Z.negb_even, Heven; reflexivity).
  apply Z.odd_spec in Hodd. destruct Hodd as [j Hj].
  f_equal.
  destruct (Z.compare_spec (2 * R + 1) Q);
    destruct (Z.compare_spec (2 * R) Q); try reflexivity; lia.
Qed.

Lemma div_eucl_div_mod a b :
  Z.div_eucl a b = (a / b, a mod b).
Proof. unfold Z.div, Z.modulo. now destruct (Z.div_eucl a b). Qed.

(** The quotient of two numbers with 53-digit mantissas: a fraction
    that fits, rounded and packed. *)
Lemma div_normal mA eA mB eB :
  2 ^ 52 <= Zpos mA < 2 ^ 53 -> 2 ^ 52 <= Zpos mB < 2 ^ 53 ->
  - 1021 <= eA - eB ->
  let P := Zpos mA * 2 ^ 53 in
  let N := Zdigits2 (P / Zpos mB) - 53 in
  0 <= N <= 1
  /\ div (S754_finite false mA eA) (S754_finite false mB eB)
     = pack false (rne P (Zpos mB * 2 ^ N)) (eA - eB - 53 + N)
  /\ fits (P / (Zpos mB * 2 ^ N)) (eA - eB - 53 + N).
Proof.
  intros HmA HmB He P N.
  unfold div, SFdiv, SFdiv_core_binary. cbn [Zdigits2 xorb].
  rewrite (digits_unique mA 53), (digits_unique mB 53)
    by (change (53 - 1) with 52; lia).
  rewrite fexp_double.
  replace (Z.min (Z.max (53 + eA - (53 + eB) - 53) (-1074)) (eA - eB))
    with (eA - eB - 53) by lia.
  replace (eA - eB - (eA - eB - 53)) with 53 by lia.
  rewrite Z.shiftl_mul_pow2 by lia. fold P.
  rewrite div_eucl_div_mod, new_location_frac by lia.
  assert (HP : 0 <= P) by (subst P; lia).
  assert (Hq : 2 ^ 52 <= P / Zpos mB < 2 ^ 54).
  { split.
    - apply Z.div_le_lower_bound; [lia|]. subst P.
      change (2 ^ 53) with (2 ^ 52 * 2). nia.
    - apply Z.div_lt_upper_bound; [lia|]. subst P.
      change (2 ^ 54) with (2 * 2 ^ 53). nia. }
  assert (HN : 0 <= N <= 1).
  { subst N. destruct (P / Zpos mB) as [|q|q] eqn:Hqq; try lia.
    cbn [Zdigits2]. destruct (digits_bounds q) as [Hdl Hdu].
    pose proof (digits_le q 54 ltac:(lia) ltac:(lia)).
    assert (Hge : ~ Zpos (digits2_pos q) <= 52).
    { intros Hd. assert (2 ^ Zpos (digits2_pos q) <= 2 ^ 52)
        by (apply Z.pow_le_mono_r; lia). lia. }
    lia. }
  split; [exact HN|].
  pose proof (binary_round_aux_located false P (Zpos mB)
                (eA - eB - 53) ltac:(lia) HP) as Hround.
  pose proof (shift_fits P (Zpos mB) (eA - eB - 53) ltac:(lia) HP) as Hfits.
  cbv zeta in Hround, Hfits. rewrite fexp_double in Hround, Hfits.
  replace (Z.max (Zdigits2 (P / Zpos mB) + (eA - eB - 53) - 53) (-1074)
           - (eA - eB - 53)) with N in Hround, Hfits by lia.
  rewrite Z.max_r in Hround by lia.
  split; [exact Hround|]. apply Hfits. lia.
Qed.

Lemma pow2_split a b : 0 <= a -> 0 <= b -> 2 ^ (a + b) = 2 ^ a * 2 ^ b.
Proof. intros. now apply Z.pow_add_r. Qed.

(** Quotients of exactly converted integers are ordered as the
    fractions. *)
Lemma div_of_int64_mono A1 B1 A2 B2 :
  0 < A1 < 2 ^ 53 -> 0 < B1 < 2 ^ 53 ->
  0 < A2 < 2 ^ 53 -> 0 < B2 < 2 ^ 53 ->
  A1 * B2 <= A2 * B1 ->
  SFleb (div (of_int64 A1) (of_int64 B1)) (div (of_int64 A2) (of_int64 B2))
  = true.
Proof.
  intros HA1 HB1 HA2 HB2 Hle.
  destruct (of_int64_exact A1 HA1) as (mA1 & -> & HmA1 & HrA1 & HdA1).
  destruct (of_int64_exact B1 HB1) as (mB1 & -> & HmB1 & HrB1 & HdB1).
  destruct (of_int64_exact A2 HA2) as (mA2 & -> & HmA2 & HrA2 & HdA2).
  destruct (of_int64_exact B2 HB2) as (mB2 & -> & HmB2 & HrB2 & HdB2).
  destruct (div_normal mA1 (Zdigits2 A1 - 53) mB1 (Zdigits2 B1 - 53)
              HrA1 HrB1 ltac:(lia)) as (HN1 & -> & Hf1).
  destruct (div_normal mA2 (Zdigits2 A2 - 53) mB2 (Zdigits2 B2 - 53)
              HrA2 HrB2 ltac:(lia)) as (HN2 & -> & Hf2).
  set (N1 := Zdigits2 (Zpos mA1 * 2 ^ 53 / Zpos mB1) - 53) in *.
  set (N2 := Zdigits2 (Zpos mA2 * 2 ^ 53 / Zpos mB2) - 53) in *.
  set (kA1 := 53 - Zdigits2 A1) in *. set (kB1 := 53 - Zdigits2 B1) in *.
  set (kA2 := 53 - Zdigits2 A2) in *. set (kB2 := 53 - Zdigits2 B2) in *.
  set (e1 := Zdigits2 A1 - 53 - (Zdigits2 B1 - 53) - 53 + N1) in *.
  set (e2 := Zdigits2 A2 - 53 - (Zdigits2 B2 - 53) - 53 + N2) in *.
  pose proof (pow2_pos N1 ltac:(lia)). pose proof (pow2_pos N2 ltac:(lia)).
  apply pack_rne_mono; try assumption; try lia.
  set (c := Z.min e1 e2).
  set (K := kB1 + N1 + kB2 + N2 - c).
  assert (HK : 0 <= K) by (subst K c e1 e2 kA1 kB1 kA2 kB2; lia).
  assert (E1 : Zpos mA1 * 2 ^ 53 * (Zpos mB2 * 2 ^ N2) * 2 ^ (e1 - c)
               = A1 * B2 * 2 ^ K).
  { rewrite HmA1, HmB2. fold kA1 kB2.
    replace K with (kA1 + 53 + kB2 + N2 + (e1 - c))
      by (subst K e1 kA1 kB1; lia).
    rewrite !pow2_split by (subst c e1 e2 kA1 kB1 kA2 kB2; lia). ring. }
  assert (E2 : Zpos mA2 * 2 ^ 53 * (Zpos mB1 * 2 ^ N1) * 2 ^ (e2 - c)
               = A2 * B1 * 2 ^ K).
  { rewrite HmA2, HmB1. fold kA2 kB1.
    replace K with (kA2 + 53 + kB1 + N1 + (e2 - c))
      by (subst K e2 kA2 kB2; lia).
    rewrite !pow2_split by (subst c e1 e2 kA1 kB1 kA2 kB2; lia). ring. }
  rewrite E1, E2. apply Z.mul_le_mono_nonneg_r; [|exact Hle].
  apply Z.pow_nonneg. lia.
Qed.

(** *** Sums and differences *)

Lemma digits_shifted p j :
  0 <= j -> Zdigits2 (Zpos p * 2 ^ j) = Zdigits2 (Zpos p) + j.
Proof.
  intros Hj. pose proof (pow2_pos j Hj) as Hpow.
  destruct (Zpos p * 2 ^ j) as [|q|q] eqn:Hq; try lia.
  cbn [Zdigits2]. apply digits_unique. rewrite <- Hq.
  destruct (digits_bounds p) as [Hdl Hdu].
  set (d := Zpos (digits2_pos p)) in *.
  assert (Hd : 1 <= d) by (subst d; lia).
  replace (d + j - 1) with ((d - 1) + j) by lia.
  rewrite !pow2_split by lia.
  assert (Hs : 2 ^ d = 2 * 2 ^ (d - 1)).
  { replace d with (1 + (d - 1)) at 1 by lia. now rewrite pow2_split by lia. }
  split.
  - apply Z.mul_le_mono_nonneg_r; lia.
  - apply Z.mul_lt_mono_pos_r; lia.
Qed.

(** [binary_round] of a mantissa and an exponent: a fraction of the same
    value that fits, rounded and packed. *)
Lemma binary_round_form sx p ex :
  exists P Q e,
    0 < Q /\ 0 <= P
    /\ binary_round prec emax sx p ex = pack sx (rne P Q) e
    /\ fits (P / Q) e
    /\ P * 2 ^ (e - Z.min e ex) = Zpos p * Q * 2 ^ (ex - Z.min e ex).
Proof.
  unfold binary_round.
  set (g := fexp prec emax (Zpos (digits2_pos p) + ex)).
  destruct (shl_align_spec p ex g) as [He Hm].
  destruct (shl_align p ex g) as [mz ez]. cbn [fst snd] in He, Hm.
  assert (Hdig : Zdigits2 (Zpos mz) + ez = Zpos (digits2_pos p) + ex).
  { rewrite Hm, digits_shifted by lia. cbn [Zdigits2]. lia. }
  pose proof (binary_round_aux_exact sx (Zpos mz) ez ltac:(lia)) as Hround.
  pose proof (shift_fits (Zpos mz) 1 ez ltac:(lia) ltac:(lia)) as Hfits.
  cbv zeta in Hround, Hfits. rewrite Z.div_1_r, Z.mul_1_l in Hfits.
  rewrite Hdig in Hround, Hfits. fold g in Hround, Hfits.
  assert (Hk : 0 <= g - ez) by lia.
  rewrite Z.max_r in Hround by lia.
  exists (Zpos mz), (2 ^ (g - ez)), (ez + (g - ez)).
  pose proof (pow2_pos (g - ez) Hk).
  split; [assumption|]. split; [lia|]. split; [exact Hround|].
  split; [apply Hfits; lia|].
  replace (ez + (g - ez)) with g by lia. rewrite Hm.
  destruct (Z.le_gt_cases ex g) as [Hc|Hc].
  - replace (Z.min ex g) with ex in * by lia.
    replace (Z.min g ex) with ex by lia. subst ez.
    rewrite !Z.sub_diag, Z.pow_0_r. ring.
  - replace (Z.min ex g) with g in * by lia.
    replace (Z.min g ex) with g by lia. subst ez.
    rewrite !Z.sub_diag, Z.pow_0_r. ring.
Qed.

(** A float of the format as a packed fraction. *)
Lemma canonical_pack sx m e :
  fits (Zpos m) e -> e <= 971 ->
  S754_finite sx m e = pack sx (rne (Zpos m) 1) e.
Proof.
  intros Hf He. rewrite rne_exact.
  assert (Hlow : - 1074 <= e) by (destruct Hf as [[_ ?]|[_ ?]]; lia).
  assert (Hm : Zpos m < 2 ^ 53) by (destruct Hf as [[? _]|[? _]]; lia).
  rewrite pack_spec by lia.
  replace (Zpos m =? 0) with false by (symmetry; apply Z.eqb_neq; lia).
  replace (Zpos m =? 2 ^ 53) with false by (symmetry; apply Z.eqb_neq; lia).
  replace (e <=? 971) with true by (symmetry; apply Z.leb_le; lia).
  reflexivity.
Qed.

Lemma cancel_pow2_le x y k : 0 <= k -> x * 2 ^ k <= y * 2 ^ k -> x <= y.
Proof.
  intros Hk H. pose proof (pow2_pos k Hk).
  apply Z.mul_le_mono_pos_r in H; assumption.
Qed.

(** From an order of values at the exponent [ex] to the order of the
    fractions at theirs. *)
Lemma value_below P Q e p ex mm em :
  0 < Q -> ex <= em ->
  P * 2 ^ (e - Z.min e ex) = p * Q * 2 ^ (ex - Z.min e ex) ->
  p <= mm * 2 ^ (em - ex) ->
  P * 1 * 2 ^ (e - Z.min e em) <= mm * Q * 2 ^ (em - Z.min e em).
Proof.
  intros HQ Hex Hval Hle.
  set (L := Z.min e ex) in *. set (c := Z.min e em).
  assert (HL : L <= c) by (subst L c; lia).
  apply (cancel_pow2_le _ _ (c - L)); [lia|].
  replace (P * 1 * 2 ^ (e - c) * 2 ^ (c - L)) with (P * 2 ^ (e - L)).
  2:{ replace (e - L) with ((e - c) + (c - L)) by lia.
      rewrite pow2_split by (subst L c; lia). ring. }
  replace (mm * Q * 2 ^ (em - c) * 2 ^ (c - L))
    with (mm * 2 ^ (em - ex) * Q * 2 ^ (ex - L)).
  2:{ replace (em - c + (c - L)) with ((em - ex) + (ex - L)) by lia.
      replace (mm * Q * 2 ^ (em - c) * 2 ^ (c - L))
        with (mm * Q * (2 ^ (em - c) * 2 ^ (c - L))) by ring.
      rewrite <- !pow2_split by (subst L c; lia).
      replace (em - c + (c - L)) with ((em - ex) + (ex - L)) by lia.
      rewrite pow2_split by (subst L c; lia). ring. }
  rewrite Hval.
  assert (0 <= Q * 2 ^ (ex - L))
    by (apply Z.mul_nonneg_nonneg; [lia|apply Z.pow_nonneg; lia]).
  replace (p * Q * 2 ^ (ex - L)) with (p * (Q * 2 ^ (ex - L))) by ring.
  replace (mm * 2 ^ (em - ex) * Q * 2 ^ (ex - L))
    with (mm * 2 ^ (em - ex) * (Q * 2 ^ (ex - L))) by ring.
  apply Z.mul_le_mono_nonneg_r; assumption.
Qed.

Lemma value_above P Q e p ex mm em :
  0 < Q -> ex <= em ->
  P * 2 ^ (e - Z.min e ex) = p * Q * 2 ^ (ex - Z.min e ex) ->
  mm * 2 ^ (em - ex) <= p ->
  mm * Q * 2 ^ (em - Z.min em e) <= P * 1 * 2 ^ (e - Z.min em e).
Proof.
  intros HQ Hex Hval Hle. rewrite (Z.min_comm em e).
  set (L := Z.min e ex) in *. set (c := Z.min e em).
  assert (HL : L <= c) by (subst L c; lia).
  apply (cancel_pow2_le _ _ (c - L)); [lia|].
  replace (P * 1 * 2 ^ (e - c) * 2 ^ (c - L)) with (P * 2 ^ (e - L)).
  2:{ replace (e - L) with ((e - c) + (c - L)) by lia.
      rewrite pow2_split by (subst L c; lia). ring. }
  replace (mm * Q * 2 ^ (em - c) * 2 ^ (c - L))
    with (mm * 2 ^ (em - ex) * Q * 2 ^ (ex - L)).
  2:{ replace (mm * Q * 2 ^ (em - c) * 2 ^ (c - L))
        with (mm * Q * (2 ^ (em - c) * 2 ^ (c - L))) by ring.
      rewrite <- !pow2_split by (subst L c; lia).
      replace (em - c + (c - L)) with ((em - ex) + (ex - L)) by lia.
      rewrite pow2_split by (subst L c; lia). ring. }
  rewrite Hval.
  assert (0 <= Q * 2 ^ (ex - L))
    by (apply Z.mul_nonneg_nonneg; [lia|apply Z.pow_nonneg; lia]).
  replace (p * Q * 2 ^ (ex - L)) with (p * (Q * 2 ^ (ex - L))) by ring.
  replace (mm * 2 ^ (em - ex) * Q * 2 ^ (ex - L))
    with (mm * 2 ^ (em - ex) * (Q * 2 ^ (ex - L))) by ring.
  apply Z.mul_le_mono_nonneg_r; assumption.
Qed.

(** A number with the sign bit set, or a zero, is not above a positive
    one. *)
Lemma negative_leb x m e :
  nonpos x -> SFleb x (S754_finite false m e) = true.
Proof.
  destruct x as [s|s| |s mx ex]; cbn; try contradiction; intros H;
    subst; reflexivity.
Qed.

Lemma class_nonpos x :
  match x with
  | S754_zero s | S754_infinity s | S754_finite s _ _ => s = true
  | S754_nan => False
  end -> nonpos x.
Proof. now destruct x. Qed.

Lemma shl_align_fst m e ez :
  ez <= e -> Zpos (fst (shl_align m e ez)) = Zpos m * 2 ^ (e - ez).
Proof.
  intros H. destruct (shl_align_spec m e ez) as [_ Hm].
  now rewrite Z.min_r in Hm by lia.
Qed.

(** Adding a negative number to a number of the format does not give
    more. *)
Lemma add_negative_le mm em mt et :
  fits (Zpos mm) em -> em <= 971 ->
  SFleb (add (S754_finite false mm em) (S754_finite true mt et))
    (S754_finite false mm em) = true.
Proof.
  intros Hf He. unfold add, SFadd. cbn [cond_Zopp].
  set (ez := Z.min em et).
  rewrite !shl_align_fst by (subst ez; lia).
  pose proof (pow2_pos (et - ez) ltac:(subst ez; lia)) as Hpt.
  set (a := Zpos mm * 2 ^ (em - ez)). set (b := Zpos mt * 2 ^ (et - ez)).
  assert (Hb : 0 < b) by (subst b; lia).
  destruct (a + - b) as [|p|p] eqn:HM; cbn [binary_normalize].
  - reflexivity.
  - destruct (binary_round_form false p ez)
      as (P & Q & e & HQ & HP & -> & Hfits & Hval).
    rewrite (canonical_pack false mm em Hf He).
    apply pack_rne_mono; try assumption; try lia.
    + now rewrite Z.div_1_r.
    + apply (value_below P Q e (Zpos p) ez (Zpos mm) em); try assumption.
      * subst ez. lia.
      * fold a. lia.
  - apply negative_leb, (class_nonpos _), binary_round_class.
Qed.

(** Adding a positive number to a number of the format does not give
    less. *)
Lemma add_positive_ge mm em mt et :
  fits (Zpos mm) em -> em <= 971 ->
  SFleb (S754_finite false mm em)
    (add (S754_finite false mm em) (S754_finite false mt et)) = true.
Proof.
  intros Hf He. unfold add, SFadd. cbn [cond_Zopp].
  set (ez := Z.min em et).
  rewrite !shl_align_fst by (subst ez; lia).
  pose proof (pow2_pos (et - ez) ltac:(subst ez; lia)) as Hpt.
  pose proof (pow2_pos (em - ez) ltac:(subst ez; lia)) as Hpm.
  set (a := Zpos mm * 2 ^ (em - ez)). set (b := Zpos mt * 2 ^ (et - ez)).
  assert (Hb : 0 < b) by (subst b; lia).
  assert (Ha : 0 < a) by (subst a; lia).
  destruct (a + b) as [|p|p] eqn:HM; cbn [binary_normalize]; try lia.
  destruct (binary_round_form false p ez)
    as (P & Q & e & HQ & HP & -> & Hfits & Hval).
  rewrite (canonical_pack false mm em Hf He).
  apply pack_rne_mono; try assumption; try lia.
  - now rewrite Z.div_1_r.
  - apply (value_above P Q e (Zpos p) ez (Zpos mm) em); try assumption.
    + subst ez. lia.
    + fold a. lia.
Qed.

(** The order of two positive numbers of the format is the order of
    their values. *)
Lemma leb_value m1 e1 m2 e2 :
  fits (Zpos m1) e1 -> fits (Zpos m2) e2 ->
  SFleb (S754_finite false m1 e1) (S754_finite false m2 e2) = true ->
  Zpos m1 * 2 ^ (e1 - Z.min e1 e2) <= Zpos m2 * 2 ^ (e2 - Z.min e1 e2).
Proof.
  intros Hf1 Hf2. unfold SFleb, SFcompare.
  destruct (Z.compare_spec e1 e2) as [He|He|He]; [| |discriminate].
  - subst e2. rewrite Z.min_id, Z.sub_diag, Z.pow_0_r, !Z.mul_1_r.
    change (Pos.compare_cont Eq m1 m2) with (Pos.compare m1 m2).
    destruct (Pos.compare_spec m1 m2) as [Hc|Hc|Hc]; intros H;
      try discriminate; lia.
  - intros _. rewrite Z.min_l, Z.sub_diag, Z.pow_0_r, Z.mul_1_r by lia.
    assert (Hm1 : Zpos m1 < 2 ^ 53) by (destruct Hf1 as [[? _]|[? _]]; lia).
    destruct Hf2 as [[Hm2 _]|[_ ?]];
      [|destruct Hf1 as [[_ ?]|[_ ?]]; lia].
    assert (2 <= 2 ^ (e2 - e1)).
    { change 2 with (2 ^ 1) at 1. apply Z.pow_le_mono_r; lia. }
    nia.
Qed.

(** The difference of two ordered regular numbers has the sign of the
    order. *)
Lemma sub_regular_nonpos x y :
  regular x -> regular y -> SFleb x y = true -> nonpos (sub x y).
Proof.
  destruct x as [sx|sx| |[|] mx ex], y as [sy|sy| |[|] my ey];
    cbn [regular]; try contradiction; intros Hx Hy Hle.
  - cbn. now destruct sx, sy.
  - reflexivity.
  - discriminate.
  - destruct Hx as [Hfx Hex], Hy as [Hfy Hey].
    pose proof (leb_value mx ex my ey Hfx Hfy Hle) as Hv.
    unfold sub, SFsub. cbn [cond_Zopp].
    rewrite !shl_align_fst by lia.
    destruct (Zpos mx * 2 ^ (ex - Z.min ex ey)
              - Zpos my * 2 ^ (ey - Z.min ex ey)) as [|p|p] eqn:HM;
      cbn [binary_normalize]; try lia.
    + exact I.
    + apply class_nonpos, binary_round_class.
Qed.

Lemma sub_regular_nonneg x y :
  regular x -> regular y -> SFleb y x = true -> nonneg (sub x y).
Proof.
  destruct x as [sx|sx| |[|] mx ex], y as [sy|sy| |[|] my ey];
    cbn [regular]; try contradiction; intros Hx Hy Hle.
  - cbn. now destruct sx, sy.
  - discriminate.
  - reflexivity.
  - destruct Hx as [Hfx Hex], Hy as [Hfy Hey].
    pose proof (leb_value my ey mx ex Hfy Hfx Hle) as Hv.
    rewrite (Z.min_comm ey ex) in Hv.
    unfold sub, SFsub. cbn [cond_Zopp].
    rewrite !shl_align_fst by lia.
    destruct (Zpos mx * 2 ^ (ex - Z.min ex ey)
              - Zpos my * 2 ^ (ey - Z.min ex ey)) as [|p|p] eqn:HM;
      cbn [binary_normalize]; try lia.
    + exact I.
    + apply class_nonneg, binary_round_class.
Qed.

(** Multiplying by a positive number keeps the sign. *)
Lemma mul_nonpos x y : nonpos x -> positive_finite y -> nonpos (mul x y).
Proof.
  intros Hx (m & e & ->).
  destruct x as [s|s| |s mx ex]; cbn in Hx |- *; try contradiction;
    subst; try exact I; try reflexivity.
  apply class_nonpos, binary_round_aux_class. lia.
Qed.

Lemma mul_nonneg x y : nonneg x -> positive_finite y -> nonneg (mul x y).
Proof.
  intros Hx (m & e & ->).
  destruct x as [s|s| |s mx ex]; cbn in Hx |- *; try contradiction;
    subst; try exact I; try reflexivity.
  apply class_nonneg, binary_round_aux_class. lia.
Qed.

Lemma leb_zero_regular x : regular x -> SFleb zero x = true.
Proof.
  destruct x as [s|s| |[|] m e]; cbn [regular]; try contradiction;
    intros H; reflexivity.
Qed.

(** The corrected minimum: the mean plus something not above zero,
    replaced by zero when below it, lies between zero and the mean. *)
Lemma corrected_min mean t :
  regular mean -> nonpos t ->
  let r := add mean t in
  let c := if ltb r zero then zero else r in
  SFleb zero c = true /\ SFleb c mean = true.
Proof.
  intros Hmean Ht r c. subst c r.
  destruct mean as [sm|sm| |[|] mm em]; cbn [regular] in Hmean;
    try contradiction.
  - destruct t as [st|st| |st mt et]; cbn in Ht; try contradiction; subst.
    + destruct sm, st; cbn; split; reflexivity.
    + cbn. split; reflexivity.
    + cbn. split; reflexivity.
  - destruct Hmean as [Hf He].
    destruct t as [st|st| |st mt et]; cbn in Ht; try contradiction; subst.
    + cbn [add SFadd]. cbn [ltb SFltb SFcompare zero].
      split; [reflexivity|].
      apply leb_finite. right. split; [reflexivity|apply Pos.le_refl].
    + cbn. split; reflexivity.
    + pose proof (add_negative_le mm em mt et Hf He) as Hle.
      destruct (add (S754_finite false mm em) (S754_finite true mt et))
        as [s|s| |s m e] eqn:Hadd.
      * cbn [ltb SFltb SFcompare zero]. split; [reflexivity|exact Hle].
      * destruct s; [cbn; split; reflexivity|discriminate].
      * discriminate.
      * destruct s; [cbn; split; reflexivity|].
        cbn [ltb SFltb SFcompare zero]. split; [reflexivity|exact Hle].
Qed.

(** The corrected maximum: the mean plus something not below zero is
    not below the mean. *)
Lemma corrected_max mean t :
  regular mean -> nonneg t ->
  let r := add mean t in
  SFleb zero r = true /\ SFleb mean r = true.
Proof.
  intros Hmean Ht r. subst r.
  destruct mean as [sm|sm| |[|] mm em]; cbn [regular] in Hmean;
    try contradiction.
  - destruct t as [st|st| |st mt et]; cbn in Ht; try contradiction; subst.
    + destruct sm, st; cbn; split; reflexivity.
    + cbn. split; reflexivity.
    + cbn. split; reflexivity.
  - destruct Hmean as [Hf He].
    destruct t as [st|st| |st mt et]; cbn in Ht; try contradiction; subst.
    + cbn [add SFadd]. split; [reflexivity|].
      apply leb_finite. right. split; [reflexivity|apply Pos.le_refl].
    + cbn. split; reflexivity.
    + pose proof (add_positive_ge mm em mt et Hf He) as Hle.
      split; [|exact Hle].
      destruct (add (S754_finite false mm em) (S754_finite false mt et))
        as [s|s| |s m e]; try discriminate; try reflexivity.
      * destruct s; [discriminate|reflexivity].
      * destruct s; [discriminate|reflexivity].
Qed.

End RoundFacts.

(** ** The reducer *)

Section Reducer.

Import DoubleFacts RoundFacts.

Lemma process_stats_mean st runs_mult :
  Bench_Result.mean_ms (process_stats st runs_mult)
  = fst (fst (uncorrected st runs_mult)).
Proof.
  unfold process_stats. now destruct (uncorrected st runs_mult) as [[? ?] ?].
Qed.

Lemma process_stats_deviation st runs_mult :
  Bench_Result.deviation_ms (process_stats st runs_mult)
  = Double.div (batch_deviation_ms st)
      (sqrt_batch_size (effective_batch_size st runs_mult)).
Proof.
  unfold process_stats. now destruct (uncorrected st runs_mult) as [[? ?] ?].
Qed.

Lemma effective_batch_size_range st runs_mult :
  Int64.in_range (effective_batch_size st runs_mult).
Proof. apply Int64Facts.wrap_range. Qed.

Lemma batch_deviation_nonneg st :
  int64_sums st -> nonneg (batch_deviation_ms st).
Proof.
  intros (Hcount & Hsum & Hsq). unfold batch_deviation_ms.
  destruct (Z.gtb_spec (batch_count st) 1) as [Hn|Hn]; [|exact I].
  apply nonneg_div; [|apply of_int64_positive; [reflexivity|]].
  - apply nonneg_sqrt, nonneg_abs, not_nan_div;
      [|apply count_minus_one; [lia|exact Hcount]].
    apply not_nan_sub; [now apply of_int64_finite_or_zero|].
    apply not_nan_div; [|apply of_int64_positive; [lia|exact Hcount]].
    apply not_nan_mul; now apply of_int64_finite_or_zero.
  - vm_compute. split; discriminate.
Qed.

(** C5, amended.  On statistics whose effective batch size is not
    negative, the reported deviation is exactly 0 for at most one batch;
    for an effective batch size of 0 it is the deviation over the
    batches, in milliseconds, divided by 1; for an effective batch size
    of at least 1 it is the root of the absolute sample variance of the
    deltas, in milliseconds, over the root of the effective batch size;
    and it is never below 0 nor a NaN. *)
Theorem deviation_formula :
  forall (stats : Bench_Stats) (runs_mult : Z),
    int64_sums stats ->
    0 <= effective_batch_size stats runs_mult ->
    let dev := Bench_Result.deviation_ms (process_stats stats runs_mult) in
    (batch_count stats <= 1 -> dev = Double.zero)
    /\ (effective_batch_size stats runs_mult = 0 ->
        dev = Double.div (batch_deviation_ms stats) Double.one)
    /\ (1 <= effective_batch_size stats runs_mult ->
        dev = deviation_spec stats runs_mult)
    /\ Double.geb dev Double.zero = true.
Proof.
  intros stats runs_mult Hint Hsize dev. subst dev.
  rewrite process_stats_deviation.
  pose proof (sqrt_batch_size_positive _ Hsize
                (effective_batch_size_range stats runs_mult)) as Hsq.
  assert (Hzero : batch_count stats <= 1 ->
    Double.div (batch_deviation_ms stats)
      (sqrt_batch_size (effective_batch_size stats runs_mult)) = Double.zero).
  { intros Hn. unfold batch_deviation_ms.
    replace (batch_count stats >? 1) with false
      by (destruct (Z.gtb_spec (batch_count stats) 1); [lia|reflexivity]).
    now apply div_zero_l. }
  split; [exact Hzero|]. split; [|split].
  - intros ->. reflexivity.
  - intros Hone. unfold deviation_spec.
    destruct (Z.leb_spec (batch_count stats) 1) as [Hn|Hn]; [now apply Hzero|].
    unfold batch_deviation_ms, sqrt_batch_size.
    replace (batch_count stats >? 1) with true
      by (destruct (Z.gtb_spec (batch_count stats) 1); [reflexivity|lia]).
    replace (effective_batch_size stats runs_mult =? 0) with false
      by (symmetry; apply Z.eqb_neq; lia).
    reflexivity.
  - apply nonneg_geb, nonneg_div; [now apply batch_deviation_nonneg|exact Hsq].
Qed.

(** *** The order of the result *)

Lemma small_range z : - 2 ^ 53 < z < 2 ^ 53 -> Int64.in_range z.
Proof.
  unfold Int64.in_range, Int64.min_signed, Int64.max_signed,
    Int64.half_modulus. lia.
Qed.

Lemma pack_regular P Q e :
  0 < Q -> fits (P / Q) e -> e < 971 -> regular (pack false (rne P Q) e).
Proof.
  intros HQ Hf Hup. pose proof (rne_bounds P Q) as Hb.
  assert (He : - 1074 <= e) by (destruct Hf as [[_ ?]|[_ ?]]; lia).
  assert (Hr : 0 <= rne P Q <= 2 ^ 53) by (destruct Hf as [[? _]|[? _]]; lia).
  rewrite pack_spec by lia.
  destruct (Z.eqb_spec (rne P Q) 0) as [H0|H0]; [exact I|].
  destruct (Z.eqb_spec (rne P Q) (2 ^ 53)) as [Ht|Ht].
  - replace (e + 1 <=? 971) with true by (symmetry; apply Z.leb_le; lia).
    split; [left; lia|lia].
  - replace (e <=? 971) with true by (symmetry; apply Z.leb_le; lia).
    split; [|lia]. rewrite Z2Pos.id by lia.
    destruct Hf as [[Hm _]|[Hm He']].
    + left. lia.
    + destruct (Z.eq_dec (rne P Q) (2 ^ 52)); [left|right]; lia.
Qed.

(** A quotient of integers below [2^53] is a regular number. *)
Lemma quotient_regular A B :
  0 <= A < 2 ^ 53 -> 0 < B < 2 ^ 53 ->
  regular (Double.div (Double.of_int64 A) (Double.of_int64 B)).
Proof.
  intros HA HB.
  destruct (of_int64_exact B HB) as (mB & EB & HmB & HrB & HdB).
  destruct (Z.eq_dec A 0) as [->|HA0].
  - rewrite EB. exact I.
  - destruct (of_int64_exact A ltac:(lia)) as (mA & EA & HmA & HrA & HdA).
    rewrite EA, EB.
    destruct (div_normal mA (Zdigits2 A - 53) mB (Zdigits2 B - 53)
                HrA HrB ltac:(lia)) as (HN & -> & Hf).
    apply pack_regular; [|exact Hf|lia].
    pose proof (pow2_pos (Zdigits2 (Zpos mA * 2 ^ 53 / Zpos mB) - 53)
                  ltac:(lia)). lia.
Qed.

(** Such quotients are ordered as the fractions are. *)
Lemma quotients_ordered A1 B1 A2 B2 :
  0 <= A1 < 2 ^ 53 -> 0 < B1 < 2 ^ 53 ->
  0 <= A2 < 2 ^ 53 -> 0 < B2 < 2 ^ 53 ->
  A1 * B2 <= A2 * B1 ->
  Double.leb (Double.div (Double.of_int64 A1) (Double.of_int64 B1))
    (Double.div (Double.of_int64 A2) (Double.of_int64 B2)) = true.
Proof.
  intros HA1 HB1 HA2 HB2 Hle.
  destruct (Z.eq_dec A1 0) as [->|HA0].
  - destruct (of_int64_exact B1 HB1) as (mB & EB & _).
    rewrite EB. change (Double.div (Double.of_int64 0) _) with Double.zero.
    apply leb_zero_regular, quotient_regular; assumption.
  - assert (0 < A1 * B2) by (apply Z.mul_pos_pos; lia).
    assert (0 < A2) by nia.
    apply div_of_int64_mono; try assumption; lia.
Qed.

(** The correction of the minimum and of the maximum keeps them on
    their sides of the mean. *)
Lemma correction_ordered mean_ms min_ms max_ms sq :
  regular mean_ms -> regular min_ms -> regular max_ms ->
  Double.leb min_ms mean_ms = true -> Double.leb mean_ms max_ms = true ->
  positive_finite sq ->
  let rmin :=
    Double.add mean_ms (Double.mul (Double.sub min_ms mean_ms) sq) in
  let rmax :=
    Double.add mean_ms (Double.mul (Double.sub max_ms mean_ms) sq) in
  let cmin := if Double.ltb rmin Double.zero then Double.zero else rmin in
  Double.leb Double.zero cmin = true
  /\ Double.leb cmin mean_ms = true
  /\ Double.leb mean_ms rmax = true
  /\ Double.leb Double.zero rmax = true.
Proof.
  intros Hmean Hmin Hmax Hlow Hhigh Hsq rmin rmax cmin.
  destruct (corrected_min mean_ms
              (Double.mul (Double.sub min_ms mean_ms) sq) Hmean)
    as [H1 H2].
  { apply mul_nonpos; [|exact Hsq]. now apply sub_regular_nonpos. }
  destruct (corrected_max mean_ms
              (Double.mul (Double.sub max_ms mean_ms) sq) Hmean)
    as [H3 H4].
  { apply mul_nonneg; [|exact Hsq]. now apply sub_regular_nonneg. }
  repeat split; assumption.
Qed.

Lemma products_small b r n :
  0 <= b -> 1 <= r -> 0 <= n ->
  b * r * Z.max 1 n * 1000000 < 2 ^ 53 ->
  0 <= b * r < 2 ^ 53 /\ 0 <= b * r * n < 2 ^ 53
  /\ 0 <= b * r * 1000000 < 2 ^ 53 /\ 0 <= b * r * n * 1000000 < 2 ^ 53.
Proof.
  intros Hb Hr Hn H.
  assert (Hx : 0 <= b * r) by (apply Z.mul_nonneg_nonneg; lia).
  set (x := b * r) in *.
  assert (x * 1 <= x * Z.max 1 n) by (apply Z.mul_le_mono_nonneg_l; lia).
  assert (x * n <= x * Z.max 1 n) by (apply Z.mul_le_mono_nonneg_l; lia).
  assert (0 <= x * n) by (apply Z.mul_nonneg_nonneg; lia).
  lia.
Qed.

Lemma sums_small mn mx est sum n :
  1 <= n -> mn * n <= sum <= mx * n ->
  0 <= mx -> 0 <= est -> 0 <= mn + est ->
  (mx + est) * n < 2 ^ 53 ->
  0 <= mn + est <= mx + est /\ mx + est < 2 ^ 53
  /\ - 2 ^ 53 < mn * n /\ mx * n < 2 ^ 53
  /\ 0 <= est * n < 2 ^ 53
  /\ 0 <= sum + est * n < 2 ^ 53
  /\ (mn + est) * n <= sum + est * n <= (mx + est) * n.
Proof.
  intros Hn Hsum Hmx Hest Hmn Hbound.
  assert (Hmul : (mx + est) * n = mx * n + est * n) by ring.
  assert (Hmul2 : (mn + est) * n = mn * n + est * n) by ring.
  assert (0 <= mx * n) by (apply Z.mul_nonneg_nonneg; lia).
  assert (0 <= est * n) by (apply Z.mul_nonneg_nonneg; lia).
  assert (0 <= (mn + est) * n) by (apply Z.mul_nonneg_nonneg; lia).
  assert ((mx + est) * 1 <= (mx + est) * n)
    by (apply Z.mul_le_mono_nonneg_l; lia).
  assert (Hle : mn <= mx).
  { destruct (Z.le_gt_cases mn mx) as [|Hgt]; [assumption|].
    assert (mx * n < mn * n) by (apply Z.mul_lt_mono_pos_r; lia). lia. }
  lia.
Qed.

End Reducer.

Section Ordered.

Import DoubleFacts RoundFacts.

Variables (stats : Bench_Stats) (runs_mult : Z).

Local Abbreviation n := (batch_count stats).

Hypothesis fields : int64_sums stats.
Hypothesis count : 0 <= n.
Hypothesis size : 0 <= batch_size stats.
Hypothesis mult : 1 <= runs_mult.
Hypothesis sums :
  min_batch_time stats * n <= time_sum stats <= max_batch_time stats * n.
Hypothesis greatest : 0 <= max_batch_time stats.
Hypothesis estimate : 0 <= mean_time_estimate stats.
Hypothesis least : 0 <= min_batch_time stats + mean_time_estimate stats.
Hypothesis times :
  (max_batch_time stats + mean_time_estimate stats) * Z.max 1 n < 2 ^ 53.
Hypothesis calls :
  batch_size stats * runs_mult * Z.max 1 n * MILISECOND_NANOSECONDS < 2 ^ 53.

Lemma effective_exact :
  effective_batch_size stats runs_mult = batch_size stats * runs_mult
  /\ total_iters stats runs_mult = batch_size stats * runs_mult * n
  /\ 0 <= batch_size stats * runs_mult
  /\ 0 <= batch_size stats * runs_mult * n.
Proof.
  destruct (products_small _ _ _ size mult count calls)
    as (Hb & Hi & _ & _).
  assert (Heff : effective_batch_size stats runs_mult
                 = batch_size stats * runs_mult)
    by (apply Int64Facts.mul_exact, small_range; lia).
  split; [exact Heff|]. split; [|lia].
  unfold total_iters. rewrite Heff.
  apply Int64Facts.mul_exact, small_range. lia.
Qed.

(** With no batch the adjusted sums are zero; with batches they are
    exact and ordered. *)
Lemma adjusted_exact :
  (n = 0 /\ adjusted_time_sum stats = 0 /\ time_sum stats = 0)
  \/ (1 <= n
      /\ adjusted_time_sum stats
         = time_sum stats + mean_time_estimate stats * n
      /\ adjutsted_min stats
         = min_batch_time stats + mean_time_estimate stats
      /\ adjutsted_max stats
         = max_batch_time stats + mean_time_estimate stats
      /\ Int64.mul (min_batch_time stats) n = min_batch_time stats * n
      /\ Int64.mul (max_batch_time stats) n = max_batch_time stats * n).
Proof.
  unfold adjusted_time_sum, adjutsted_min, adjutsted_max.
  destruct (Z.eq_dec n 0) as [Hz|Hnz].
  - left. rewrite Hz in *. split; [reflexivity|].
    assert (Hs : time_sum stats = 0) by lia.
    rewrite Hs. unfold Int64.mul. rewrite Z.mul_0_r. split; reflexivity.
  - right. assert (Hn : 1 <= n) by lia.
    rewrite Z.max_r in times by lia.
    destruct (sums_small _ _ _ _ _ Hn sums greatest estimate least times)
      as (H1 & H2 & H3 & H4 & H5 & H6 & H7).
    split; [exact Hn|].
    rewrite (Int64Facts.mul_exact (mean_time_estimate stats))
      by (apply small_range; lia).
    rewrite !Int64Facts.add_exact, !Int64Facts.mul_exact
      by (apply small_range; lia).
    repeat split; reflexivity.
Qed.

(** The assertions on integers: the two on entry and the two on the
    adjusted sums. *)
Lemma integer_asserts :
  entry_asserts stats = true
  /\ (Int64.mul (adjutsted_min stats) n <=? adjusted_time_sum stats) = true
  /\ (Int64.mul (adjutsted_max stats) n >=? adjusted_time_sum stats) = true.
Proof.
  unfold entry_asserts.
  destruct adjusted_exact
    as [(Hz & Hadj & Hsum)|(Hn & Hadj & Hmin & Hmax & Elow & Ehigh)].
  - rewrite Hadj, Hsum, Hz. unfold Int64.mul. rewrite !Z.mul_0_r.
    repeat split; reflexivity.
  - rewrite Z.max_r in times by lia.
    destruct (sums_small _ _ _ _ _ Hn sums greatest estimate least times)
      as (H1 & H2 & H3 & H4 & H5 & H6 & H7).
    rewrite Elow, Ehigh, Hadj, Hmin, Hmax.
    assert (Hh : 0 <= (max_batch_time stats + mean_time_estimate stats) * n)
      by (apply Z.mul_nonneg_nonneg; lia).
    rewrite !Int64Facts.mul_exact by (apply small_range; lia).
    split; [apply andb_true_intro; split|split].
    + apply Z.leb_le. lia.
    + apply Z.geb_le. lia.
    + apply Z.leb_le. lia.
    + apply Z.geb_le. lia.
Qed.

(** The figures before the correction are regular numbers in order. *)
Lemma uncorrected_ordered :
  let '(mean_ms, min_ms, max_ms) := uncorrected stats runs_mult in
  regular mean_ms /\ regular min_ms /\ regular max_ms
  /\ Double.leb min_ms mean_ms = true /\ Double.leb mean_ms max_ms = true.
Proof.
  unfold uncorrected.
  destruct effective_exact as (Heff & Hiters & Hbnn & Hinn).
  rewrite Hiters, Heff.
  destruct (Z.eqb_spec (batch_size stats * runs_mult * n) 0) as [Hz|Hnz];
    cbn [negb]; [repeat split; reflexivity|].
  assert (Hn : 1 <= n).
  { destruct (Z.eq_dec n 0) as [E|E]; [|lia].
    rewrite E, Z.mul_0_r in Hnz. contradiction. }
  assert (Hb : 1 <= batch_size stats * runs_mult).
  { destruct (Z.eq_dec (batch_size stats * runs_mult) 0) as [E|E]; [|lia].
    rewrite E in Hnz. contradiction. }
  destruct adjusted_exact
    as [(Hz & _)|(_ & Hadj & Hmin & Hmax & _)]; [lia|].
  rewrite Hadj, Hmin, Hmax.
  destruct (products_small _ _ _ size mult count calls)
    as (_ & _ & HB & HnB).
  rewrite Z.max_r in times by lia.
  destruct (sums_small _ _ _ _ _ Hn sums greatest estimate least times)
    as (H1 & H2 & H3 & H4 & H5 & H6 & H7).
  unfold MILISECOND_NANOSECONDS.
  rewrite !Int64Facts.mul_exact by (apply small_range; lia).
  set (B := batch_size stats * runs_mult * 1000000) in *.
  assert (HnB' : batch_size stats * runs_mult * n * 1000000 = n * B)
    by (subst B; ring).
  rewrite HnB' in *.
  set (S' := time_sum stats + mean_time_estimate stats * n) in *.
  set (m' := min_batch_time stats + mean_time_estimate stats) in *.
  set (M' := max_batch_time stats + mean_time_estimate stats) in *.
  assert (HBpos : 0 < B) by (subst B; lia).
  assert (HnBpos : 0 < n * B) by (apply Z.mul_pos_pos; lia).
  assert (HM' : M' * 1 <= M' * n) by (apply Z.mul_le_mono_nonneg_l; lia).
  split; [apply quotient_regular; lia|].
  split; [apply quotient_regular; lia|].
  split; [apply quotient_regular; lia|].
  split.
  - apply quotients_ordered; try lia.
    replace (m' * (n * B)) with (m' * n * B) by ring.
    apply Z.mul_le_mono_nonneg_r; lia.
  - apply quotients_ordered; try lia.
    replace (M' * (n * B)) with (M' * n * B) by ring.
    apply Z.mul_le_mono_nonneg_r; lia.
Qed.

(** Every assertion of [process_stats] passes. *)
Lemma assertions_pass : process_stats_asserts stats runs_mult = true.
Proof.
  destruct effective_exact as (Heff & Hiters & Hbnn & Hinn).
  destruct integer_asserts as (Hentry & Hlow & Hhigh).
  pose proof uncorrected_ordered as Hfig.
  assert (Hsq : positive_finite
                  (sqrt_batch_size (effective_batch_size stats runs_mult)))
    by (apply sqrt_batch_size_positive;
        [rewrite Heff; exact Hbnn|apply effective_batch_size_range]).
  assert (Hdev : SFleb Double.zero
                   (Bench_Result.deviation_ms (process_stats stats runs_mult))
                 = true).
  { rewrite process_stats_deviation.
    apply nonneg_geb, nonneg_div;
      [now apply batch_deviation_nonneg|exact Hsq]. }
  unfold process_stats_asserts, middle_asserts, plausible.
  rewrite Hentry, Hlow, Hhigh, process_stats_iters, process_stats_batch_size.
  fold (effective_batch_size stats runs_mult).
  fold (total_iters stats runs_mult). rewrite Hiters, Heff.
  replace (batch_size stats * runs_mult * n >=? 0) with true
    by (symmetry; apply Z.geb_le; exact Hinn).
  replace (batch_size stats * runs_mult >=? 0) with true
    by (symmetry; apply Z.geb_le; exact Hbnn).
  unfold Double.geb, Double.leb. rewrite Hdev. clear Hdev.
  unfold process_stats.
  destruct (uncorrected stats runs_mult) as [[mean_ms min_ms] max_ms].
  destruct Hfig as (Rmean & Rmin & Rmax & Hlo & Hhi).
  cbn [Bench_Result.min_ms Bench_Result.mean_ms Bench_Result.max_ms].
  destruct (correction_ordered mean_ms min_ms max_ms _ Rmean Rmin Rmax
              Hlo Hhi Hsq) as (H1 & H2 & H3 & H4).
  unfold Double.leb in H1, H2, H3, H4.
  rewrite !leb_zero_regular by assumption.
  rewrite H1, H2, H3, H4. reflexivity.
Qed.

End Ordered.

(** C1, amended.  For statistics with [batch_count >= 0] and
    [batch_size >= 0] and a multiplier of at least 1 that keep the
    invariant of the data model ([min * count <= sum <= max * count],
    with [max >= 0], an estimate that is not negative and a least
    duration [min + estimate] that is not negative), and whose adjusted
    times and numbers of calls in nanoseconds stay below [2^53], so that
    they convert to [double] exactly: the result has [0 <= min <= mean <=
    max], a deviation, a batch size and a number of iterations that are
    not negative, its batch size is [batch_size * runs_mult] and its
    number of iterations that times [batch_count]; and every assertion
    of [process_stats] passes. *)
Theorem reduce_invariant :
  forall (stats : Bench_Stats) (runs_mult : Z),
    int64_sums stats ->
    0 <= batch_count stats ->
    0 <= batch_size stats ->
    1 <= runs_mult ->
    min_batch_time stats * batch_count stats <= time_sum stats
      <= max_batch_time stats * batch_count stats ->
    0 <= max_batch_time stats ->
    0 <= mean_time_estimate stats ->
    0 <= min_batch_time stats + mean_time_estimate stats ->
    (max_batch_time stats + mean_time_estimate stats)
      * Z.max 1 (batch_count stats) < 2 ^ 53 ->
    batch_size stats * runs_mult * Z.max 1 (batch_count stats)
      * MILISECOND_NANOSECONDS < 2 ^ 53 ->
    let r := process_stats stats runs_mult in
    Double.leb Double.zero (Bench_Result.min_ms r) = true
    /\ Double.leb (Bench_Result.min_ms r) (Bench_Result.mean_ms r) = true
    /\ Double.leb (Bench_Result.mean_ms r) (Bench_Result.max_ms r) = true
    /\ Double.leb Double.zero (Bench_Result.mean_ms r) = true
    /\ Double.leb Double.zero (Bench_Result.max_ms r) = true
    /\ Double.leb Double.zero (Bench_Result.deviation_ms r) = true
    /\ 0 <= Bench_Result.batch_size r
    /\ 0 <= Bench_Result.iters r
    /\ Bench_Result.batch_size r = batch_size stats * runs_mult
    /\ Bench_Result.iters r = Bench_Result.batch_size r * batch_count stats
    /\ process_stats_checked stats runs_mult = Some r.
Proof.
  intros stats runs_mult Hint Hcount Hsize Hmult Hsums Hgreatest Hest Hleast
         Htimes Hcalls r.
  destruct (effective_exact stats runs_mult Hcount Hsize Hmult Hcalls)
    as (Heff & Hiters & Hbnn & Hinn).
  pose proof (assertions_pass stats runs_mult Hint Hcount Hsize Hmult Hsums
                Hgreatest Hest Hleast Htimes Hcalls) as Hassert.
  assert (Hchecked : process_stats_checked stats runs_mult = Some r)
    by (unfold process_stats_checked; now rewrite Hassert).
  unfold process_stats_asserts in Hassert.
  apply andb_prop in Hassert. destruct Hassert as [_ Hplausible].
  fold r in Hplausible. unfold plausible, Double.geb in Hplausible.
  repeat (apply andb_prop in Hplausible;
          destruct Hplausible as [Hplausible ?]).
  match goal with H : _ && _ = true |- _ => apply andb_prop in H; destruct H end.
  assert (Hsz : Bench_Result.batch_size r = batch_size stats * runs_mult)
    by (subst r; rewrite process_stats_batch_size; exact Heff).
  assert (Hit : Bench_Result.iters r
                = batch_size stats * runs_mult * batch_count stats).
  { subst r. rewrite process_stats_iters.
    fold (effective_batch_size stats runs_mult).
    fold (total_iters stats runs_mult). exact Hiters. }
  unfold Double.leb.
  split; [assumption|]. split; [assumption|]. split; [assumption|].
  split; [assumption|]. split; [assumption|]. split; [assumption|].
  split; [rewrite Hsz; exact Hbnn|]. split; [rewrite Hit; exact Hinn|].
  split; [exact Hsz|]. split; [rewrite Hit, Hsz; reflexivity|].
  exact Hchecked.
Qed.

(** Four batches of three calls with deltas 5, 7, 8 and 20 around an
    estimate of 1000 ns. *)
Lemma deviation_formula_witness :
  let stats :=
    {| batch_count := 4; batch_size := 3; time_sum := 40;
       squared_time_sum := 538; min_batch_time := 5; max_batch_time := 20;
       mean_time_estimate := 1000 |} in
  Bench_Result.deviation_ms (process_stats stats 1) = deviation_spec stats 1
  /\ Double.geb (Bench_Result.deviation_ms (process_stats stats 1))
       Double.zero = true.
Proof.
  intros stats.
  destruct (deviation_formula stats 1) as (_ & _ & Hspec & Hgeb).
  - repeat split; vm_compute; discriminate.
  - vm_compute. discriminate.
  - split; [apply Hspec; vm_compute; discriminate | exact Hgeb].
Defined.

(** C5 as worded fails.  On the same statistics with a multiplier of 0
    every assertion of [process_stats] passes, the effective batch size
    is 0, and the deviation is the one over the batches divided by 1,
    where the root of the effective batch size is 0 and the formula
    gives an infinity.  With a multiplier of -1 the effective batch size
    is negative, its root is a NaN and so is the deviation, which then
    is not [>= 0]; and it is a NaN, not 0, for a single batch as well. *)
Lemma deviation_counterexample :
  let stats :=
    {| batch_count := 4; batch_size := 3; time_sum := 40;
       squared_time_sum := 538; min_batch_time := 5; max_batch_time := 20;
       mean_time_estimate := 1000 |} in
  let one_batch :=
    {| batch_count := 1; batch_size := 3; time_sum := 5;
       squared_time_sum := 25; min_batch_time := 5; max_batch_time := 5;
       mean_time_estimate := 1000 |} in
  (process_stats_checked stats 0 = Some (process_stats stats 0)
   /\ Bench_Result.deviation_ms (process_stats stats 0)
      = Double.div (batch_deviation_ms stats) Double.one
   /\ deviation_spec stats 0 = S754_infinity false
   /\ Bench_Result.deviation_ms (process_stats stats 0)
      <> deviation_spec stats 0)
  /\ (Bench_Result.deviation_ms (process_stats stats (-1)) = S754_nan
      /\ Double.geb (Bench_Result.deviation_ms (process_stats stats (-1)))
           Double.zero = false)
  /\ (batch_count one_batch <= 1
      /\ Bench_Result.deviation_ms (process_stats one_batch (-1)) = S754_nan).
Proof.
  vm_compute. repeat split; try reflexivity; discriminate.
Qed.

(** Four batches of three calls around an estimate of 1000 ns, twice in
    a logical unit. *)
Lemma reduce_invariant_witness :
  let stats :=
    {| batch_count := 4; batch_size := 3; time_sum := 40;
       squared_time_sum := 538; min_batch_time := 5; max_batch_time := 20;
       mean_time_estimate := 1000 |} in
  Double.leb (Bench_Result.min_ms (process_stats stats 2))
    (Bench_Result.mean_ms (process_stats stats 2)) = true
  /\ Bench_Result.iters (process_stats stats 2) = 24
  /\ process_stats_checked stats 2 = Some (process_stats stats 2).
Proof.
  intros stats.
  destruct (reduce_invariant stats 2)
    as (_ & Hmin & _ & _ & _ & _ & _ & _ & Hsize & Hiters & Hchecked).
  - repeat split; vm_compute; discriminate.
  - vm_compute. discriminate.
  - vm_compute. discriminate.
  - lia.
  - vm_compute. split; discriminate.
  - vm_compute. discriminate.
  - vm_compute. discriminate.
  - vm_compute. discriminate.
  - vm_compute. reflexivity.
  - vm_compute. reflexivity.
  - split; [exact Hmin|]. split; [|exact Hchecked].
    rewrite Hiters, Hsize. reflexivity.
Defined.

(** C1 as worded fails.  First: one batch, one call per batch, every
    count non-negative, the two assertions on entry passing, and a sum
    of -5 ms; the mean comes out as -5 and the assertions on the result
    fail.  Second: one batch with a sum of 5 ms below a minimum of
    10 ms; the minimum of the result is above its mean.  Third: three
    batches of [2^53 + 1] ns each, one call per batch; the assertions
    on entry and those before the correction pass, the conversions to
    [double] round, and the mean of the result is above its maximum. *)
Lemma reduce_counterexample :
  let stats :=
    {| batch_count := 1; batch_size := 1; time_sum := -5000000;
       squared_time_sum := 0; min_batch_time := -5000000;
       max_batch_time := -5000000; mean_time_estimate := 0 |} in
  let unordered :=
    {| batch_count := 1; batch_size := 1; time_sum := 5000000;
       squared_time_sum := 0; min_batch_time := 10000000;
       max_batch_time := 20000000; mean_time_estimate := 0 |} in
  let long :=
    {| batch_count := 3; batch_size := 1; time_sum := 3 * (2 ^ 53 + 1);
       squared_time_sum := 0; min_batch_time := 2 ^ 53 + 1;
       max_batch_time := 2 ^ 53 + 1; mean_time_estimate := 0 |} in
  (0 <= batch_count stats /\ 0 <= batch_size stats
   /\ entry_asserts stats = true
   /\ Double.ltb (Bench_Result.mean_ms (process_stats stats 1)) Double.zero
      = true
   /\ Double.geb (Bench_Result.mean_ms (process_stats stats 1)) Double.zero
      = false
   /\ process_stats_checked stats 1 = None)
  /\ (0 <= batch_count unordered /\ 0 <= batch_size unordered
      /\ Double.leb (Bench_Result.min_ms (process_stats unordered 1))
           (Bench_Result.mean_ms (process_stats unordered 1)) = false
      /\ process_stats_checked unordered 1 = None)
  /\ (0 <= batch_count long /\ 0 <= batch_size long
      /\ entry_asserts long = true
      /\ middle_asserts long 1 = true
      /\ Double.leb (Bench_Result.mean_ms (process_stats long 1))
           (Bench_Result.max_ms (process_stats long 1)) = false
      /\ plausible (process_stats long 1) = false
      /\ process_stats_checked long 1 = None).
Proof. vm_compute. repeat split; discriminate. Qed.

(** ** A measured function that rejects every batch *)


Section Rejecting.

Context {W : Type}.
Variable clock_ns : W -> Z * W.
Variable measured_fn : W -> bool * W.
Variables start max_time_ns batch_time_ns min_batch_size min_end_checks : Z.

Hypothesis rejects : forall w, fst (measured_fn w) = false.
Hypothesis min_batch_size_pos : 1 <= min_batch_size.





End Rejecting.



(** ** Phases of a run *)

Section Phases.

Context {W : Type}.
Variable clock_ns : W -> Z * W.
Variable measured_fn : W -> bool * W.
Variables start max_time_ns batch_time_ns min_batch_size min_end_checks : Z.

Local Abbreviation step :=
  (gather_step clock_ns measured_fn start max_time_ns batch_time_ns
     min_batch_size min_end_checks).
Local Abbreviation loop :=
  (gather_loop clock_ns measured_fn start max_time_ns batch_time_ns
     min_batch_size min_end_checks).
Local Abbreviation iter :=
  (gather_iter clock_ns measured_fn start max_time_ns batch_time_ns
     min_batch_size min_end_checks).

(** Once the deadline is the end of the run, an iteration changes
    neither the batch size nor the estimate, and it ends the run or
    keeps the deadline. *)
Lemma final_phase_step s w :
  to_time s = max_time_ns ->
  batch_size (boundary_stats (step s w)) = batch_size (stats s)
  /\ mean_time_estimate (boundary_stats (step s w))
     = mean_time_estimate (stats s)
  /\ match step s w with
     | Continue s' _ => to_time s' = max_time_ns
     | Break _ _ => True
     end.
Proof.
  intros Hfinal.
  destruct (step_cases clock_ns measured_fn start max_time_ns batch_time_ns
              min_batch_size min_end_checks s w) as (stats1 & Hstats & Hcases).
  cbv zeta in Hcases.
  assert (Hframe : batch_size stats1 = batch_size (stats s)
                   /\ mean_time_estimate stats1 = mean_time_estimate (stats s))
    by (destruct Hstats as [->| ->]; split; reflexivity).
  destruct Hcases as [[_ E]|[[Hrs _]|(_ & _ & E)]]; [| lia |];
    rewrite E; cbn [boundary_stats stats to_time]; tauto.
Qed.

Lemma final_phase_iter s w :
  to_time s = max_time_ns ->
  forall k,
    batch_size (boundary_stats (iter k s w)) = batch_size (stats s)
    /\ mean_time_estimate (boundary_stats (iter k s w))
       = mean_time_estimate (stats s)
    /\ match iter k s w with
       | Continue s' _ => to_time s' = max_time_ns
       | Break _ _ => True
       end.
Proof.
  intros Hfinal. induction k as [|k (IHs & IHe & IHt)]; [simpl; auto|].
  cbn [gather_iter].
  destruct (iter k s w) as [s' w'|result w']; [|simpl in *; auto].
  cbn [boundary_stats] in IHs, IHe.
  destruct (final_phase_step s' w' IHt) as (Hs & He & Ht).
  rewrite Hs, He. auto.
Qed.

(** In the final phase the batch size in force never changes. *)
Lemma final_phase_sizes k : forall s w,
  to_time s = max_time_ns ->
  exists n,
    batch_sizes clock_ns measured_fn start max_time_ns batch_time_ns
      min_batch_size min_end_checks k s w
    = repeat (batch_size (stats s)) n.
Proof.
  induction k as [|k IH]; intros s w Hfinal; [now exists O|].
  cbn [batch_sizes].
  destruct (final_phase_step s w Hfinal) as (Hs & _ & Ht).
  destruct (step s w) as [s' w'|result w'].
  - destruct (IH s' w' Ht) as [n Hn]. exists (S n).
    rewrite Hn. cbn [boundary_stats] in Hs. now rewrite Hs.
  - now exists 1%nat.
Qed.

(** From the first phase on: batches of [min_batch_size], then batches
    of one other size. *)
Lemma two_phase_sizes k : forall s w,
  batch_size (stats s) = min_batch_size ->
  exists a b c,
    batch_sizes clock_ns measured_fn start max_time_ns batch_time_ns
      min_batch_size min_end_checks k s w
    = repeat min_batch_size a ++ repeat b c
    /\ min_batch_size <= b.
Proof.
  induction k as [|k IH]; intros s w Hsize.
  { exists O, min_batch_size, O. split; [reflexivity|lia]. }
  cbn [batch_sizes]. rewrite Hsize.
  destruct (step_cases clock_ns measured_fn start max_time_ns batch_time_ns
              min_batch_size min_end_checks s w) as (stats1 & Hstats & Hcases).
  cbv zeta in Hcases.
  assert (Hsize1 : batch_size stats1 = min_batch_size)
    by (destruct Hstats as [->| ->]; exact Hsize).
  destruct Hcases as [[_ E]|[[_ E]|(_ & _ & E)]]; rewrite E.
  - match goal with
    | |- context [batch_sizes _ _ _ _ _ _ _ k ?s' ?w'] =>
        destruct (IH s' w' Hsize1) as (a & b & c & Hl & Hb)
    end.
    exists (S a), b, c. rewrite Hl. split; [reflexivity|exact Hb].
  - match goal with
    | |- context [batch_sizes _ _ _ _ _ _ _ k ?s' ?w'] =>
        destruct (final_phase_sizes k s' w' eq_refl) as [n Hn];
        exists 1%nat, (batch_size (stats s')), n
    end.
    rewrite Hn. split; [reflexivity|].
    cbn [stats]. apply resize_batch_size.
  - exists 1%nat, min_batch_size, O. split; [reflexivity|lia].
Qed.

Lemma iter_batch_size s w :
  min_batch_size <= batch_size (stats s) ->
  forall k, min_batch_size <= batch_size (boundary_stats (iter k s w)).
Proof.
  intros Hsize. induction k as [|k IH]; [exact Hsize|].
  cbn [gather_iter].
  destruct (iter k s w) as [s' w'|result w']; [|exact IH].
  cbn [boundary_stats] in IH.
  destruct (step_cases clock_ns measured_fn start max_time_ns batch_time_ns
              min_batch_size min_end_checks s' w')
    as (stats1 & Hstats & Hcases).
  cbv zeta in Hcases.
  assert (Hsize1 : min_batch_size <= batch_size stats1)
    by (destruct Hstats as [->| ->]; exact IH).
  destruct Hcases as [[_ E]|[[_ E]|(_ & _ & E)]]; rewrite E;
    cbn [boundary_stats stats]; try exact Hsize1.
  apply resize_batch_size.
Qed.

(** The loop leaves at a clock read that shows more than [max_time_ns]
    since the start. *)
Lemma loop_leaves_late fuel : forall s w result w',
  loop fuel s w = Some (result, w') ->
  exists w0,
    w' = snd (clock_ns w0)
    /\ max_time_ns < Int64.sub (reading clock_ns w0) start.
Proof.
  induction fuel as [|fuel IH]; intros s w result w' Hloop; [discriminate|].
  cbn [gather_loop] in Hloop.
  destruct (step_cases clock_ns measured_fn start max_time_ns batch_time_ns
              min_batch_size min_end_checks s w) as (stats1 & _ & Hcases).
  cbv zeta in Hcases.
  destruct Hcases as [[_ E]|[[_ E]|(_ & Hlate & E)]]; rewrite E in Hloop.
  - now apply IH in Hloop.
  - now apply IH in Hloop.
  - inversion Hloop; subst. eexists. split; [reflexivity|exact Hlate].
Qed.

(** While the loop goes on, the last read was within the budget. *)
Lemma iter_in_time s w :
  to_time s <= max_time_ns ->
  forall k s' w',
    iter (S k) s w = Continue s' w' ->
    Int64.sub (from s') start <= max_time_ns /\ to_time s' <= max_time_ns.
Proof.
  intros Hdl.
  assert (Hstep : forall s1 w1 s2 w2,
    to_time s1 <= max_time_ns -> step s1 w1 = Continue s2 w2 ->
    Int64.sub (from s2) start <= max_time_ns /\ to_time s2 <= max_time_ns).
  { intros s1 w1 s2 w2 H1 Hs.
    destruct (step_cases clock_ns measured_fn start max_time_ns batch_time_ns
                min_batch_size min_end_checks s1 w1)
      as (stats1 & _ & Hcases).
    cbv zeta in Hcases.
    destruct Hcases as [[Hle E]|[[Hrs E]|(_ & _ & E)]]; rewrite E in Hs;
      inversion Hs; subst; cbn [from to_time]; lia. }
  induction k as [|k IH]; intros s' w' Hiter.
  - cbn [gather_iter] in Hiter. now apply (Hstep s w s' w').
  - change (iter (S (S k)) s w)
      with (match iter (S k) s w with
            | Continue s1 w1 => step s1 w1
            | Break result w1 => Break result w1
            end) in Hiter.
    destruct (iter (S k) s w) as [s1 w1|r1 w1]; [|discriminate].
    destruct (IH s1 w1 eq_refl) as [_ Hdl1].
    now apply (Hstep s1 w1 s' w').
Qed.

End Phases.

(** X1.  Without a warm-up time ([warm_up_ns <= 0], or one above
    [max_time_ns]) the first deadline is the end of the run and the
    sampler never resizes, whatever the clock and the measured function
    do: at every boundary of the loop and in the statistics it returns
    the batch size is [min_batch_size] and the estimate is 0. *)
Theorem no_warm_up_never_resizes :
  forall (W : Type) (clock_ns : W -> Z * W) (measured_fn : W -> bool * W)
         (max_time_ns warm_up_ns batch_time_ns min_batch_size min_end_checks
          : Z) (w : W),
    warm_up_ns <= 0 \/ max_time_ns < warm_up_ns ->
    let start := reading clock_ns w in
    let s0 := {| stats := initial_stats min_batch_size;
                 to_time := first_deadline max_time_ns warm_up_ns;
                 from := start |} in
    (forall k : nat,
       let st := boundary_stats
                   (gather_iter clock_ns measured_fn start max_time_ns
                      (clamp_batch_time batch_time_ns) min_batch_size
                      min_end_checks k s0 (snd (clock_ns w))) in
       batch_size st = min_batch_size /\ mean_time_estimate st = 0)
    /\ (forall (fuel : nat) result w',
          gather_bench_stats clock_ns measured_fn fuel max_time_ns warm_up_ns
            batch_time_ns min_batch_size min_end_checks w
          = Some (result, w') ->
          batch_size result = min_batch_size
          /\ mean_time_estimate result = 0).
Proof.
  intros W clock_ns measured_fn max_time_ns warm_up_ns batch_time_ns
         min_batch_size min_end_checks w Hwarm start s0.
  assert (Hfinal : to_time s0 = max_time_ns).
  { subst s0. cbn [to_time]. unfold first_deadline.
    destruct (Z.gtb_spec warm_up_ns max_time_ns); [reflexivity|].
    destruct (Z.leb_spec warm_up_ns 0); [reflexivity|lia]. }
  assert (Hall : forall k : nat,
    let st := boundary_stats
                (gather_iter clock_ns measured_fn start max_time_ns
                   (clamp_batch_time batch_time_ns) min_batch_size
                   min_end_checks k s0 (snd (clock_ns w))) in
    batch_size st = min_batch_size /\ mean_time_estimate st = 0).
  { intros k st. subst st.
    destruct (final_phase_iter clock_ns measured_fn start max_time_ns
                (clamp_batch_time batch_time_ns) min_batch_size
                min_end_checks s0 (snd (clock_ns w)) Hfinal k)
      as (Hs & He & _).
    rewrite Hs, He. split; reflexivity. }
  split; [exact Hall|].
  intros fuel result w' Hrun.
  rewrite gather_bench_stats_unfold in Hrun.
  specialize (Hall fuel). cbv zeta in Hall.
  unfold s0, start in Hall.
  now rewrite (loop_iter _ _ _ _ _ _ _ _ _ _ _ _ Hrun) in Hall.
Qed.

(** A 10 ns run without warm-up on a clock that a read advances by 1 ns
    and a call by 3 ns. *)
Lemma no_warm_up_never_resizes_witness :
  exists result w',
    gather_bench_stats (ticking_clock 1) (steady_fn true 3) 10 10 0 2 1 5 0%N
    = Some (result, w')
    /\ batch_size result = 1 /\ mean_time_estimate result = 0.
Proof.
  assert (H : forall result w',
    gather_bench_stats (ticking_clock 1) (steady_fn true 3) 10 10 0 2 1 5 0%N
    = Some (result, w') ->
    gather_bench_stats (ticking_clock 1) (steady_fn true 3) 10 10 0 2 1 5 0%N
    = Some (result, w')
    /\ batch_size result = 1 /\ mean_time_estimate result = 0).
  { intros result w' Hrun. split; [exact Hrun|].
    refine (proj2 (no_warm_up_never_resizes N (ticking_clock 1)
                     (steady_fn true 3) 10 0 2 1 5 0%N _)
              10%nat result w' Hrun).
    lia. }
  eexists. eexists. apply H. vm_compute. reflexivity.
Defined.

(** X2.  The sampler resizes at most once.  The batch sizes in force
    over the iterations of a run are [min_batch_size] some number of
    times, then one other size that is not below [min_batch_size]; so
    the batch size is never below [min_batch_size], at a boundary of
    the loop or in the statistics returned. *)
Theorem resizes_at_most_once :
  forall (W : Type) (clock_ns : W -> Z * W) (measured_fn : W -> bool * W)
         (max_time_ns warm_up_ns batch_time_ns min_batch_size min_end_checks
          : Z) (w : W),
    let start := reading clock_ns w in
    let s0 := {| stats := initial_stats min_batch_size;
                 to_time := first_deadline max_time_ns warm_up_ns;
                 from := start |} in
    let w1 := snd (clock_ns w) in
    (forall k : nat,
       exists (a : nat) (b : Z) (c : nat),
         batch_sizes clock_ns measured_fn start max_time_ns
           (clamp_batch_time batch_time_ns) min_batch_size min_end_checks
           k s0 w1
         = repeat min_batch_size a ++ repeat b c
         /\ min_batch_size <= b)
    /\ (forall k : nat,
          min_batch_size
          <= batch_size
               (boundary_stats
                  (gather_iter clock_ns measured_fn start max_time_ns
                     (clamp_batch_time batch_time_ns) min_batch_size
                     min_end_checks k s0 w1)))
    /\ (forall (fuel : nat) result w',
          gather_bench_stats clock_ns measured_fn fuel max_time_ns warm_up_ns
            batch_time_ns min_batch_size min_end_checks w
          = Some (result, w') ->
          min_batch_size <= batch_size result).
Proof.
  intros W clock_ns measured_fn max_time_ns warm_up_ns batch_time_ns
         min_batch_size min_end_checks w start s0 w1.
  assert (Hall : forall k : nat,
    min_batch_size
    <= batch_size
         (boundary_stats
            (gather_iter clock_ns measured_fn start max_time_ns
               (clamp_batch_time batch_time_ns) min_batch_size
               min_end_checks k s0 w1))).
  { apply iter_batch_size. subst s0. cbn [stats initial_stats batch_size].
    lia. }
  split; [|split; [exact Hall|]].
  - intros k. apply two_phase_sizes. reflexivity.
  - intros fuel result w' Hrun.
    rewrite gather_bench_stats_unfold in Hrun.
    specialize (Hall fuel). unfold s0, w1, start in Hall.
    now rewrite (loop_iter _ _ _ _ _ _ _ _ _ _ _ _ Hrun) in Hall.
Qed.

(** A run of 40 ns with 12 ns of warm-up, a read and a call taking 1 ns
    each: seven batches of one call, then batches of two. *)
Lemma resizes_at_most_once_witness :
  batch_sizes (ticking_clock 1) (steady_fn true 1) 0 40 10 1 5 9
    {| stats := initial_stats 1; to_time := 12; from := 0 |} 1%N
  = [1; 1; 1; 1; 1; 1; 1; 2; 2]
  /\ exists result w',
       gather_bench_stats (ticking_clock 1) (steady_fn true 1) 20 40 12 10 1 5
         0%N = Some (result, w')
       /\ 1 <= batch_size result.
Proof.
  split; [vm_compute; reflexivity|].
  assert (H : forall result w',
    gather_bench_stats (ticking_clock 1) (steady_fn true 1) 20 40 12 10 1 5
      0%N = Some (result, w') ->
    gather_bench_stats (ticking_clock 1) (steady_fn true 1) 20 40 12 10 1 5
      0%N = Some (result, w')
    /\ 1 <= batch_size result).
  { intros result w' Hrun. split; [exact Hrun|].
    exact (proj2 (proj2 (resizes_at_most_once N (ticking_clock 1)
                           (steady_fn true 1) 40 12 10 1 5 0%N))
             20%nat result w' Hrun). }
  eexists. eexists. apply H. vm_compute. reflexivity.
Defined.

(** X3.  The sampler stops at the first batch whose closing clock read
    shows more than [max_time_ns] since the first read, in 64-bit
    arithmetic: it returns right after such a read, and whenever the
    loop goes on after a batch, the read that closed the batch showed
    at most [max_time_ns]. *)
Theorem returns_only_past_budget :
  forall (W : Type) (clock_ns : W -> Z * W) (measured_fn : W -> bool * W)
         (max_time_ns warm_up_ns batch_time_ns min_batch_size min_end_checks
          : Z) (w : W),
    let start := reading clock_ns w in
    let s0 := {| stats := initial_stats min_batch_size;
                 to_time := first_deadline max_time_ns warm_up_ns;
                 from := start |} in
    (forall (fuel : nat) result w',
       gather_bench_stats clock_ns measured_fn fuel max_time_ns warm_up_ns
         batch_time_ns min_batch_size min_end_checks w
       = Some (result, w') ->
       exists w0,
         w' = snd (clock_ns w0)
         /\ max_time_ns < Int64.sub (reading clock_ns w0) start)
    /\ (forall (k : nat) s w',
          gather_iter clock_ns measured_fn start max_time_ns
            (clamp_batch_time batch_time_ns) min_batch_size min_end_checks
            (S k) s0 (snd (clock_ns w))
          = Continue s w' ->
          Int64.sub (from s) start <= max_time_ns).
Proof.
  intros W clock_ns measured_fn max_time_ns warm_up_ns batch_time_ns
         min_batch_size min_end_checks w start s0.
  split.
  - intros fuel result w' Hrun.
    rewrite gather_bench_stats_unfold in Hrun.
    exact (loop_leaves_late _ _ _ _ _ _ _ _ _ _ _ _ Hrun).
  - intros k s w' Hiter.
    refine (proj1 (iter_in_time _ _ _ _ _ _ _ s0 _ _ k s w' Hiter)).
    subst s0. cbn [to_time]. unfold first_deadline.
    destruct (Z.gtb_spec warm_up_ns max_time_ns); [cbn [orb]; lia|].
    destruct (Z.leb_spec warm_up_ns 0); cbn [orb]; lia.
Qed.

(** A 10 ns run: the read that ends it shows 12 ns. *)
Lemma returns_only_past_budget_witness :
  exists result w', exists w0,
    gather_bench_stats (ticking_clock 1) (steady_fn true 3) 10 10 0 2 1 5 0%N
    = Some (result, w')
    /\ w' = snd (ticking_clock 1 w0)
    /\ 10 < Int64.sub (reading (ticking_clock 1) w0) 0.
Proof.
  assert (H : forall result w',
    gather_bench_stats (ticking_clock 1) (steady_fn true 3) 10 10 0 2 1 5 0%N
    = Some (result, w') ->
    exists w0,
      gather_bench_stats (ticking_clock 1) (steady_fn true 3) 10 10 0 2 1 5
        0%N = Some (result, w')
      /\ w' = snd (ticking_clock 1 w0)
      /\ 10 < Int64.sub (reading (ticking_clock 1) w0) 0).
  { intros result w' Hrun.
    destruct (proj1 (returns_only_past_budget N (ticking_clock 1)
                       (steady_fn true 3) 10 0 2 1 5 0%N)
                10%nat result w' Hrun) as (w0 & Hw & Hlate).
    exists w0. split; [exact Hrun|]. split; assumption. }
  eexists. eexists. apply H. vm_compute. reflexivity.
Defined.

(** ** Deltas and durations *)

(** Wrapping moves a number by a multiple of [2^64], and numbers that
    differ by such a multiple wrap to the same value. *)
Lemma wrap_shift z : exists k, Int64.wrap z = z + k * Int64.modulus.
Proof.
  unfold Int64.wrap.
  exists (- ((z + Int64.half_modulus) / Int64.modulus)).
  pose proof (Z.div_mod (z + Int64.half_modulus) Int64.modulus
                ltac:(unfold Int64.modulus; lia)).
  lia.
Qed.

Lemma wrap_eq a b k : a = b + k * Int64.modulus -> Int64.wrap a = Int64.wrap b.
Proof.
  intros ->. unfold Int64.wrap.
  replace (b + k * Int64.modulus + Int64.half_modulus)
    with (b + Int64.half_modulus + k * Int64.modulus) by ring.
  now rewrite Z.mod_add by (unfold Int64.modulus; lia).
Qed.

Lemma adjusted_sum_accumulate st bt :
  adjusted_time_sum (accumulate st bt) = Int64.add (adjusted_time_sum st) bt.
Proof.
  unfold adjusted_time_sum, accumulate, Int64.add, Int64.sub, Int64.mul.
  cbn [time_sum mean_time_estimate batch_count].
  destruct (wrap_shift (bt - mean_time_estimate st)) as [k1 ->].
  destruct (wrap_shift (time_sum st
                        + (bt - mean_time_estimate st + k1 * Int64.modulus)))
    as [k2 ->].
  destruct (wrap_shift (batch_count st + 1)) as [k3 ->].
  destruct (wrap_shift (mean_time_estimate st
                        * (batch_count st + 1 + k3 * Int64.modulus)))
    as [k4 ->].
  destruct (wrap_shift (mean_time_estimate st * batch_count st)) as [k5 ->].
  destruct (wrap_shift (time_sum st
                        + (mean_time_estimate st * batch_count st
                           + k5 * Int64.modulus))) as [k6 ->].
  apply (wrap_eq _ _ (k1 + k2 + mean_time_estimate st * k3 + k4 - k5 - k6)).
  ring.
Qed.

Lemma adjusted_sum_fold ds : forall st,
  adjusted_time_sum (fold_left accumulate ds st)
  = Int64.wrap (adjusted_time_sum st + list_sum ds).
Proof.
  induction ds as [|d ds IH]; intros st.
  - cbn [fold_left list_sum fold_right]. rewrite Z.add_0_r.
    symmetry. apply Int64Facts.wrap_id. unfold adjusted_time_sum, Int64.add.
    apply Int64Facts.wrap_range.
  - cbn [fold_left]. rewrite IH, adjusted_sum_accumulate.
    unfold Int64.add. rewrite Int64Facts.wrap_add_l.
    f_equal. unfold list_sum. cbn [fold_right]. lia.
Qed.

Lemma batch_count_fold ds : forall st,
  Int64.in_range (batch_count st) ->
  batch_count (fold_left accumulate ds st)
  = Int64.wrap (batch_count st + Z.of_nat (length ds)).
Proof.
  induction ds as [|d ds IH]; intros st Hr.
  - cbn [fold_left length]. rewrite Z.add_0_r.
    symmetry. now apply Int64Facts.wrap_id.
  - cbn [fold_left length]. rewrite IH
      by (cbn [accumulate batch_count]; apply Int64Facts.wrap_range).
    cbn [accumulate batch_count]. unfold Int64.add.
    rewrite Int64Facts.wrap_add_l. f_equal. lia.
Qed.

Lemma adjusted_min_accumulate st bt :
  Int64.in_range bt ->
  Int64.in_range (bt - mean_time_estimate st) ->
  Int64.in_range (min_batch_time st + mean_time_estimate st) ->
  adjutsted_min (accumulate st bt) = Z.min (adjutsted_min st) bt.
Proof.
  intros Hbt Hd Hm. unfold adjutsted_min, accumulate.
  cbn [min_batch_time mean_time_estimate].
  rewrite (Int64Facts.sub_exact bt) by exact Hd.
  rewrite (Int64Facts.add_exact (min_batch_time st)) by exact Hm.
  destruct (Z.gtb_spec (min_batch_time st) (bt - mean_time_estimate st)).
  - rewrite Int64Facts.add_exact;
      [lia | replace (bt - mean_time_estimate st + mean_time_estimate st)
               with bt by ring; exact Hbt].
  - rewrite Int64Facts.add_exact by exact Hm. lia.
Qed.

Lemma adjusted_max_accumulate st bt :
  Int64.in_range bt ->
  Int64.in_range (bt - mean_time_estimate st) ->
  Int64.in_range (max_batch_time st + mean_time_estimate st) ->
  adjutsted_max (accumulate st bt) = Z.max (adjutsted_max st) bt.
Proof.
  intros Hbt Hd Hm. unfold adjutsted_max, accumulate.
  cbn [max_batch_time mean_time_estimate].
  rewrite (Int64Facts.sub_exact bt) by exact Hd.
  rewrite (Int64Facts.add_exact (max_batch_time st)) by exact Hm.
  destruct (Z.ltb_spec (max_batch_time st) (bt - mean_time_estimate st)).
  - rewrite Int64Facts.add_exact;
      [lia | replace (bt - mean_time_estimate st + mean_time_estimate st)
               with bt by ring; exact Hbt].
  - rewrite Int64Facts.add_exact by exact Hm. lia.
Qed.

(** X4.  Tracking deltas and adding the estimate back is the same as
    tracking the durations.  The adjusted sum of [process_stats] grows
    by exactly the duration of each kept batch, in 64-bit arithmetic and
    whatever overflowed on the way; after any number of kept batches it
    is the adjusted sum before them plus their durations, and the batch
    count is the count before them plus their number.  With the
    duration, the delta and the adjusted bound within [int64_t], the
    adjusted minimum and maximum are the minimum and the maximum with
    the duration. *)
Theorem adding_back_the_estimate :
  forall (st : Bench_Stats) (bt : Z) (ds : list Z),
    adjusted_time_sum (accumulate st bt) = Int64.add (adjusted_time_sum st) bt
    /\ adjusted_time_sum (fold_left accumulate ds st)
       = Int64.wrap (adjusted_time_sum st + list_sum ds)
    /\ (Int64.in_range (batch_count st) ->
        batch_count (fold_left accumulate ds st)
        = Int64.wrap (batch_count st + Z.of_nat (length ds)))
    /\ (Int64.in_range bt ->
        Int64.in_range (bt - mean_time_estimate st) ->
        (Int64.in_range (min_batch_time st + mean_time_estimate st) ->
         adjutsted_min (accumulate st bt) = Z.min (adjutsted_min st) bt)
        /\ (Int64.in_range (max_batch_time st + mean_time_estimate st) ->
            adjutsted_max (accumulate st bt) = Z.max (adjutsted_max st) bt)).
Proof.
  intros st bt ds.
  split; [apply adjusted_sum_accumulate|].
  split; [apply adjusted_sum_fold|].
  split; [apply batch_count_fold|].
  intros Hbt Hd. split; intros Hm.
  - now apply adjusted_min_accumulate.
  - now apply adjusted_max_accumulate.
Qed.

(** A batch of 1003 ns joins four batches around an estimate of
    1000 ns. *)
Lemma adding_back_the_estimate_witness :
  let st := {| batch_count := 4; batch_size := 3; time_sum := 40;
               squared_time_sum := 538; min_batch_time := 5;
               max_batch_time := 20; mean_time_estimate := 1000 |} in
  adjusted_time_sum (accumulate st 1003) = 5043
  /\ adjutsted_min (accumulate st 1003) = 1003
  /\ adjutsted_max (accumulate st 1003) = 1020.
Proof.
  intros st.
  destruct (adding_back_the_estimate st 1003 []) as (Hsum & _ & _ & Hext).
  destruct Hext as [Hmin Hmax];
    [vm_compute; split; discriminate | vm_compute; split; discriminate |].
  rewrite Hsum, Hmin, Hmax by (vm_compute; split; discriminate).
  repeat split; reflexivity.
Defined.

(** ** The statistics as a fold over the kept batches *)

Section Folded.

Context {W : Type}.
Variable clock_ns : W -> Z * W.
Variable measured_fn : W -> bool * W.
Variables start max_time_ns batch_time_ns min_batch_size min_end_checks : Z.

Local Abbreviation step :=
  (gather_step clock_ns measured_fn start max_time_ns batch_time_ns
     min_batch_size min_end_checks).
Local Abbreviation loop :=
  (gather_loop clock_ns measured_fn start max_time_ns batch_time_ns
     min_batch_size min_end_checks).
Local Abbreviation batches :=
  (executed_batches clock_ns measured_fn start max_time_ns batch_time_ns
     min_batch_size min_end_checks).
Local Abbreviation resized st total :=
  (resize st total max_time_ns batch_time_ns min_batch_size min_end_checks).

(** One iteration in terms of what it observes: the answers of the
    batch and the clock read after it. *)
Lemma step_observed s w :
  let r := batch_results measured_fn (Z.to_nat (batch_size (stats s))) w in
  let now := fst (clock_ns (snd r)) in
  step s w
  = check_deadline start max_time_ns batch_time_ns min_batch_size
      min_end_checks (to_time s)
      (fold_left accumulate (kept_batches [(fst r, now)] (from s)) (stats s))
      now (snd (clock_ns (snd r))).
Proof.
  unfold gather_step. rewrite measure_batch_results. cbv zeta.
  cbn [kept_batches]. rewrite app_nil_r.
  now destruct (forallb _ _).
Qed.

Lemma kept_batches_cons answers now rest from0 st :
  fold_left accumulate (kept_batches ((answers, now) :: rest) from0) st
  = fold_left accumulate (kept_batches rest now)
      (fold_left accumulate (kept_batches [(answers, now)] from0) st).
Proof.
  cbn [kept_batches]. now rewrite app_nil_r, fold_left_app.
Qed.

(** In the final phase the result is the fold over the kept batches. *)
Lemma final_phase_fold fuel : forall s w result w',
  to_time s = max_time_ns ->
  loop fuel s w = Some (result, w') ->
  result
  = fold_left accumulate (kept_batches (batches fuel s w) (from s)) (stats s).
Proof.
  induction fuel as [|fuel IH]; intros s w result w' Hfinal Hloop;
    [discriminate|].
  cbn [gather_loop executed_batches] in *.
  rewrite kept_batches_cons.
  rewrite step_observed in *. cbv zeta in *.
  set (r := batch_results measured_fn _ w) in *.
  set (now := fst (clock_ns (snd r))) in *.
  set (stats1 := fold_left accumulate (kept_batches [(fst r, now)] (from s))
                   (stats s)) in *.
  unfold check_deadline in *. rewrite Hfinal in *.
  destruct (Int64.sub now start >? max_time_ns).
  - inversion Hloop; subst. reflexivity.
  - now apply IH in Hloop.
Qed.

(** In the final phase every batch but the last ends within the budget,
    and the last one ends past it. *)
Lemma final_phase_shape fuel : forall s w result w',
  to_time s = max_time_ns ->
  loop fuel s w = Some (result, w') ->
  exists mid last,
    batches fuel s w = mid ++ [last]
    /\ Forall (fun b => Int64.sub (snd b) start <= max_time_ns) mid
    /\ max_time_ns < Int64.sub (snd last) start.
Proof.
  induction fuel as [|fuel IH]; intros s w result w' Hfinal Hloop;
    [discriminate|].
  cbn [gather_loop executed_batches] in *.
  rewrite step_observed in *. cbv zeta in *.
  set (r := batch_results measured_fn _ w) in *.
  set (now := fst (clock_ns (snd r))) in *.
  unfold check_deadline in *. rewrite Hfinal in *.
  destruct (Z.gtb_spec (Int64.sub now start) max_time_ns) as [Hover|Hin].
  - exists [], (fst r, now). split; [reflexivity|].
    split; [constructor|exact Hover].
  - apply IH in Hloop; [|reflexivity].
    destruct Hloop as (mid & last & Hb & Hmid & Hlast).
    exists ((fst r, now) :: mid), last. rewrite Hb.
    split; [reflexivity|]. split; [constructor; [exact Hin|exact Hmid]|].
    exact Hlast.
Qed.

(** The two courses of a run.  Without a resize, each batch but the last
    ends within the deadline of the phase and the last one ends past the
    budget.  With one, it happens at the first batch that ends past the
    deadline and within the budget, and the final phase follows. *)
Lemma run_fold fuel : forall s w result w',
  loop fuel s w = Some (result, w') ->
  (exists pre last,
     batches fuel s w = pre ++ [last]
     /\ Forall (fun b => Int64.sub (snd b) start <= to_time s) pre
     /\ to_time s < Int64.sub (snd last) start
     /\ max_time_ns < Int64.sub (snd last) start
     /\ result
        = fold_left accumulate (kept_batches (batches fuel s w) (from s))
            (stats s))
  \/ exists pre answers now mid last,
       batches fuel s w = pre ++ (answers, now) :: mid ++ [last]
       /\ Forall (fun b => Int64.sub (snd b) start <= to_time s) pre
       /\ to_time s < Int64.sub now start <= max_time_ns
       /\ Forall (fun b => Int64.sub (snd b) start <= max_time_ns) mid
       /\ max_time_ns < Int64.sub (snd last) start
       /\ result
          = fold_left accumulate (kept_batches (mid ++ [last]) now)
              (resized
                 (fold_left accumulate
                    (kept_batches (pre ++ [(answers, now)]) (from s))
                    (stats s))
                 (Int64.sub now start)).
Proof.
  induction fuel as [|fuel IH]; intros s w result w' Hloop; [discriminate|].
  cbn [gather_loop executed_batches] in *.
  rewrite kept_batches_cons.
  rewrite step_observed in *. cbv zeta in *.
  set (r := batch_results measured_fn _ w) in *.
  set (now := fst (clock_ns (snd r))) in *.
  set (stats1 := fold_left accumulate (kept_batches [(fst r, now)] (from s))
                   (stats s)) in *.
  unfold check_deadline in *.
  destruct (Z.gtb_spec (Int64.sub now start) (to_time s)) as [Hpast|Hnot].
  - destruct (Z.gtb_spec (Int64.sub now start) max_time_ns) as [Hover|Hin].
    + inversion Hloop; subst. left. exists [], (fst r, now).
      split; [reflexivity|]. split; [constructor|].
      split; [exact Hpast|]. split; [exact Hover|reflexivity].
    + right.
      pose proof Hloop as Hshape.
      apply final_phase_shape in Hshape; [|reflexivity].
      destruct Hshape as (mid & last & Hb & Hmid & Hlast).
      exists [], (fst r), now, mid, last. rewrite Hb.
      split; [reflexivity|]. split; [constructor|]. split; [lia|].
      split; [exact Hmid|]. split; [exact Hlast|].
      apply final_phase_fold in Hloop; [|reflexivity].
      rewrite Hb in Hloop. exact Hloop.
  - destruct (IH _ _ _ _ Hloop)
      as [(pre & last & Hb & Hpre & Hlast & Hover & Hr)
         |(pre & answers & t & mid & last & Hb & Hpre & Ht & Hmid & Hlast
           & Hr)];
      cbn [to_time from stats] in *.
    + left. exists ((fst r, now) :: pre), last. rewrite Hb.
      split; [reflexivity|].
      split; [constructor; [exact Hnot|exact Hpre]|].
      split; [exact Hlast|]. split; [exact Hover|].
      rewrite Hr, Hb. reflexivity.
    + right. exists ((fst r, now) :: pre), answers, t, mid, last.
      split; [rewrite Hb; reflexivity|].
      split; [constructor; [exact Hnot|exact Hpre]|]. split; [exact Ht|].
      split; [exact Hmid|]. split; [exact Hlast|].
      rewrite Hr. rewrite <- app_comm_cons, kept_batches_cons. reflexivity.
Qed.

End Folded.

(** X5.  The statistics the sampler returns are its accumulators folded
    over the durations of the kept batches of the run, a batch being
    kept when each of its calls answered "keep".  A run takes one of two
    courses.  Without a resize, each batch but the last ends within the
    first deadline and the last one ends past the budget; the result is
    the fold over all batches from the initial statistics.  With a
    resize, it happens at the first batch that ends past the first
    deadline, within the budget; each later batch but the last ends
    within the budget and the last one past it; the fold over the
    batches up to the resize is resized there, and the result is the
    fold over the batches after it, from the resized statistics. *)
Theorem statistics_fold_over_kept_batches :
  forall (W : Type) (clock_ns : W -> Z * W) (measured_fn : W -> bool * W)
         (max_time_ns warm_up_ns batch_time_ns min_batch_size min_end_checks
          : Z) (w : W) (fuel : nat) result w',
    gather_bench_stats clock_ns measured_fn fuel max_time_ns warm_up_ns
      batch_time_ns min_batch_size min_end_checks w
    = Some (result, w') ->
    let start := reading clock_ns w in
    let deadline := first_deadline max_time_ns warm_up_ns in
    let bs :=
      executed_batches clock_ns measured_fn start max_time_ns
        (clamp_batch_time batch_time_ns) min_batch_size min_end_checks fuel
        {| stats := initial_stats min_batch_size;
           to_time := deadline;
           from := start |} (snd (clock_ns w)) in
    (exists pre last,
       bs = pre ++ [last]
       /\ Forall (fun b => Int64.sub (snd b) start <= deadline) pre
       /\ deadline < Int64.sub (snd last) start
       /\ max_time_ns < Int64.sub (snd last) start
       /\ result
          = fold_left accumulate (kept_batches bs start)
              (initial_stats min_batch_size))
    \/ exists pre answers now mid last,
         bs = pre ++ (answers, now) :: mid ++ [last]
         /\ Forall (fun b => Int64.sub (snd b) start <= deadline) pre
         /\ deadline < Int64.sub now start <= max_time_ns
         /\ Forall (fun b => Int64.sub (snd b) start <= max_time_ns) mid
         /\ max_time_ns < Int64.sub (snd last) start
         /\ result
            = fold_left accumulate (kept_batches (mid ++ [last]) now)
                (resize
                   (fold_left accumulate
                      (kept_batches (pre ++ [(answers, now)]) start)
                      (initial_stats min_batch_size))
                   (Int64.sub now start) max_time_ns
                   (clamp_batch_time batch_time_ns) min_batch_size
                   min_end_checks).
Proof.
  intros W clock_ns measured_fn max_time_ns warm_up_ns batch_time_ns
         min_batch_size min_end_checks w fuel result w' Hrun start deadline
         bs.
  rewrite gather_bench_stats_unfold in Hrun.
  exact (run_fold _ _ _ _ _ _ _ _ _ _ _ _ Hrun).
Qed.

(** A run of 40 ns with 12 ns of warm-up, a read and a call taking 1 ns
    each: the resize happens at the batch that ends at 13 ns, and the
    statistics returned are those of the 14 batches after it. *)
Lemma statistics_fold_over_kept_batches_witness :
  exists result w',
    gather_bench_stats (ticking_clock 1) (steady_fn true 1) 20 40 12 10 1 5
      0%N = Some (result, w')
    /\ let bs :=
         executed_batches (ticking_clock 1) (steady_fn true 1) 0 40 10 1 5 20
           {| stats := initial_stats 1; to_time := 12; from := 0 |} 1%N in
       (exists pre last,
          bs = pre ++ [last]
          /\ Forall (fun b => Int64.sub (snd b) 0 <= 12) pre
          /\ 12 < Int64.sub (snd last) 0
          /\ 40 < Int64.sub (snd last) 0
          /\ result
             = fold_left accumulate (kept_batches bs 0) (initial_stats 1))
       \/ exists pre answers now mid last,
            bs = pre ++ (answers, now) :: mid ++ [last]
            /\ Forall (fun b => Int64.sub (snd b) 0 <= 12) pre
            /\ 12 < Int64.sub now 0 <= 40
            /\ Forall (fun b => Int64.sub (snd b) 0 <= 40) mid
            /\ 40 < Int64.sub (snd last) 0
            /\ result
               = fold_left accumulate (kept_batches (mid ++ [last]) now)
                   (resize
                      (fold_left accumulate
                         (kept_batches (pre ++ [(answers, now)]) 0)
                         (initial_stats 1))
                      (Int64.sub now 0) 40 10 1 5).
Proof.
  assert (H : forall result w',
    gather_bench_stats (ticking_clock 1) (steady_fn true 1) 20 40 12 10 1 5
      0%N = Some (result, w') ->
    gather_bench_stats (ticking_clock 1) (steady_fn true 1) 20 40 12 10 1 5
      0%N = Some (result, w')
    /\ let bs :=
         executed_batches (ticking_clock 1) (steady_fn true 1) 0 40 10 1 5 20
           {| stats := initial_stats 1; to_time := 12; from := 0 |} 1%N in
       (exists pre last,
          bs = pre ++ [last]
          /\ Forall (fun b => Int64.sub (snd b) 0 <= 12) pre
          /\ 12 < Int64.sub (snd last) 0
          /\ 40 < Int64.sub (snd last) 0
          /\ result
             = fold_left accumulate (kept_batches bs 0) (initial_stats 1))
       \/ exists pre answers now mid last,
            bs = pre ++ (answers, now) :: mid ++ [last]
            /\ Forall (fun b => Int64.sub (snd b) 0 <= 12) pre
            /\ 12 < Int64.sub now 0 <= 40
            /\ Forall (fun b => Int64.sub (snd b) 0 <= 40) mid
            /\ 40 < Int64.sub (snd last) 0
            /\ result
               = fold_left accumulate (kept_batches (mid ++ [last]) now)
                   (resize
                      (fold_left accumulate
                         (kept_batches (pre ++ [(answers, now)]) 0)
                         (initial_stats 1))
                      (Int64.sub now 0) 40 10 1 5)).
  { intros result w' Hrun. split; [exact Hrun|].
    exact (statistics_fold_over_kept_batches N (ticking_clock 1)
             (steady_fn true 1) 40 12 10 1 5 0%N 20%nat result w' Hrun). }
  eexists. eexists. apply H. vm_compute. reflexivity.
Defined.

(** ** The calibrator and the stopwatch on a monotonic clock *)

Lemma list_min_lower l m :
  list_min l m <= m /\ Forall (fun d => list_min l m <= d) l.
Proof.
  induction l as [|x l [IHm IHl]]; [split; [reflexivity|constructor]|].
  change (list_min (x :: l) m) with (Z.min x (list_min l m)).
  split; [lia|]. constructor; [lia|].
  eapply Forall_impl; [|exact IHl]. cbv beta. intros. lia.
Qed.

Lemma list_max_upper l m :
  m <= list_max l m /\ Forall (fun d => d <= list_max l m) l.
Proof.
  induction l as [|x l [IHm IHl]]; [split; [reflexivity|constructor]|].
  change (list_max (x :: l) m) with (Z.max x (list_max l m)).
  split; [lia|]. constructor; [lia|].
  eapply Forall_impl; [|exact IHl]. cbv beta. intros. lia.
Qed.

(** A sum lies between the multiples of any bounds of its terms. *)
Lemma list_sum_between l lo hi :
  Forall (fun d => lo <= d <= hi) l ->
  lo * Z.of_nat (length l) <= list_sum l <= hi * Z.of_nat (length l).
Proof.
  induction 1 as [|x l Hx _ IH]; [cbn; lia|].
  change (list_sum (x :: l)) with (x + list_sum l).
  cbn [length]. lia.
Qed.

Section Monotonic.

Context {W : Type}.
Variable clock_ns : W -> Z * W.
Hypothesis clock : monotonic_reads clock_ns.

Local Abbreviation time := (reading clock_ns).

Lemma monotonic_delta a b :
  0 <= a <= b -> b <= Int64.max_signed -> Int64.sub b a = b - a.
Proof.
  intros. apply Int64Facts.sub_exact.
  unfold Int64.in_range, Int64.min_signed, Int64.max_signed,
    Int64.half_modulus in *. lia.
Qed.

(** Back-to-back deltas are not negative, and together they fit between
    the first reading and the end of the range. *)
Lemma clock_deltas_monotonic n : forall w,
  let ds := clock_deltas clock_ns n w in
  Forall (fun d => 0 <= d) ds
  /\ 0 <= list_sum ds
  /\ time w + list_sum ds <= Int64.max_signed.
Proof.
  destruct clock as [Hrange Hmono].
  induction n as [|n IH]; intros w.
  - cbn [clock_deltas]. cbv zeta. change (list_sum []) with 0.
    pose proof (Hrange w). split; [constructor|lia].
  - cbn [clock_deltas].
    pose proof (Hrange w) as Hw. pose proof (Hmono w) as Hw1.
    unfold reading in Hw, Hw1 |- *.
    destruct (clock_ns w) as [from w1]. cbn [fst snd] in *.
    pose proof (Hrange w1) as Hr1. pose proof (Hmono w1) as Hw2.
    unfold reading in Hr1, Hw2.
    destruct (clock_ns w1) as [to w2]. cbn [fst snd] in *.
    destruct (IH w2) as (Hall & Hsum & Hend). unfold reading in Hend.
    rewrite monotonic_delta by lia.
    change (list_sum (to - from :: clock_deltas clock_ns n w2))
      with (to - from + list_sum (clock_deltas clock_ns n w2)).
    split; [constructor; [lia|exact Hall]|lia].
Qed.

Lemma clock_loop_world n : forall sum st w,
  snd (clock_loop clock_ns n sum st w) = after_reads clock_ns (2 * n) w.
Proof.
  clear clock.
  induction n as [|n IH]; intros sum st w; [reflexivity|].
  cbn [clock_loop].
  destruct (clock_ns w) as [from w1] eqn:E1.
  destruct (clock_ns w1) as [to w2] eqn:E2.
  rewrite IH. unfold after_reads.
  replace (2 * S n)%nat with (S (S (2 * n))) by lia.
  rewrite !Nat.iter_succ_r. cbv beta.
  rewrite E1. cbn [snd]. now rewrite E2.
Qed.

End Monotonic.

Lemma list_min_at_least l m lo :
  Forall (fun d => lo <= d) l -> lo <= m -> lo <= list_min l m.
Proof.
  induction 1 as [|x l Hx _ IH]; intros Hm; [exact Hm|].
  change (list_min (x :: l) m) with (Z.min x (list_min l m)).
  specialize (IH Hm). lia.
Qed.

(** What the calibrator computes on a monotonic clock, in terms of the
    deltas it saw. *)
Lemma calibration_monotonic {W : Type} (clock_ns : W -> Z * W) runs w :
  monotonic_reads clock_ns -> 0 < runs ->
  let ds := clock_deltas clock_ns (Z.to_nat runs) w in
  let cs := fst (calculate_clock_stats clock_ns runs w) in
  let q := list_sum ds / runs in
  Clock_Stats.average cs = Z.max 1 q
  /\ Clock_Stats.min cs = list_min ds LARGE
  /\ Clock_Stats.max cs = list_max ds (- LARGE)
  /\ 0 <= Clock_Stats.min cs <= q
  /\ q <= Clock_Stats.max cs
  /\ q * runs <= Int64.max_signed.
Proof.
  intros Hclock Hruns ds cs q.
  destruct (clock_deltas_monotonic clock_ns Hclock (Z.to_nat runs) w)
    as (Hall & Hsum & Hend).
  fold ds in Hall, Hsum, Hend.
  assert (Hw : 0 <= reading clock_ns w) by (destruct Hclock as [Hr _]; apply Hr).
  assert (Hlen : Z.of_nat (length ds) = runs)
    by (subst ds; rewrite clock_deltas_length; lia).
  assert (Hrange : Int64.in_range (list_sum ds)).
  { unfold Int64.in_range, Int64.min_signed, Int64.max_signed,
      Int64.half_modulus in *. lia. }
  subst cs. unfold calculate_clock_stats.
  match goal with
  | |- context [clock_loop clock_ns ?n ?s ?t ?v] =>
      pose proof (clock_loop_deltas clock_ns n s t v) as H;
      destruct (clock_loop clock_ns n s t v) as [[sum st] w']
  end.
  destruct H as (Hs & Hmin & Hmax);
    [unfold Int64.in_range, Int64.min_signed, Int64.max_signed,
       Int64.half_modulus; lia|].
  cbn [fst snd] in Hs, Hmin, Hmax. fold ds in Hs, Hmin, Hmax.
  cbn [fst Clock_Stats.average Clock_Stats.min Clock_Stats.max].
  rewrite Hs, Hmin, Hmax. cbn [Clock_Stats.min Clock_Stats.max].
  change (Int64.mul LARGE (-1)) with (- LARGE).
  rewrite Z.add_0_l, Int64Facts.wrap_id by exact Hrange.
  rewrite Int64Facts.div_exact by (exact Hrange || exact Hruns).
  rewrite Z.quot_div_nonneg by lia. fold q.
  assert (Hq : 0 <= q) by (apply Z.div_pos; lia).
  destruct (list_min_lower ds LARGE) as [_ Hlow].
  destruct (list_max_upper ds (- LARGE)) as [_ Hup].
  assert (Hbetween :
    Forall (fun d => list_min ds LARGE <= d <= list_max ds (- LARGE)) ds).
  { rewrite Forall_forall in *. intros d Hd. split; auto. }
  apply list_sum_between in Hbetween. rewrite Hlen in Hbetween.
  pose proof (list_min_at_least ds LARGE 0 Hall ltac:(unfold LARGE; lia)).
  pose proof (Z.mul_div_le (list_sum ds) runs Hruns).
  split.
  { destruct (Z.eqb_spec q 0) as [->|]; [reflexivity|].
    change (Int64.add 0 1) with 1. lia. }
  split; [reflexivity|]. split; [reflexivity|].
  split; [split; [assumption|]|split].
  - apply Z.div_le_lower_bound; lia.
  - apply Z.div_le_upper_bound; lia.
  - lia.
Qed.

(** X6.  On a clock whose readings are non-negative [int64_t] values
    that never go back from one read to the next, the calibrator with
    [runs > 0] returns [0 <= min <= max] and an average of at least 1
    that is not below the minimum, not above the maximum (or 1), and
    not above the [runs]-th part of the [int64_t] range (or 1). *)
Theorem calibration_on_monotonic_clock :
  forall (W : Type) (clock_ns : W -> Z * W) (runs : Z) (w : W),
    monotonic_reads clock_ns ->
    0 < runs ->
    let cs := fst (calculate_clock_stats clock_ns runs w) in
    0 <= Clock_Stats.min cs <= Clock_Stats.max cs
    /\ 1 <= Clock_Stats.average cs
    /\ Clock_Stats.min cs <= Clock_Stats.average cs
    /\ Clock_Stats.average cs <= Z.max 1 (Clock_Stats.max cs)
    /\ Clock_Stats.average cs <= Z.max 1 (Int64.max_signed / runs).
Proof.
  intros W clock_ns runs w Hclock Hruns cs.
  destruct (calibration_monotonic clock_ns runs w Hclock Hruns)
    as (Havg & _ & _ & Hmin & Hmax & Hfit).
  fold cs in Havg, Hmin, Hmax. rewrite Havg.
  set (q := list_sum _ / runs) in *.
  assert (q <= Int64.max_signed / runs)
    by (apply Z.div_le_lower_bound; lia).
  repeat split; lia.
Qed.

Lemma ticking_clock_reads read_cost : monotonic_reads (ticking_clock read_cost).
Proof.
  split; intros w; unfold reading, ticking_clock; cbn [fst snd];
    unfold LARGE, Int64.max_signed, Int64.half_modulus; lia.
Qed.

Lemma calibration_on_monotonic_clock_witness :
  let cs := fst (calculate_clock_stats (ticking_clock 50) 100 0%N) in
  0 <= Clock_Stats.min cs <= Clock_Stats.max cs
  /\ 1 <= Clock_Stats.average cs.
Proof.
  destruct (calibration_on_monotonic_clock N (ticking_clock 50) 100 0%N)
    as (Hmin & Havg & _).
  - apply ticking_clock_reads.
  - lia.
  - split; [exact Hmin|exact Havg].
Defined.

(** X7.  With [runs <> 0], where the division by [runs] is defined, the
    calibrator returns, it reads the clock [2 * runs] times and does
    nothing else to the world, and its average is never 0; with
    [runs < 0] it reads nothing and returns the average 1 between the
    untouched sentinels [2^62] and [-2^62]. *)
Theorem calibration_reads :
  forall (W : Type) (clock_ns : W -> Z * W) (runs : Z) (w : W),
    runs <> 0 ->
    let r := calculate_clock_stats clock_ns runs w in
    calculate_clock_stats_checked clock_ns runs w = Some r
    /\ snd r = after_reads clock_ns (2 * Z.to_nat runs) w
    /\ Clock_Stats.average (fst r) <> 0
    /\ (runs < 0 ->
        r = ({| Clock_Stats.average := 1;
                Clock_Stats.min := LARGE;
                Clock_Stats.max := - LARGE |}, w)).
Proof.
  intros W clock_ns runs w Hruns r. subst r.
  unfold calculate_clock_stats_checked.
  replace (runs =? 0) with false by (symmetry; now apply Z.eqb_neq).
  split; [reflexivity|]. unfold calculate_clock_stats.
  split; [|split].
  - rewrite <- (clock_loop_world clock_ns (Z.to_nat runs) 0
                  {| Clock_Stats.average := 0; Clock_Stats.min := LARGE;
                     Clock_Stats.max := Int64.mul LARGE (-1) |} w).
    now destruct (clock_loop clock_ns _ _ _ w) as [[sum st] w'].
  - destruct (clock_loop clock_ns _ _ _ w) as [[sum st] w'].
    cbn [fst Clock_Stats.average].
    destruct (Z.eqb_spec (Int64.div sum runs) 0) as [->|Hne];
      [discriminate|exact Hne].
  - intros Hneg. destruct runs as [|p|p]; try lia.
    reflexivity.
Qed.

Lemma calibration_reads_witness :
  Clock_Stats.average (fst (calculate_clock_stats (ticking_clock 0) 10 0%N))
  <> 0
  /\ calculate_clock_stats (ticking_clock 50) (-3) 7%N
     = ({| Clock_Stats.average := 1; Clock_Stats.min := LARGE;
           Clock_Stats.max := - LARGE |}, 7%N).
Proof.
  split.
  - apply (calibration_reads N (ticking_clock 0) 10 0%N). lia.
  - apply (calibration_reads N (ticking_clock 50) (-3) 7%N); lia.
Defined.

(** X8.  On a monotonic clock, and with a function over which the clock
    does not go back, [ellapsed_time_ns] returns the exact difference of
    the readings after and before the function, which is not negative;
    it leaves the world read twice around the one call. *)
Theorem stopwatch_exact :
  forall (W : Type) (clock_ns : W -> Z * W) (fn : W -> W) (w : W),
    monotonic_reads clock_ns ->
    (forall x, reading clock_ns x <= reading clock_ns (fn x)) ->
    let r := ellapsed_time_ns clock_ns fn w in
    let w1 := fn (snd (clock_ns w)) in
    fst r = reading clock_ns w1 - reading clock_ns w
    /\ 0 <= fst r
    /\ snd r = snd (clock_ns w1).
Proof.
  intros W clock_ns fn w [Hrange Hmono] Hfn r w1. subst r w1.
  unfold ellapsed_time_ns.
  pose proof (Hrange w) as Hw. pose proof (Hmono w) as Hw1.
  unfold reading in *.
  destruct (clock_ns w) as [from w1]. cbn [fst snd] in *.
  pose proof (Hfn w1) as Hf. pose proof (Hrange (fn w1)) as Hr.
  destruct (clock_ns (fn w1)) as [to w3]. cbn [fst snd] in *.
  rewrite (monotonic_delta from to) by lia.
  repeat split; lia.
Qed.

(** A function of 120 ns on a clock whose reads take 20 ns. *)
Lemma stopwatch_exact_witness :
  fst (ellapsed_time_ns (ticking_clock 20) (fun w => (w + 120)%N) 5%N) = 140.
Proof.
  destruct (stopwatch_exact N (ticking_clock 20) (fun w => (w + 120)%N) 5%N)
    as (Hexact & _ & _).
  - apply ticking_clock_reads.
  - intros x. unfold reading, ticking_clock. cbn [fst]. lia.
  - rewrite Hexact. reflexivity.
Defined.

(** ** The facade *)

Lemma after_reads_add {W : Type} (clock_ns : W -> Z * W) a b w :
  after_reads clock_ns b (after_reads clock_ns a w)
  = after_reads clock_ns (a + b) w.
Proof.
  unfold after_reads. rewrite Nat.add_comm. symmetry. apply Nat.iter_add.
Qed.

Lemma calibration_world {W : Type} (clock_ns : W -> Z * W) runs w :
  snd (calculate_clock_stats clock_ns runs w)
  = after_reads clock_ns (2 * Z.to_nat runs) w.
Proof.
  unfold calculate_clock_stats.
  rewrite <- (clock_loop_world clock_ns (Z.to_nat runs) 0
                {| Clock_Stats.average := 0; Clock_Stats.min := LARGE;
                   Clock_Stats.max := Int64.mul LARGE (-1) |} w).
  now destruct (clock_loop clock_ns _ _ _ w) as [[sum st] w'].
Qed.

Lemma noise_floor_unfold {W : Type} (clock_ns : W -> Z * W) multiple w :
  benchmark_noise_floor clock_ns multiple w
  = (Int64.mul multiple
       (Clock_Stats.average
          (fst (calculate_clock_stats clock_ns 1000
                  (after_reads clock_ns 200 w)))),
     after_reads clock_ns 2200 w).
Proof.
  unfold benchmark_noise_floor.
  pose proof (calibration_world clock_ns 100 w) as H1.
  destruct (calculate_clock_stats clock_ns 100 w) as [cs1 w1].
  cbn [snd] in H1. subst w1.
  change (2 * Z.to_nat 100)%nat with 200%nat.
  pose proof (calibration_world clock_ns 1000 (after_reads clock_ns 200 w))
    as H2.
  destruct (calculate_clock_stats clock_ns 1000 _) as [cs2 w2].
  cbn [fst snd] in *. subst w2.
  rewrite after_reads_add. reflexivity.
Qed.

(** X9.  What [benchmark] hands to the sampler as its batch time.  After
    2200 clock reads (100 and 1000 pairs) it is the multiple times the
    average of the second calibration; on a monotonic clock and with a
    multiple from 0 to 1000 the product is exact and at least the
    multiple, so that with the default multiple 5 the batch time is at
    least 5 ns. *)
Theorem noise_floor_on_monotonic_clock :
  forall (W : Type) (clock_ns : W -> Z * W) (multiple : Z) (w : W),
    let r := benchmark_noise_floor clock_ns multiple w in
    let average :=
      Clock_Stats.average
        (fst (calculate_clock_stats clock_ns 1000
                (after_reads clock_ns 200 w))) in
    snd r = after_reads clock_ns 2200 w
    /\ fst r = Int64.mul multiple average
    /\ (monotonic_reads clock_ns -> 0 <= multiple <= 1000 ->
        1 <= average <= 9223372036854775
        /\ fst r = multiple * average
        /\ multiple <= fst r).
Proof.
  intros W clock_ns multiple w r average. subst r.
  rewrite noise_floor_unfold. cbn [fst snd]. fold average.
  split; [reflexivity|]. split; [reflexivity|].
  intros Hclock Hmult.
  destruct (calibration_monotonic clock_ns 1000
              (after_reads clock_ns 200 w) Hclock ltac:(lia))
    as (Havg & _ & _ & Hmin & _ & Hfit).
  fold average in Havg.
  set (q := list_sum _ / 1000) in *.
  unfold Int64.max_signed, Int64.half_modulus in Hfit.
  assert (Hrange : 1 <= average <= 9223372036854775) by lia.
  split; [exact Hrange|].
  rewrite Int64Facts.mul_exact.
  - split; [reflexivity|]. nia.
  - unfold Int64.in_range, Int64.min_signed, Int64.max_signed,
      Int64.half_modulus. nia.
Qed.

Lemma noise_floor_on_monotonic_clock_witness :
  fst (benchmark_noise_floor (ticking_clock 50) 5 0%N) = 250.
Proof.
  destruct (noise_floor_on_monotonic_clock N (ticking_clock 50) 5 0%N)
    as (_ & _ & H).
  destruct H as (_ & Hexact & _).
  - apply ticking_clock_reads.
  - lia.
  - rewrite Hexact. vm_compute. reflexivity.
Defined.

(** The cut-off of the loop does not show in its result. *)
Lemma loop_fuel_irrelevant {W : Type} (clock_ns : W -> Z * W)
    (measured_fn : W -> bool * W)
    start max_time_ns batch_time_ns min_batch_size min_end_checks fuel1 :
  forall fuel2 s w x y,
    gather_loop clock_ns measured_fn start max_time_ns batch_time_ns
      min_batch_size min_end_checks fuel1 s w = Some x ->
    gather_loop clock_ns measured_fn start max_time_ns batch_time_ns
      min_batch_size min_end_checks fuel2 s w = Some y ->
    x = y.
Proof.
  induction fuel1 as [|fuel1 IH]; intros fuel2 s w x y H1 H2;
    [discriminate|].
  destruct fuel2 as [|fuel2]; [discriminate|].
  cbn [gather_loop] in H1, H2.
  destruct (gather_step clock_ns measured_fn _ _ _ _ _ s w) as [s' w'|r w'].
  - exact (IH _ _ _ _ _ H1 H2).
  - congruence.
Qed.

Lemma benchmark_unfold {W : Type} (clock_ns : W -> Z * W)
    (measured_fn : W -> bool * W) fuel max_time_ms warm_up_ms runs_mult
    multiple w :
  benchmark clock_ns measured_fn fuel max_time_ms warm_up_ms runs_mult
    multiple w
  = match gather_bench_stats clock_ns measured_fn fuel
            (Int64.mul max_time_ms MILISECOND_NANOSECONDS)
            (Int64.mul warm_up_ms MILISECOND_NANOSECONDS)
            (fst (benchmark_noise_floor clock_ns multiple w)) 1 5
            (snd (benchmark_noise_floor clock_ns multiple w)) with
    | Some (stats, w3) => Some (process_stats stats runs_mult, w3)
    | None => None
    end.
Proof.
  unfold benchmark.
  now destruct (benchmark_noise_floor clock_ns multiple w).
Qed.

Lemma milliseconds_exact ms :
  0 <= ms <= 9223372036854 ->
  Int64.mul ms MILISECOND_NANOSECONDS = ms * MILISECOND_NANOSECONDS.
Proof.
  intros H. apply Int64Facts.mul_exact.
  unfold Int64.in_range, Int64.min_signed, Int64.max_signed,
    Int64.half_modulus, MILISECOND_NANOSECONDS. lia.
Qed.

(** A loop that was left is left the same way with more iterations
    allowed. *)
Lemma loop_more_fuel {W : Type} (clock_ns : W -> Z * W)
    (measured_fn : W -> bool * W)
    start max_time_ns batch_time_ns min_batch_size min_end_checks fuel1 :
  forall fuel2 s w x,
    (fuel1 <= fuel2)%nat ->
    gather_loop clock_ns measured_fn start max_time_ns batch_time_ns
      min_batch_size min_end_checks fuel1 s w = Some x ->
    gather_loop clock_ns measured_fn start max_time_ns batch_time_ns
      min_batch_size min_end_checks fuel2 s w = Some x.
Proof.
  induction fuel1 as [|fuel1 IH]; intros fuel2 s w x Hle H1; [discriminate|].
  destruct fuel2 as [|fuel2]; [lia|].
  cbn [gather_loop] in H1 |- *.
  destruct (gather_step clock_ns measured_fn _ _ _ _ _ s w) as [s' w'|r w'].
  - apply IH; [lia|exact H1].
  - exact H1.
Qed.

(** X10.  How a call of [benchmark] ends, in a build with assertions.
    With a budget from 0 ms to 9223372036854 ms (whose nanoseconds fit
    [int64_t]), on a clock that keeps its contract and gains at least
    1 ns over each batch until the budget is used up, and for every
    warm-up time, multiplier and clock multiple: the sampler, started
    after the 2200 clock reads of the calibration, leaves its loop
    within [max_time_ms * 1000000 + 1] iterations with some statistics;
    [benchmark] then returns [process_stats] of these statistics when
    the assertions of [process_stats] pass on them, and aborts when one
    fails; and whatever [benchmark] returns, with assertions or without,
    at whatever cut-off of the loop, is [process_stats] of these same
    statistics. *)
Theorem benchmark_outcome :
  forall (W : Type) (clock_ns : W -> Z * W) (measured_fn : W -> bool * W)
         (max_time_ms warm_up_ms runs_mult multiple : Z) (w : W),
    monotonic_clock clock_ns measured_fn ->
    0 <= max_time_ms <= 9223372036854 ->
    let max_time_ns := max_time_ms * MILISECOND_NANOSECONDS in
    let w2 := after_reads clock_ns 2200 w in
    advancing_clock clock_ns measured_fn (reading clock_ns w2 + max_time_ns) ->
    exists stats w',
      gather_bench_stats clock_ns measured_fn (S (Z.to_nat max_time_ns))
        max_time_ns (Int64.mul warm_up_ms MILISECOND_NANOSECONDS)
        (fst (benchmark_noise_floor clock_ns multiple w)) 1 5 w2
      = Some (stats, w')
      /\ (forall fuel,
            (Z.to_nat max_time_ns < fuel)%nat ->
            benchmark_checked clock_ns measured_fn fuel max_time_ms
              warm_up_ms runs_mult multiple w
            = if process_stats_asserts stats runs_mult
              then Returns (process_stats stats runs_mult, w')
              else Aborts)
      /\ (forall fuel r w'',
            benchmark clock_ns measured_fn fuel max_time_ms warm_up_ms
              runs_mult multiple w = Some (r, w'')
            \/ benchmark_checked clock_ns measured_fn fuel max_time_ms
                 warm_up_ms runs_mult multiple w = Returns (r, w'') ->
            r = process_stats stats runs_mult /\ w'' = w').
Proof.
  intros W clock_ns measured_fn max_time_ms warm_up_ms runs_mult multiple w
         Hclock Hbudget max_time_ns w2 Hadv.
  assert (Hw2 : snd (benchmark_noise_floor clock_ns multiple w) = w2)
    by (rewrite noise_floor_unfold; reflexivity).
  pose proof (reading_range _ _ Hclock w2) as Hstart.
  assert (Hmax : 0 <= max_time_ns)
    by (subst max_time_ns; unfold MILISECOND_NANOSECONDS; lia).
  assert (Hms : Int64.mul max_time_ms MILISECOND_NANOSECONDS = max_time_ns)
    by now apply milliseconds_exact.
  destruct (loop_terminates clock_ns measured_fn (reading clock_ns w2)
              max_time_ns
              (clamp_batch_time (fst (benchmark_noise_floor clock_ns
                                        multiple w)))
              1 5 Hclock ltac:(lia) ltac:(lia) Hadv
              (S (Z.to_nat max_time_ns)) _ _
              (initial_invariant clock_ns max_time_ns
                 (Int64.mul warm_up_ms MILISECOND_NANOSECONDS) 1 w2
                 ltac:(lia) Hmax))
    as (stats & w' & Hloop).
  { cbn [from]. lia. }
  exists stats, w'.
  assert (Hgather : forall fuel,
    gather_bench_stats clock_ns measured_fn fuel max_time_ns
      (Int64.mul warm_up_ms MILISECOND_NANOSECONDS)
      (fst (benchmark_noise_floor clock_ns multiple w)) 1 5 w2
    = gather_loop clock_ns measured_fn (reading clock_ns w2) max_time_ns
        (clamp_batch_time (fst (benchmark_noise_floor clock_ns multiple w)))
        1 5 fuel
        {| stats := initial_stats 1;
           to_time := first_deadline max_time_ns
                        (Int64.mul warm_up_ms MILISECOND_NANOSECONDS);
           from := reading clock_ns w2 |} (snd (clock_ns w2)))
    by (intros fuel; now rewrite gather_bench_stats_unfold).
  split; [now rewrite Hgather|]. split.
  - intros fuel Hfuel.
    rewrite benchmark_checked_unfold, Hms, Hw2, Hgather.
    replace (max_time_ns >=? 0) with true
      by (symmetry; apply Z.geb_le; exact Hmax).
    assert (Hle : (S (Z.to_nat max_time_ns) <= fuel)%nat) by lia.
    now rewrite (loop_more_fuel _ _ _ _ _ _ _ _ _ _ _ _ Hle Hloop).
  - intros fuel r w'' Hrun.
    assert (Hplain : benchmark clock_ns measured_fn fuel max_time_ms
                       warm_up_ms runs_mult multiple w = Some (r, w''))
      by (destruct Hrun as [H|H];
          [exact H|exact (benchmark_checked_returns _ _ _ _ _ _ _ _ _ _ H)]).
    rewrite benchmark_unfold, Hms, Hw2, Hgather in Hplain.
    destruct (gather_loop clock_ns measured_fn _ _ _ _ _ fuel _ _)
      as [[stats2 w3]|] eqn:Hloop2; [|discriminate].
    pose proof (loop_fuel_irrelevant _ _ _ _ _ _ _ _ _ _ _ _ _ Hloop Hloop2)
      as E.
    inversion E; subst. inversion Hplain; subst. split; reflexivity.
Qed.

(** A budget of 1 ms on a clock whose reads take 20 ns, for a function
    of 300 ns: the assertions pass and [benchmark] returns. *)
Lemma benchmark_outcome_witness :
  exists stats w',
    gather_bench_stats (ticking_clock 20) (steady_fn true 300)
      (S (Z.to_nat (1 * MILISECOND_NANOSECONDS)))
      (1 * MILISECOND_NANOSECONDS) (Int64.mul 0 MILISECOND_NANOSECONDS)
      (fst (benchmark_noise_floor (ticking_clock 20) 5 0%N)) 1 5
      (after_reads (ticking_clock 20) 2200 0%N)
    = Some (stats, w')
    /\ benchmark_checked (ticking_clock 20) (steady_fn true 300)
         (S (Z.to_nat (1 * MILISECOND_NANOSECONDS))) 1 0 1 5 0%N
       = if process_stats_asserts stats 1
         then Returns (process_stats stats 1, w') else Aborts.
Proof.
  destruct (benchmark_outcome N (ticking_clock 20) (steady_fn true 300)
              1 0 1 5 0%N) as (stats & w' & Hrun & Hchecked & _).
  - apply ticking_clock_monotonic.
  - lia.
  - apply ticking_clock_advancing; [lia|reflexivity].
  - exists stats, w'. split; [exact Hrun|]. apply Hchecked. lia.
Defined.

(** A loop that starts in its final phase returns the batch size and
    the estimate it started with. *)
Lemma final_phase_loop {W : Type} (clock_ns : W -> Z * W)
    (measured_fn : W -> bool * W)
    start max_time_ns batch_time_ns min_batch_size min_end_checks
    fuel s w result w' :
  to_time s = max_time_ns ->
  gather_loop clock_ns measured_fn start max_time_ns batch_time_ns
    min_batch_size min_end_checks fuel s w = Some (result, w') ->
  batch_size result = batch_size (stats s)
  /\ mean_time_estimate result = mean_time_estimate (stats s).
Proof.
  intros Hfinal Hloop.
  destruct (final_phase_iter clock_ns measured_fn start max_time_ns
              batch_time_ns min_batch_size min_end_checks s w Hfinal fuel)
    as (Hs & He & _).
  rewrite (loop_iter _ _ _ _ _ _ _ _ _ _ _ _ Hloop) in Hs, He.
  split; assumption.
Qed.

(** X11.  The overload of [benchmark] without a warm-up time warms up
    for a twentieth of the budget plus 1 ms: for a budget from 0 ms to
    9223372036854 ms the first deadline of the sampler is that time or
    the whole budget, whichever is less.  For a budget of at most 1 ms
    this leaves no warm-up phase, and the batch size of the result is
    that of one call, [1 * runs_mult]. *)
Theorem default_warm_up :
  forall (W : Type) (clock_ns : W -> Z * W) (measured_fn : W -> bool * W)
         (max_time_ms runs_mult multiple : Z) (w : W) (fuel : nat),
    0 <= max_time_ms <= 9223372036854 ->
    let warm_up_ms := max_time_ms / 20 + 1 in
    benchmark_default_warm_up clock_ns measured_fn fuel max_time_ms runs_mult
      multiple w
    = benchmark clock_ns measured_fn fuel max_time_ms warm_up_ms runs_mult
        multiple w
    /\ first_deadline (Int64.mul max_time_ms MILISECOND_NANOSECONDS)
         (Int64.mul warm_up_ms MILISECOND_NANOSECONDS)
       = Z.min (max_time_ms * MILISECOND_NANOSECONDS)
           (warm_up_ms * MILISECOND_NANOSECONDS)
    /\ (max_time_ms <= 1 ->
        forall r w',
          benchmark_default_warm_up clock_ns measured_fn fuel max_time_ms
            runs_mult multiple w = Some (r, w') ->
          Bench_Result.batch_size r = Int64.mul 1 runs_mult).
Proof.
  intros W clock_ns measured_fn max_time_ms runs_mult multiple w fuel Hbudget
         warm_up_ms.
  assert (Hwarm : Int64.add (Int64.div max_time_ms 20) 1 = warm_up_ms).
  { subst warm_up_ms.
    pose proof (Z.div_pos max_time_ms 20 ltac:(lia) ltac:(lia)).
    pose proof (Z.div_le_upper_bound max_time_ms 20 max_time_ms
                  ltac:(lia) ltac:(lia)).
    rewrite Int64Facts.div_exact, Z.quot_div_nonneg by
      (try lia; unfold Int64.in_range, Int64.min_signed, Int64.max_signed,
         Int64.half_modulus; lia).
    apply Int64Facts.add_exact.
    unfold Int64.in_range, Int64.min_signed, Int64.max_signed,
      Int64.half_modulus. lia. }
  assert (Hms : 1 <= warm_up_ms <= 9223372036854).
  { subst warm_up_ms.
    pose proof (Z.div_pos max_time_ms 20 ltac:(lia) ltac:(lia)).
    assert (max_time_ms / 20 < 461168601843)
      by (apply Z.div_lt_upper_bound; lia).
    lia. }
  assert (Hle : 1 <= max_time_ms -> warm_up_ms <= max_time_ms).
  { intros H1. subst warm_up_ms.
    assert (max_time_ms / 20 <= max_time_ms - 1); [|lia].
    destruct (Z.eq_dec max_time_ms 1) as [->|]; [reflexivity|].
    apply Z.div_le_upper_bound; lia. }
  assert (Hdeadline :
    first_deadline (Int64.mul max_time_ms MILISECOND_NANOSECONDS)
      (Int64.mul warm_up_ms MILISECOND_NANOSECONDS)
    = Z.min (max_time_ms * MILISECOND_NANOSECONDS)
        (warm_up_ms * MILISECOND_NANOSECONDS)).
  { rewrite !milliseconds_exact by lia. unfold first_deadline.
    unfold MILISECOND_NANOSECONDS in *.
    destruct (Z.gtb_spec (warm_up_ms * 1000000) (max_time_ms * 1000000));
      cbn [orb]; [lia|].
    destruct (Z.leb_spec (warm_up_ms * 1000000) 0); lia. }
  split; [unfold benchmark_default_warm_up; now rewrite Hwarm|].
  split; [exact Hdeadline|].
  intros Hshort r w' Hrun.
  unfold benchmark_default_warm_up in Hrun.
  rewrite Hwarm, benchmark_unfold, gather_bench_stats_unfold in Hrun.
  destruct (gather_loop clock_ns measured_fn _ _ _ _ _ fuel _ _)
    as [[stats w3]|] eqn:Hloop; [|discriminate].
  inversion Hrun; subst r w'. rewrite process_stats_batch_size.
  apply final_phase_loop in Hloop.
  - destruct Hloop as [-> _]. reflexivity.
  - cbn [to_time]. rewrite Hdeadline, milliseconds_exact by lia.
    unfold MILISECOND_NANOSECONDS.
    assert (max_time_ms = 0 \/ max_time_ms = 1) as [-> | ->] by lia;
      reflexivity.
Qed.

(** A budget of 100 ms warms up for 6 ms. *)
Lemma default_warm_up_witness :
  first_deadline (Int64.mul 100 MILISECOND_NANOSECONDS)
    (Int64.mul (100 / 20 + 1) MILISECOND_NANOSECONDS)
  = 6000000.
Proof.
  destruct (default_warm_up N (ticking_clock 20) (steady_fn true 300)
              100 1 5 0%N 0%nat) as (_ & Hdeadline & _); [lia|].
  rewrite Hdeadline. reflexivity.
Defined.

(** ** Edges of the reducer *)

(** A number that does not compare below zero is a NaN or not below
    zero. *)
Lemma not_below_zero (x : Double.t) :
  Double.ltb x Double.zero = false ->
  Double.is_nan x = false ->
  Double.geb x Double.zero = true.
Proof.
  destruct x as [s|s| |s m e]; cbn; try discriminate; try reflexivity;
    destruct s; cbn; try discriminate; reflexivity.
Qed.

(** X12.  The minimum [process_stats] reports never compares below
    zero, whatever the statistics: a corrected minimum below zero is
    replaced by 0.  Unless it is a NaN, it compares at least zero. *)
Theorem min_never_below_zero :
  forall (stats : Bench_Stats) (runs_mult : Z),
    let m := Bench_Result.min_ms (process_stats stats runs_mult) in
    Double.ltb m Double.zero = false
    /\ (Double.is_nan m = false -> Double.geb m Double.zero = true).
Proof.
  intros stats runs_mult m. subst m. unfold process_stats.
  destruct (uncorrected stats runs_mult) as [[mean_ms min_ms] max_ms].
  cbn [Bench_Result.min_ms].
  set (rmin := Double.add mean_ms _).
  destruct (Double.ltb rmin Double.zero) eqn:E.
  - split; reflexivity.
  - split; [exact E|]. now apply not_below_zero.
Qed.

Lemma min_never_below_zero_witness :
  Double.geb
    (Bench_Result.min_ms
       (process_stats
          {| batch_count := 4; batch_size := 3; time_sum := 40;
             squared_time_sum := 538; min_batch_time := 5;
             max_batch_time := 20; mean_time_estimate := 1000 |} 1))
    Double.zero = true.
Proof.
  apply (min_never_below_zero
           {| batch_count := 4; batch_size := 3; time_sum := 40;
              squared_time_sum := 538; min_batch_time := 5;
              max_batch_time := 20; mean_time_estimate := 1000 |} 1).
  vm_compute. reflexivity.
Defined.

(** X13.  With an effective batch size of 0, as for [runs_mult = 0],
    [process_stats] divides by nothing that is zero: it reports 0
    iterations, a mean, a minimum and a maximum of 0, and the deviation
    over the batches divided by 1.0 in place of the root of the batch
    size. *)
Theorem zero_batch_size :
  forall (stats : Bench_Stats) (runs_mult : Z),
    effective_batch_size stats runs_mult = 0 ->
    process_stats stats runs_mult
    = {| Bench_Result.mean_ms := Double.zero;
         Bench_Result.deviation_ms :=
           Double.div (batch_deviation_ms stats) Double.one;
         Bench_Result.max_ms := Double.zero;
         Bench_Result.min_ms := Double.zero;
         Bench_Result.batch_size := 0;
         Bench_Result.iters := 0 |}
    /\ process_stats_divisors stats runs_mult
       = (if batch_count stats >? 1 then
            [Double.of_int64 (batch_count stats);
             Double.sub (Double.of_int64 (batch_count stats)) Double.one;
             Double.of_int64 MILISECOND_NANOSECONDS]
          else []) ++ [Double.one].
Proof.
  intros stats runs_mult Hzero.
  assert (Hiters : total_iters stats runs_mult = 0)
    by (unfold total_iters; rewrite Hzero; reflexivity).
  unfold process_stats, process_stats_divisors, uncorrected.
  rewrite Hiters, Hzero. cbn [Z.eqb negb app]. split; reflexivity.
Qed.

Lemma zero_batch_size_witness :
  Bench_Result.iters
    (process_stats
       {| batch_count := 4; batch_size := 3; time_sum := 40;
          squared_time_sum := 538; min_batch_time := 5;
          max_batch_time := 20; mean_time_estimate := 1000 |} 0) = 0.
Proof.
  rewrite (proj1 (zero_batch_size
                    {| batch_count := 4; batch_size := 3; time_sum := 40;
                       squared_time_sum := 538; min_batch_time := 5;
                       max_batch_time := 20; mean_time_estimate := 1000 |}
                    0 eq_refl)).
  reflexivity.
Defined.

(** ** From the sampler to the reducer *)

Section Handover.

Context {W : Type}.
Variable clock_ns : W -> Z * W.
Variable measured_fn : W -> bool * W.
Variables start max_time_ns batch_time_ns min_batch_size min_end_checks : Z.

Local Abbreviation step :=
  (gather_step clock_ns measured_fn start max_time_ns batch_time_ns
     min_batch_size min_end_checks).
Local Abbreviation iter :=
  (gather_iter clock_ns measured_fn start max_time_ns batch_time_ns
     min_batch_size min_end_checks).
Local Abbreviation time := (reading clock_ns).

Hypothesis clock : monotonic_clock clock_ns measured_fn.
Hypothesis start_nonneg : 0 <= start.
Hypothesis min_batch_size_pos : 1 <= min_batch_size.

Lemma durations_adjusted_accumulate st bt :
  durations_adjusted st ->
  0 <= bt -> Int64.in_range (bt - mean_time_estimate st) ->
  durations_adjusted (accumulate st bt).
Proof.
  clear. intros [Hmin Hlarge] Hbt Hd. unfold durations_adjusted, accumulate.
  cbn [min_batch_time mean_time_estimate].
  rewrite (Int64Facts.sub_exact bt) by exact Hd.
  destruct (Z.gtb_spec (min_batch_time st) (bt - mean_time_estimate st)); lia.
Qed.

Lemma durations_adjusted_step k s w :
  accounting clock_ns start max_time_ns k s w ->
  small ((k + 1) * (time (boundary_world (step s w)) - start + 1)) ->
  durations_adjusted (stats s) ->
  durations_adjusted (boundary_stats (step s w)).
Proof.
  intros Hacc Hsmall Hadj.
  pose proof (accounting_step clock_ns measured_fn start max_time_ns
                batch_time_ns min_batch_size min_end_checks clock start_nonneg
                min_batch_size_pos k s w Hacc Hsmall) as Hnext.
  destruct Hacc as [Hst Hb Hstart Hphase].
  destruct (step_world_mono clock_ns measured_fn start max_time_ns
              batch_time_ns min_batch_size min_end_checks clock s w Hb)
    as [Hfrom _].
  destruct (step_cases clock_ns measured_fn start max_time_ns batch_time_ns
              min_batch_size min_end_checks s w) as (stats1 & Hstats & Hcases).
  cbv zeta in Hcases.
  set (w1 := snd (run_batch measured_fn _ 0 w)) in *.
  pose proof (reading_range _ _ clock w1) as Hr1.
  pose proof (reading_range _ _ clock w) as Hr.
  rewrite (elapsed_exact (from s) (time w1)) in Hstats by lia.
  assert (Hadj1 : durations_adjusted stats1).
  { destruct Hstats as [->| ->]; [exact Hadj|].
    apply durations_adjusted_accumulate; [exact Hadj|lia|].
    destruct Hst as [_ _ Hest _ _ _ _ _].
    unfold Int64.in_range, Int64.min_signed, Int64.max_signed,
      Int64.half_modulus in *. lia. }
  destruct Hcases as [[_ E]|[[_ E]|(_ & _ & E)]]; rewrite E in Hnext |- *;
    cbn [boundary_stats stats]; try exact Hadj1.
  destruct Hnext as [[_ _ Hest _ _ _ _ _] _ _ _].
  cbn [stats] in Hest. unfold durations_adjusted.
  split; [|cbn; lia].
  change (min_batch_time (resize stats1 _ _ _ _ _)) with LARGE.
  unfold LARGE. lia.
Qed.

Lemma durations_adjusted_iter s0 w0 :
  accounting clock_ns start max_time_ns 0 s0 w0 -> start <= time w0 ->
  durations_adjusted (stats s0) ->
  forall k,
    small (Z.of_nat k * (time (boundary_world (iter k s0 w0)) - start + 1)) ->
    durations_adjusted (boundary_stats (iter k s0 w0)).
Proof.
  intros H0 Hs Hadj0.
  pose proof (iter_boundary clock_ns measured_fn start max_time_ns
                batch_time_ns min_batch_size min_end_checks clock s0 w0
                (acc_boundary _ _ _ _ _ _ H0) Hs) as Hbd.
  pose proof (iter_accounting clock_ns measured_fn start max_time_ns
                batch_time_ns min_batch_size min_end_checks clock
                start_nonneg min_batch_size_pos s0 w0 H0 Hs) as Hacc.
  induction k as [|k IH]; intros Hsmall; [exact Hadj0|].
  destruct (Hbd k) as [Hw Hb]. destruct (Hbd (S k)) as [Hw' _].
  specialize (Hacc k).
  cbn [gather_iter] in *. unfold small in *.
  destruct (iter k s0 w0) as [s w|result w]; cbn [boundary_world] in *.
  - destruct (step_world_mono clock_ns measured_fn start max_time_ns
                batch_time_ns min_batch_size min_end_checks clock s w Hb)
      as [_ Hmono].
    assert (Hk : Z.of_nat k * (time w - start + 1) < 2 ^ 62) by nia.
    replace (Z.of_nat (S k)) with (Z.of_nat k + 1) in * by lia.
    apply (durations_adjusted_step (Z.of_nat k));
      [apply Hacc; exact Hk|exact Hsmall|apply IH; exact Hk].
  - apply IH. nia.
Qed.

End Handover.




Lemma initial_accounting {W : Type} (clock_ns : W -> Z * W)
    (measured_fn : W -> bool * W) max_time_ns warm_up_ns min_batch_size w :
  monotonic_clock clock_ns measured_fn -> 1 <= min_batch_size ->
  accounting clock_ns (reading clock_ns w) max_time_ns 0
    {| stats := initial_stats min_batch_size;
       to_time := first_deadline max_time_ns warm_up_ns;
       from := reading clock_ns w |} (snd (clock_ns w)).
Proof.
  intros Hclock Hsize. pose proof (read_mono _ _ Hclock w) as Hw1.
  constructor; cbn [stats from to_time].
  - constructor; cbn [initial_stats batch_count batch_size time_sum
                      min_batch_time max_batch_time mean_time_estimate];
      unfold LARGE; lia.
  - exists w. split; reflexivity.
  - lia.
  - right. cbn [initial_stats mean_time_estimate time_sum]. lia.
Qed.



(** ** The resize in exact arithmetic *)

Lemma in_range_between lo hi z :
  Int64.in_range lo -> Int64.in_range hi -> lo <= z <= hi ->
  Int64.in_range z.
Proof. unfold Int64.in_range. lia. Qed.

(** X15.  Where nothing overflows, the resize does what its comment
    says.  With [0 < total_time <= max_time_ns], a positive batch time
    and [min_end_checks], and the products of the source within
    [int64_t]: the new batch size is [iters * remaining / (total_time *
    num_checks)] in exact arithmetic, or [min_batch_size] if that is
    more; with no time remaining it is [min_batch_size]; and when it is
    above [min_batch_size], [num_checks] batches of the new size, and so
    at least [min_end_checks] of them, take no longer than the remaining
    time at the rate of [iters] calls per [total_time]. *)
Theorem resize_leaves_room :
  forall (st : Bench_Stats)
         (total_time max_time_ns batch_time_ns min_batch_size min_end_checks
          : Z),
    0 < total_time <= max_time_ns ->
    Int64.in_range max_time_ns ->
    0 < batch_time_ns ->
    0 < min_end_checks ->
    Int64.in_range min_end_checks ->
    let iters := Z.max 1 (batch_count st * batch_size st) in
    let remaining := max_time_ns - total_time in
    let num_checks := Z.max (remaining / batch_time_ns) min_end_checks in
    Int64.in_range (batch_count st * batch_size st) ->
    Int64.in_range (iters * remaining) ->
    Int64.in_range (total_time * num_checks) ->
    let size :=
      batch_size (resize st total_time max_time_ns batch_time_ns
                    min_batch_size min_end_checks) in
    size = Z.max min_batch_size (iters * remaining / (total_time * num_checks))
    /\ (remaining = 0 -> size = Z.max min_batch_size 0)
    /\ (min_batch_size < size ->
        size * (total_time * num_checks) <= iters * remaining
        /\ size * (total_time * min_end_checks) <= iters * remaining).
Proof.
  intros st total_time max_time_ns batch_time_ns min_batch_size
         min_end_checks Htotal Hmax Hbt Hmec Hmecr iters remaining num_checks
         Hcalls Hnum Hden size.
  assert (Hrem : 0 <= remaining <= max_time_ns) by (subst remaining; lia).
  assert (Hremr : Int64.in_range remaining).
  { apply (in_range_between 0 max_time_ns); try assumption.
    unfold Int64.in_range, Int64.min_signed, Int64.max_signed,
      Int64.half_modulus. lia. }
  assert (Hq : 0 <= remaining / batch_time_ns) by (apply Z.div_pos; lia).
  assert (Hchecks : min_end_checks <= num_checks /\ 1 <= num_checks)
    by (subst num_checks; lia).
  assert (Hdenpos : 1 <= total_time * num_checks) by nia.
  assert (Hsize :
    size = Z.max min_batch_size
             (iters * remaining / (total_time * num_checks))).
  { subst size. unfold resize. cbn [batch_size].
    rewrite !at_least_one, !at_least.
    rewrite (Int64Facts.mul_exact (batch_count st)) by exact Hcalls.
    fold iters.
    rewrite (Int64Facts.sub_exact max_time_ns) by exact Hremr.
    fold remaining.
    rewrite (Int64Facts.div_exact remaining) by assumption.
    rewrite (Z.quot_div_nonneg remaining) by lia.
    rewrite (Z.max_comm min_end_checks). fold num_checks.
    rewrite (Int64Facts.mul_exact total_time) by exact Hden.
    rewrite (Z.max_r 1) by lia.
    rewrite (Int64Facts.mul_exact iters) by exact Hnum.
    rewrite Int64Facts.div_exact by (try exact Hnum; lia).
    rewrite Z.quot_div_nonneg by (subst iters; nia).
    reflexivity. }
  split; [exact Hsize|]. split.
  - intros Hz. rewrite Hsize, Hz, Z.mul_0_r, Z.div_0_l by lia. reflexivity.
  - intros Habove.
    assert (Hs : size = iters * remaining / (total_time * num_checks))
      by lia.
    pose proof (Z.mul_div_le (iters * remaining) (total_time * num_checks)
                  ltac:(lia)) as Hfloor.
    rewrite <- Hs in Hfloor.
    split; [lia|].
    assert (0 <= size) by (rewrite Hs; apply Z.div_pos; subst iters; nia).
    assert (size * (total_time * min_end_checks)
            <= size * (total_time * num_checks)); [|lia].
    apply Z.mul_le_mono_nonneg_l; [lia|].
    apply Z.mul_le_mono_nonneg_l; lia.
Qed.

(** Seven batches of one call in 14 of 40 ns, a batch time of 10 ns:
    batches of two. *)
Lemma resize_leaves_room_witness :
  batch_size
    (resize {| batch_count := 7; batch_size := 1; time_sum := 14;
               squared_time_sum := 28; min_batch_time := 2;
               max_batch_time := 2; mean_time_estimate := 0 |}
       14 40 10 1 5) = 2.
Proof.
  destruct (resize_leaves_room
              {| batch_count := 7; batch_size := 1; time_sum := 14;
                 squared_time_sum := 28; min_batch_time := 2;
                 max_batch_time := 2; mean_time_estimate := 0 |}
              14 40 10 1 5) as (Hsize & _);
    [lia | vm_compute; split; discriminate | lia | lia
    | vm_compute; split; discriminate | vm_compute; split; discriminate
    | vm_compute; split; discriminate | vm_compute; split; discriminate | ].
  rewrite Hsize. reflexivity.
Defined.

(** ** Edges of the facade and of the sampler *)

(** X16.  A clock multiple that is not positive counts as none.  On a
    monotonic clock, for a multiple from -1000 to 0 the batch time
    [benchmark] passes on is not positive, the sampler replaces it by
    1 ns, and [benchmark] does exactly what it does for the multiple
    0. *)
Theorem multiple_not_positive :
  forall (W : Type) (clock_ns : W -> Z * W) (measured_fn : W -> bool * W)
         (max_time_ms warm_up_ms runs_mult multiple : Z) (w : W)
         (fuel : nat),
    monotonic_reads clock_ns ->
    -1000 <= multiple <= 0 ->
    fst (benchmark_noise_floor clock_ns multiple w) <= 0
    /\ clamp_batch_time (fst (benchmark_noise_floor clock_ns multiple w)) = 1
    /\ benchmark clock_ns measured_fn fuel max_time_ms warm_up_ms runs_mult
         multiple w
       = benchmark clock_ns measured_fn fuel max_time_ms warm_up_ms runs_mult
           0 w.
Proof.
  intros W clock_ns measured_fn max_time_ms warm_up_ms runs_mult multiple w
         fuel Hclock Hmult.
  destruct (calibration_monotonic clock_ns 1000
              (after_reads clock_ns 200 w) Hclock ltac:(lia))
    as (Havg & _ & _ & Hmin & _ & Hfit).
  set (average :=
         Clock_Stats.average
           (fst (calculate_clock_stats clock_ns 1000
                   (after_reads clock_ns 200 w)))) in *.
  set (q := list_sum _ / 1000) in *.
  unfold Int64.max_signed, Int64.half_modulus in Hfit.
  assert (Hrange : 1 <= average <= 9223372036854775) by lia.
  assert (Hnoise : fst (benchmark_noise_floor clock_ns multiple w)
                   = multiple * average).
  { rewrite noise_floor_unfold. cbn [fst]. fold average.
    apply Int64Facts.mul_exact.
    unfold Int64.in_range, Int64.min_signed, Int64.max_signed,
      Int64.half_modulus. nia. }
  assert (Hle : fst (benchmark_noise_floor clock_ns multiple w) <= 0)
    by (rewrite Hnoise; nia).
  assert (Hclamp :
    clamp_batch_time (fst (benchmark_noise_floor clock_ns multiple w)) = 1).
  { unfold clamp_batch_time.
    destruct (Z.leb_spec (fst (benchmark_noise_floor clock_ns multiple w)) 0);
      [reflexivity|lia]. }
  split; [exact Hle|]. split; [exact Hclamp|].
  rewrite !benchmark_unfold, !gather_bench_stats_unfold, Hclamp.
  rewrite !noise_floor_unfold. cbn [fst snd].
  change (Int64.mul 0 _) with 0. reflexivity.
Qed.

Lemma multiple_not_positive_witness :
  benchmark (ticking_clock 20) (steady_fn true 300) 50 0 0 1 (-3) 0%N
  = benchmark (ticking_clock 20) (steady_fn true 300) 50 0 0 1 0 0%N.
Proof.
  apply (multiple_not_positive N (ticking_clock 20) (steady_fn true 300)
           0 0 1 (-3) 0%N 50%nat).
  - apply ticking_clock_reads.
  - lia.
Defined.

(** X17.  A budget of 0 ns still measures one batch.  On a clock that
    keeps its contract and gains at least 1 ns over a batch, with
    [max_time_ns = 0] the sampler runs one batch of [min_batch_size]
    calls, reads the clock and returns: the initial statistics if a
    call rejected, else with that one batch accumulated. *)
Theorem zero_budget_one_batch :
  forall (W : Type) (clock_ns : W -> Z * W) (measured_fn : W -> bool * W)
         (warm_up_ns batch_time_ns min_batch_size min_end_checks : Z)
         (w : W) (fuel : nat),
    monotonic_clock clock_ns measured_fn ->
    1 <= min_batch_size ->
    advancing_clock clock_ns measured_fn (reading clock_ns w) ->
    let r := batch_results measured_fn (Z.to_nat min_batch_size)
               (snd (clock_ns w)) in
    let now := reading clock_ns (snd r) in
    gather_bench_stats clock_ns measured_fn (S fuel) 0 warm_up_ns
      batch_time_ns min_batch_size min_end_checks w
    = Some (if forallb (fun keep => keep) (fst r)
            then accumulate (initial_stats min_batch_size)
                   (now - reading clock_ns w)
            else initial_stats min_batch_size,
            snd (clock_ns (snd r)))
    /\ reading clock_ns w < now.
Proof.
  intros W clock_ns measured_fn warm_up_ns batch_time_ns min_batch_size
         min_end_checks w fuel Hclock Hsize Hadv r now.
  pose proof (reading_range _ _ Hclock w) as Hstart.
  pose proof (reading_range _ _ Hclock (snd r)) as Hnow. fold now in Hnow.
  assert (Hgain : reading clock_ns w + 1 <= now).
  { specialize (Hadv w (Z.to_nat min_batch_size) ltac:(lia) ltac:(lia)).
    unfold after_batch in Hadv. rewrite run_batch_results in Hadv.
    exact Hadv. }
  split; [|lia].
  rewrite gather_bench_stats_unfold. cbn [gather_loop].
  rewrite step_observed. cbn [stats initial_stats batch_size from to_time].
  fold r. unfold reading in now. fold now.
  unfold check_deadline.
  rewrite !(elapsed_exact (reading clock_ns w) now) by lia.
  assert (Hfirst : first_deadline 0 warm_up_ns = 0).
  { unfold first_deadline.
    destruct (Z.gtb_spec warm_up_ns 0); [reflexivity|].
    destruct (Z.leb_spec warm_up_ns 0); [reflexivity|lia]. }
  rewrite Hfirst.
  replace (now - reading clock_ns w >? 0) with true
    by (symmetry; apply Z.gtb_lt; lia).
  cbn [kept_batches]. rewrite app_nil_r.
  rewrite (elapsed_exact (reading clock_ns w) now) by lia.
  now destruct (forallb _ (fst r)).
Qed.

Lemma zero_budget_one_batch_witness :
  exists result w',
    gather_bench_stats (ticking_clock 20) (steady_fn true 300) 1 0 0 100 2 5
      0%N = Some (result, w')
    /\ batch_count result = 1 /\ time_sum result = 620.
Proof.
  destruct (zero_budget_one_batch N (ticking_clock 20) (steady_fn true 300)
              0 100 2 5 0%N 0%nat) as [Hrun _].
  - apply ticking_clock_monotonic.
  - lia.
  - apply ticking_clock_advancing; [lia|reflexivity].
  - eexists. eexists. split; [exact Hrun|]. split; reflexivity.
Defined.

(** ** The median calibrator *)

Module MedianFacts.
Import Median.

Lemma compare_swap_cons t rest j :
  compare_swap (t :: rest) (S j) = t :: compare_swap rest j.
Proof.
  unfold compare_swap, get. cbn [nth set].
  now destruct (nth j rest 0 >? nth (S j) rest 0).
Qed.

(** A comparison behind a prefix leaves the prefix alone. *)
Lemma compare_swap_app p : forall x y rest,
  compare_swap (p ++ x :: y :: rest) (length p)
  = p ++ (if x >? y then y :: x :: rest else x :: y :: rest).
Proof.
  induction p as [|h p IH]; intros x y rest.
  - unfold compare_swap, get. cbn [app length nth set].
    now destruct (x >? y).
  - cbn [app length]. now rewrite compare_swap_cons, IH.
Qed.

(** The inner loop is a pass over what lies behind its start. *)
Lemma inner_loop_pass count : forall p l,
  (count < length l)%nat ->
  inner_loop (p ++ l) (length p) count = p ++ pass count l.
Proof.
  induction count as [|count IH]; intros p l Hlen.
  - cbn [inner_loop]. now destruct l.
  - destruct l as [|x [|y rest]]; cbn [length] in Hlen; try lia.
    cbn [inner_loop pass]. rewrite compare_swap_app.
    destruct (x >? y).
    + replace (p ++ y :: x :: rest) with ((p ++ [y]) ++ x :: rest)
        by now rewrite <- app_assoc.
      replace (S (length p)) with (length (p ++ [y]))
        by (rewrite length_app; cbn; lia).
      rewrite IH by (cbn [length]; lia).
      now rewrite <- app_assoc.
    + replace (p ++ x :: y :: rest) with ((p ++ [x]) ++ y :: rest)
        by now rewrite <- app_assoc.
      replace (S (length p)) with (length (p ++ [x]))
        by (rewrite length_app; cbn; lia).
      rewrite IH by (cbn [length]; lia).
      now rewrite <- app_assoc.
Qed.

Lemma inner_loop_whole count l :
  (count < length l)%nat -> inner_loop l 0 count = pass count l.
Proof. exact (inner_loop_pass count [] l). Qed.

Lemma pass_permutation count : forall l, Permutation (pass count l) l.
Proof.
  induction count as [|count IH]; intros l; [now destruct l|].
  destruct l as [|x [|y rest]]; cbn [pass]; try reflexivity.
  destruct (x >? y).
  - rewrite (IH (x :: rest)). apply perm_swap.
  - now rewrite (IH (y :: rest)).
Qed.

(** A pass does not look behind its last comparison. *)
Lemma pass_app count : forall p s,
  (count < length p)%nat -> pass count (p ++ s) = pass count p ++ s.
Proof.
  induction count as [|count IH]; intros p s Hlen.
  - destruct p; [cbn in Hlen; lia|]. cbn [pass app]. reflexivity.
  - destruct p as [|x [|y rest]]; cbn [length] in Hlen; try lia.
    cbn [pass app]. destruct (x >? y).
    + change (x :: rest ++ s) with ((x :: rest) ++ s).
      rewrite IH by (cbn [length]; lia). reflexivity.
    + change (y :: rest ++ s) with ((y :: rest) ++ s).
      rewrite IH by (cbn [length]; lia). reflexivity.
Qed.

(** A pass over a whole list carries its greatest entry to the end. *)
Lemma pass_greatest count : forall l,
  length l = S count ->
  exists front m,
    pass count l = front ++ [m] /\ Forall (fun x => x <= m) l.
Proof.
  induction count as [|count IH]; intros l Hlen.
  - destruct l as [|x [|? ?]]; try discriminate.
    exists [], x. split; [reflexivity|]. constructor; [lia|constructor].
  - destruct l as [|x [|y rest]]; try discriminate.
    cbn [pass]. destruct (Z.gtb_spec x y) as [Hgt|Hle].
    + destruct (IH (x :: rest)) as (front & m & Hp & Hall);
        [cbn [length] in *; lia|].
      exists (y :: front), m. rewrite Hp. split; [reflexivity|].
      inversion Hall; subst. repeat constructor; try assumption; lia.
    + destruct (IH (y :: rest)) as (front & m & Hp & Hall);
        [cbn [length] in *; lia|].
      exists (x :: front), m. rewrite Hp. split; [reflexivity|].
      inversion Hall; subst. repeat constructor; try assumption; lia.
Qed.

(** The outer loop with [i] entries in place at the end. *)
Lemma outer_loop_sorts n count : forall i p s,
  length p = (n - i)%nat -> (i + count = n - 1)%nat -> (1 <= n)%nat ->
  length s = i ->
  StronglySorted Z.le s ->
  Forall (fun x => Forall (fun y => x <= y) s) p ->
  StronglySorted Z.le (outer_loop n (p ++ s) i count)
  /\ Permutation (outer_loop n (p ++ s) i count) (p ++ s).
Proof.
  induction count as [|count IH]; intros i p s Hp Hi Hn Hs Hsorted Hle.
  - cbn [outer_loop]. split; [|reflexivity].
    destruct p as [|x [|? ?]]; cbn [length] in Hp; try lia.
    inversion Hle; subst. now constructor.
  - cbn [outer_loop].
    rewrite inner_loop_whole by (rewrite length_app; lia).
    rewrite pass_app by lia.
    destruct (pass_greatest (n - i - 1) p ltac:(lia))
      as (front & m & Hpass & Hall).
    pose proof (pass_permutation (n - i - 1) p) as Hperm.
    rewrite Hpass in Hperm |- *.
    assert (Hm : In m p).
    { apply (Permutation_in m Hperm), in_or_app. right. now left. }
    assert (Hfront : forall x, In x front -> In x p).
    { intros x Hx. apply (Permutation_in x Hperm), in_or_app. now left. }
    rewrite Forall_forall in Hle, Hall.
    replace ((front ++ [m]) ++ s) with (front ++ m :: s)
      by now rewrite <- app_assoc.
    destruct (IH (S i) front (m :: s)) as [Hres Hresp].
    + apply Permutation_length in Hperm.
      rewrite length_app in Hperm. cbn [length] in Hperm. lia.
    + lia.
    + exact Hn.
    + cbn [length]. lia.
    + constructor; [exact Hsorted|]. apply (Hle m Hm).
    + apply Forall_forall. intros x Hx. constructor.
      * apply Hall, Hfront, Hx.
      * apply (Hle x), Hfront, Hx.
    + split; [exact Hres|].
      rewrite Hresp.
      replace (front ++ m :: s) with ((front ++ [m]) ++ s)
        by now rewrite <- app_assoc.
      now apply Permutation_app_tail.
Qed.

Lemma bubble_sort_sorts times :
  (1 <= length times)%nat ->
  StronglySorted Z.le (bubble_sort (length times) times)
  /\ Permutation (bubble_sort (length times) times) times.
Proof.
  intros Hn. unfold bubble_sort.
  pose proof (outer_loop_sorts (length times) (length times - 1) 0 times [])
    as H.
  rewrite app_nil_r in H. apply H; try lia; try reflexivity.
  - constructor.
  - apply Forall_forall. intros x _. constructor.
Qed.

Lemma gather_samples_deltas {W : Type} (clock : W -> Z * W) count :
  forall w,
    gather_samples clock count w
    = (clock_deltas clock count w, after_reads clock (2 * count) w).
Proof.
  induction count as [|count IH]; intros w; [reflexivity|].
  cbn [gather_samples clock_deltas].
  destruct (clock w) as [from w1] eqn:E1.
  destruct (clock w1) as [to w2] eqn:E2.
  rewrite IH. f_equal. unfold after_reads.
  replace (2 * S count)%nat with (S (S (2 * count))) by lia.
  rewrite !Nat.iter_succ_r. cbv beta.
  rewrite E1. cbn [snd]. now rewrite E2.
Qed.

Lemma list_sum_permutation l l' :
  Permutation l l' -> list_sum l = list_sum l'.
Proof.
  unfold list_sum.
  induction 1 as [|x l l' _ IH|x y l|l l' l'' _ IH1 _ IH2];
    cbn [fold_right]; lia.
Qed.

(** Two neighbours of a list without negative entries are together at
    most its sum. *)
Lemma neighbours_below_sum l : forall i,
  Forall (fun d => 0 <= d) l -> (S i < length l)%nat ->
  nth i l 0 + nth (S i) l 0 <= list_sum l.
Proof.
  unfold list_sum.
  induction l as [|x l IH]; intros i Hall Hlen; [cbn in Hlen; lia|].
  inversion Hall as [|? ? Hx Hl]; subst.
  destruct i as [|i].
  - destruct l as [|y l]; [cbn in Hlen; lia|].
    inversion Hl as [|? ? Hy Hl']; subst. cbn [nth fold_right].
    assert (0 <= fold_right Z.add 0 l).
    { clear - Hl'. induction Hl'; cbn [fold_right]; lia. }
    lia.
  - cbn [length] in Hlen. specialize (IH i Hl ltac:(lia)).
    cbn [nth fold_right] in *. lia.
Qed.

Lemma sorted_neighbours l : forall i,
  StronglySorted Z.le l -> (S i < length l)%nat ->
  nth i l 0 <= nth (S i) l 0.
Proof.
  induction l as [|x l IH]; intros i Hs Hlen; [cbn in Hlen; lia|].
  inversion Hs as [|? ? Hl Hx]; subst.
  destruct i as [|i].
  - destruct l as [|y l]; [cbn in Hlen; lia|].
    inversion Hx; subst. cbn [nth]. assumption.
  - cbn [length] in Hlen. cbn [nth]. apply IH; [exact Hl|lia].
Qed.

End MedianFacts.

(** X18.  The median calibrator sorts.  After 2000 clock reads its
    array holds the 1000 back-to-back deltas in the order of the reads;
    the bubble sort leaves them in non-decreasing order, none lost and
    none added; and the value returned is the 64-bit mean, truncated, of
    the entries at the indices 500 and 501 of the sorted array.  On a
    monotonic clock that mean is exact, not negative, and lies between
    the two entries. *)
Theorem median_of_sorted_deltas :
  forall (W : Type) (clock : W -> Z * W) (w : W),
    let ds := clock_deltas clock 1000 w in
    let sorted := Median.bubble_sort 1000 ds in
    let r := Median.calculate_median_clock_accuarcy clock w in
    StronglySorted Z.le sorted
    /\ Permutation sorted ds
    /\ r = (Int64.div (Int64.add (nth 500 sorted 0) (nth 501 sorted 0)) 2,
            after_reads clock 2000 w)
    /\ (monotonic_reads clock ->
        fst r = (nth 500 sorted 0 + nth 501 sorted 0) / 2
        /\ 0 <= nth 500 sorted 0 <= fst r
        /\ fst r <= nth 501 sorted 0).
Proof.
  intros W clock w ds sorted r.
  assert (Hlen : length ds = 1000%nat) by apply clock_deltas_length.
  destruct (MedianFacts.bubble_sort_sorts ds ltac:(lia)) as [Hs Hp].
  rewrite Hlen in Hs, Hp. fold sorted in Hs, Hp.
  assert (Hr : r = (Int64.div (Int64.add (nth 500 sorted 0)
                                 (nth 501 sorted 0)) 2,
                    after_reads clock 2000 w)).
  { subst r. unfold Median.calculate_median_clock_accuarcy.
    rewrite MedianFacts.gather_samples_deltas. reflexivity. }
  split; [exact Hs|]. split; [exact Hp|]. split; [exact Hr|].
  intros Hclock. rewrite Hr. cbn [fst].
  destruct (clock_deltas_monotonic clock Hclock 1000 w)
    as (Hall & Hsum & Hend).
  fold ds in Hall, Hsum, Hend.
  assert (Hw : 0 <= reading clock w) by (destruct Hclock as [H _]; apply H).
  assert (Hslen : length sorted = 1000%nat)
    by (rewrite (Permutation_length Hp); exact Hlen).
  assert (Hsall : Forall (fun d => 0 <= d) sorted)
    by (apply (Permutation_Forall (Permutation_sym Hp)); exact Hall).
  pose proof (MedianFacts.neighbours_below_sum sorted 500 Hsall ltac:(lia))
    as Hpair.
  rewrite (MedianFacts.list_sum_permutation _ _ Hp) in Hpair.
  pose proof (MedianFacts.sorted_neighbours sorted 500 Hs ltac:(lia))
    as Hle.
  assert (Ha : 0 <= nth 500 sorted 0).
  { rewrite Forall_forall in Hsall. apply Hsall, nth_In. lia. }
  set (a := nth 500 sorted 0) in *. set (b := nth 501 sorted 0) in *.
  rewrite Int64Facts.add_exact
    by (unfold Int64.in_range, Int64.min_signed, Int64.max_signed,
          Int64.half_modulus in *; lia).
  rewrite Int64Facts.div_exact
    by (unfold Int64.in_range, Int64.min_signed, Int64.max_signed,
          Int64.half_modulus in *; lia).
  rewrite Z.quot_div_nonneg by lia.
  split; [reflexivity|].
  split; [split; [exact Ha|apply Z.div_le_lower_bound; lia]|].
  apply Z.div_le_upper_bound; lia.
Qed.

(** On a clock whose reads take 50 ns every delta is 50 ns. *)
Lemma median_of_sorted_deltas_witness :
  0 <= fst (Median.calculate_median_clock_accuarcy (ticking_clock 50) 0%N).
Proof.
  destruct (median_of_sorted_deltas N (ticking_clock 50) 0%N)
    as (_ & _ & _ & H).
  destruct (H (ticking_clock_reads 50)) as (_ & [H0 H1] & _).
  lia.
Defined.

(** ** The measured time is part of the elapsed time *)

Section Elapsed.

Context {W : Type}.
Variable clock_ns : W -> Z * W.
Variable measured_fn : W -> bool * W.
Variables start max_time_ns batch_time_ns min_batch_size min_end_checks : Z.

Local Abbreviation step :=
  (gather_step clock_ns measured_fn start max_time_ns batch_time_ns
     min_batch_size min_end_checks).
Local Abbreviation loop :=
  (gather_loop clock_ns measured_fn start max_time_ns batch_time_ns
     min_batch_size min_end_checks).
Local Abbreviation time := (reading clock_ns).

Hypothesis clock : monotonic_clock clock_ns measured_fn.
Hypothesis start_nonneg : 0 <= start.

Lemma adjusted_sum_resize st total :
  adjusted_time_sum
    (resize st total max_time_ns batch_time_ns min_batch_size min_end_checks)
  = 0.
Proof.
  clear. unfold adjusted_time_sum, resize.
  cbn [time_sum mean_time_estimate batch_count].
  unfold Int64.mul. rewrite Z.mul_0_r. reflexivity.
Qed.

(** The adjusted sum never exceeds the time between the first read and
    the last one, and no overflow of its parts can make it. *)
Lemma adjusted_sum_step s w :
  at_boundary clock_ns s w -> start <= from s ->
  0 <= adjusted_time_sum (stats s) <= from s - start ->
  match step s w with
  | Continue s' w' =>
      at_boundary clock_ns s' w' /\ start <= from s'
      /\ 0 <= adjusted_time_sum (stats s') <= from s' - start
  | Break result w' =>
      exists w0,
        w' = snd (clock_ns w0)
        /\ 0 <= adjusted_time_sum result <= time w0 - start
  end.
Proof.
  intros Hb Hstart Hsum.
  destruct (step_world_mono clock_ns measured_fn start max_time_ns
              batch_time_ns min_batch_size min_end_checks clock s w Hb)
    as [Hfrom _].
  destruct (step_cases clock_ns measured_fn start max_time_ns batch_time_ns
              min_batch_size min_end_checks s w) as (stats1 & Hstats & Hcases).
  cbv zeta in Hcases.
  set (w1 := snd (run_batch measured_fn _ 0 w)) in *.
  pose proof (reading_range _ _ clock w1) as Hr1.
  rewrite (elapsed_exact (from s) (time w1)) in Hstats by lia.
  assert (Hsum1 : 0 <= adjusted_time_sum stats1 <= time w1 - start).
  { destruct Hstats as [->| ->]; [lia|].
    rewrite adjusted_sum_accumulate, Int64Facts.add_exact; [lia|].
    unfold Int64.in_range, Int64.min_signed, Int64.max_signed,
      Int64.half_modulus in *. lia. }
  assert (Hnext : forall s', from s' = time w1 ->
                    at_boundary clock_ns s' (snd (clock_ns w1))).
  { intros s' Hs'. exists w1. split; [reflexivity|exact Hs']. }
  destruct Hcases as [[_ E]|[[_ E]|(_ & _ & E)]]; rewrite E.
  - cbn [stats from]. split; [now apply Hnext|]. split; lia.
  - cbn [stats from]. rewrite adjusted_sum_resize.
    split; [now apply Hnext|]. split; lia.
  - exists w1. split; [reflexivity|exact Hsum1].
Qed.

Lemma adjusted_sum_loop fuel : forall s w result w',
  at_boundary clock_ns s w -> start <= from s ->
  0 <= adjusted_time_sum (stats s) <= from s - start ->
  loop fuel s w = Some (result, w') ->
  exists w0,
    w' = snd (clock_ns w0)
    /\ 0 <= adjusted_time_sum result <= time w0 - start.
Proof.
  induction fuel as [|fuel IH]; intros s w result w' Hb Hstart Hsum Hloop;
    [discriminate|].
  cbn [gather_loop] in Hloop.
  pose proof (adjusted_sum_step s w Hb Hstart Hsum) as Hstep.
  destruct (step s w) as [s1 w1|r1 w1].
  - destruct Hstep as (Hb1 & Hstart1 & Hsum1).
    exact (IH _ _ _ _ Hb1 Hstart1 Hsum1 Hloop).
  - inversion Hloop; subst. exact Hstep.
Qed.

End Elapsed.

(** X19.  The time the mean is computed from is part of the time that
    passed.  On a clock that keeps its contract, the adjusted sum of
    the statistics the sampler returns ([time_sum + mean_time_estimate *
    batch_count] in 64 bits, the numerator of the mean) is not negative
    and not above the difference between the last and the first clock
    read of the run, whatever the sizes of its parts. *)
Theorem measured_time_within_elapsed :
  forall (W : Type) (clock_ns : W -> Z * W) (measured_fn : W -> bool * W)
         (max_time_ns warm_up_ns batch_time_ns min_batch_size min_end_checks
          : Z) (w : W) (fuel : nat) result w',
    monotonic_clock clock_ns measured_fn ->
    gather_bench_stats clock_ns measured_fn fuel max_time_ns warm_up_ns
      batch_time_ns min_batch_size min_end_checks w = Some (result, w') ->
    exists w0,
      w' = snd (clock_ns w0)
      /\ 0 <= adjusted_time_sum result
           <= reading clock_ns w0 - reading clock_ns w.
Proof.
  intros W clock_ns measured_fn max_time_ns warm_up_ns batch_time_ns
         min_batch_size min_end_checks w fuel result w' Hclock Hrun.
  rewrite gather_bench_stats_unfold in Hrun.
  pose proof (reading_range _ _ Hclock w) as Hstart.
  refine (adjusted_sum_loop clock_ns measured_fn (reading clock_ns w)
            max_time_ns (clamp_batch_time batch_time_ns) min_batch_size
            min_end_checks Hclock ltac:(lia) fuel _ _ result w' _ _ _ Hrun).
  - exists w. split; reflexivity.
  - cbn [from]. lia.
  - cbn [stats from]. change (adjusted_time_sum (initial_stats _)) with 0.
    lia.
Qed.

(** A run of 40 ns with 12 ns of warm-up, a read and a call taking 1 ns
    each: 27 of the 42 ns were measured. *)
Lemma measured_time_within_elapsed_witness :
  exists result w',
    gather_bench_stats (ticking_clock 1) (steady_fn true 1) 20 40 12 10 1 5
      0%N = Some (result, w')
    /\ exists w0,
         w' = snd (ticking_clock 1 w0)
         /\ 0 <= adjusted_time_sum result
              <= reading (ticking_clock 1) w0 - reading (ticking_clock 1) 0%N.
Proof.
  assert (H : forall result w',
    gather_bench_stats (ticking_clock 1) (steady_fn true 1) 20 40 12 10 1 5
      0%N = Some (result, w') ->
    gather_bench_stats (ticking_clock 1) (steady_fn true 1) 20 40 12 10 1 5
      0%N = Some (result, w')
    /\ exists w0,
         w' = snd (ticking_clock 1 w0)
         /\ 0 <= adjusted_time_sum result
              <= reading (ticking_clock 1) w0
                 - reading (ticking_clock 1) 0%N).
  { intros result w' Hrun. split; [exact Hrun|].
    exact (measured_time_within_elapsed N (ticking_clock 1)
             (steady_fn true 1) 40 12 10 1 5 0%N 20%nat result w'
             (ticking_clock_monotonic 1 true 1) Hrun). }
  eexists. eexists. apply H. vm_compute. reflexivity.
Defined.

(** ** The extremes of the kept batches *)

(** The fields the extremes depend on, within reach of the sentinel. *)
Lemma extremes_fold ds : forall st,
  0 <= mean_time_estimate st < LARGE ->
  - LARGE <= min_batch_time st <= LARGE ->
  - LARGE <= max_batch_time st <= LARGE ->
  Forall (fun d => 0 <= d <= LARGE) ds ->
  adjutsted_min (fold_left accumulate ds st)
  = list_min ds (adjutsted_min st)
  /\ adjutsted_max (fold_left accumulate ds st)
     = list_max ds (adjutsted_max st).
Proof.
  induction ds as [|d ds IH]; intros st Hest Hmin Hmax Hall;
    [split; reflexivity|].
  inversion Hall as [|? ? Hd Hds]; subst.
  unfold LARGE in *.
  assert (Hr : forall z, - 4611686018427387904 * 2 <= z
                         <= 4611686018427387904 * 2 - 1 ->
                         Int64.in_range z).
  { intros z Hz. unfold Int64.in_range, Int64.min_signed, Int64.max_signed,
      Int64.half_modulus. lia. }
  cbn [fold_left].
  assert (Hdelta : Int64.sub d (mean_time_estimate st)
                   = d - mean_time_estimate st)
    by (apply Int64Facts.sub_exact, Hr; lia).
  destruct (IH (accumulate st d)) as [IHmin IHmax].
  - exact Hest.
  - cbn [accumulate min_batch_time]. rewrite Hdelta.
    destruct (Z.gtb_spec (min_batch_time st) (d - mean_time_estimate st));
      lia.
  - cbn [accumulate max_batch_time]. rewrite Hdelta.
    destruct (Z.ltb_spec (max_batch_time st) (d - mean_time_estimate st));
      lia.
  - exact Hds.
  - rewrite IHmin, IHmax.
    rewrite adjusted_min_accumulate, adjusted_max_accumulate
      by (apply Hr; lia).
    change (list_min (d :: ds) (adjutsted_min st))
      with (Z.min d (list_min ds (adjutsted_min st))).
    change (list_max (d :: ds) (adjutsted_max st))
      with (Z.max d (list_max ds (adjutsted_max st))).
    rewrite <- list_min_push, <- list_max_push.
    now rewrite (Z.min_comm d), (Z.max_comm d).
Qed.

(** X20.  The extremes the reducer starts from.  For statistics after a
    reset (no batch, the sentinels [2^62] and 0 in place) with an
    estimate from 0 to below [2^62], accumulating kept batches of durations
    from 0 to [2^62] leaves as adjusted minimum the least of the
    durations, and as adjusted maximum the greatest of the durations or
    the estimate, whichever is more: batches that were all faster than
    the estimate leave the estimate as the maximum. *)
Theorem extremes_of_kept_batches :
  forall (size estimate : Z) (ds : list Z),
    0 <= estimate < LARGE ->
    Forall (fun d => 0 <= d <= LARGE) ds ->
    let st := {| batch_count := 0; batch_size := size; time_sum := 0;
                 squared_time_sum := 0; min_batch_time := LARGE;
                 max_batch_time := 0; mean_time_estimate := estimate |} in
    let st' := fold_left accumulate ds st in
    adjutsted_min st' = list_min ds (LARGE + estimate)
    /\ adjutsted_max st' = list_max ds estimate
    /\ (ds <> [] -> adjutsted_min st' = list_min ds LARGE
                    /\ In (adjutsted_min st') ds).
Proof.
  intros size estimate ds Hest Hall st st'.
  destruct (extremes_fold ds st) as [Hmin Hmax];
    [exact Hest
    | subst st; cbn [min_batch_time]; unfold LARGE; lia
    | subst st; cbn [max_batch_time]; unfold LARGE; lia
    | exact Hall | ].
  fold st' in Hmin, Hmax.
  assert (Hamin : adjutsted_min st = LARGE + estimate).
  { subst st. unfold adjutsted_min. cbn [min_batch_time mean_time_estimate].
    apply Int64Facts.add_exact. unfold LARGE in *.
    unfold Int64.in_range, Int64.min_signed, Int64.max_signed,
      Int64.half_modulus. lia. }
  assert (Hamax : adjutsted_max st = estimate).
  { subst st. unfold adjutsted_max. cbn [max_batch_time mean_time_estimate].
    apply Int64Facts.add_exact. unfold LARGE in *.
    unfold Int64.in_range, Int64.min_signed, Int64.max_signed,
      Int64.half_modulus. lia. }
  rewrite Hamin in Hmin. rewrite Hamax in Hmax.
  split; [exact Hmin|]. split; [exact Hmax|].
  intros Hne.
  assert (Hup : Forall (fun d => d <= LARGE) ds)
    by (eapply Forall_impl; [|exact Hall]; cbv beta; intros; lia).
  destruct (list_min_least ds LARGE Hne Hup) as [Hin Hlow].
  assert (Hsame : list_min ds (LARGE + estimate) = list_min ds LARGE).
  { clear - Hne Hup Hest. destruct ds as [|d ds]; [congruence|].
    inversion Hup as [|? ? Hd Hds]; subst. clear Hne Hup.
    revert d Hd. induction ds as [|x ds IH]; intros d Hd.
    - unfold list_min. cbn [fold_right]. lia.
    - inversion Hds as [|? ? Hx Hds']; subst.
      specialize (IH Hds' x Hx).
      change (list_min (d :: x :: ds) (LARGE + estimate))
        with (Z.min d (list_min (x :: ds) (LARGE + estimate))).
      change (list_min (d :: x :: ds) LARGE)
        with (Z.min d (list_min (x :: ds) LARGE)).
      now rewrite IH. }
  rewrite Hmin, Hsame. split; [reflexivity|exact Hin].
Qed.

(** Two batches of 900 and 950 ns around an estimate of 1000 ns: the
    minimum is 900 ns, the maximum the estimate. *)
Lemma extremes_of_kept_batches_witness :
  let st' :=
    fold_left accumulate [900; 950]
      {| batch_count := 0; batch_size := 4; time_sum := 0;
         squared_time_sum := 0; min_batch_time := LARGE;
         max_batch_time := 0; mean_time_estimate := 1000 |} in
  adjutsted_min st' = 900 /\ adjutsted_max st' = 1000.
Proof.
  intros st'.
  destruct (extremes_of_kept_batches 4 1000 [900; 950])
    as (_ & Hmax & Hmin).
  - unfold LARGE. lia.
  - repeat constructor; unfold LARGE; lia.
  - destruct Hmin as [Hmin _]; [discriminate|].
    fold st' in Hmin, Hmax. rewrite Hmin, Hmax. split; reflexivity.
Defined.

(** ** The calibrator with an accuracy *)

Module AccuracyFacts.

Lemma gather_samples_sum {W : Type} (clock : W -> Z * W) count :
  forall sum w,
    Int64.in_range sum ->
    Accuracy.gather_samples clock count sum w
    = (clock_deltas clock count w,
       Int64.wrap (sum + list_sum (clock_deltas clock count w)),
       after_reads clock (2 * count) w).
Proof.
  induction count as [|count IH]; intros sum w Hsum.
  - cbn [Accuracy.gather_samples clock_deltas]. unfold list_sum.
    cbn [fold_right]. rewrite Z.add_0_r, Int64Facts.wrap_id by exact Hsum.
    reflexivity.
  - cbn [Accuracy.gather_samples clock_deltas].
    destruct (clock w) as [from w1] eqn:E1.
    destruct (clock w1) as [to w2] eqn:E2.
    rewrite IH by apply Int64Facts.wrap_range.
    change (list_sum (Int64.sub to from :: clock_deltas clock count w2))
      with (Int64.sub to from + list_sum (clock_deltas clock count w2)).
    unfold Int64.add. rewrite Int64Facts.wrap_add_l, Z.add_assoc.
    f_equal. unfold after_reads.
    replace (2 * S count)%nat with (S (S (2 * count))) by lia.
    rewrite !Nat.iter_succ_r. cbv beta.
    rewrite E1. cbn [snd]. now rewrite E2.
Qed.

(** In a sorted list an entry further on is not less. *)
Lemma sorted_nth l : forall i j,
  StronglySorted Z.le l -> (i <= j < length l)%nat ->
  nth i l 0 <= nth j l 0.
Proof.
  induction l as [|x l IH]; intros i j Hs Hij; [cbn in Hij; lia|].
  inversion Hs as [|? ? Hl Hx]; subst. cbn [length] in Hij.
  destruct j as [|j]; [replace i with O by lia; reflexivity|].
  destruct i as [|i].
  - cbn [nth]. rewrite Forall_forall in Hx. apply Hx, nth_In. lia.
  - cbn [nth]. apply IH; [exact Hl|lia].
Qed.

(** The ends of a sorted list bound every entry of a permutation. *)
Lemma sorted_ends sorted ds :
  StronglySorted Z.le sorted -> Permutation sorted ds ->
  (1 <= length sorted)%nat ->
  In (nth 0 sorted 0) ds
  /\ Forall (fun d => nth 0 sorted 0 <= d) ds
  /\ In (nth (length sorted - 1) sorted 0) ds
  /\ Forall (fun d => d <= nth (length sorted - 1) sorted 0) ds.
Proof.
  intros Hs Hp Hlen.
  assert (Hbounds : forall d, In d ds ->
            nth 0 sorted 0 <= d <= nth (length sorted - 1) sorted 0).
  { intros d Hd. apply (Permutation_in d (Permutation_sym Hp)) in Hd.
    destruct (In_nth sorted d 0 Hd) as (i & Hi & <-).
    split; apply sorted_nth; try exact Hs; lia. }
  repeat split.
  - apply (Permutation_in _ Hp), nth_In. lia.
  - apply Forall_forall. intros d Hd. apply (Hbounds d Hd).
  - apply (Permutation_in _ Hp), nth_In. lia.
  - apply Forall_forall. intros d Hd. apply (Hbounds d Hd).
Qed.

(** The mean of two neighbours in the middle of a sorted list. *)
Lemma median_between sorted :
  StronglySorted Z.le sorted -> length sorted = 1000%nat ->
  Forall (fun d => 0 <= d) sorted ->
  list_sum sorted <= Int64.max_signed ->
  let m := Median.median 1000 sorted in
  m = (nth 500 sorted 0 + nth 501 sorted 0) / 2
  /\ nth 500 sorted 0 <= m <= nth 501 sorted 0.
Proof.
  intros Hs Hlen Hall Hsum m.
  pose proof (MedianFacts.neighbours_below_sum sorted 500 Hall ltac:(lia))
    as Hpair.
  pose proof (sorted_nth sorted 500 501 Hs ltac:(lia)) as Hle.
  assert (Ha : 0 <= nth 500 sorted 0).
  { rewrite Forall_forall in Hall. apply Hall, nth_In. lia. }
  subst m.
  change (Median.median 1000 sorted)
    with (Int64.div (Int64.add (nth 500 sorted 0) (nth 501 sorted 0)) 2).
  set (a := nth 500 sorted 0) in *. set (b := nth 501 sorted 0) in *.
  rewrite Int64Facts.add_exact
    by (unfold Int64.in_range, Int64.min_signed, Int64.max_signed,
          Int64.half_modulus in *; lia).
  rewrite Int64Facts.div_exact
    by (unfold Int64.in_range, Int64.min_signed, Int64.max_signed,
          Int64.half_modulus in *; lia).
  rewrite Z.quot_div_nonneg by lia.
  split; [reflexivity|].
  split; [apply Z.div_le_lower_bound; lia|apply Z.div_le_upper_bound; lia].
Qed.

End AccuracyFacts.

(** X21.  The calibrator with an accuracy.  Its minimum and maximum,
    read off the two ends of the sorted array, are the least and the
    greatest of the 1000 back-to-back deltas; its average is their
    64-bit sum over 1000; its accuracy is the median, the average or 1,
    and never 0.  On a monotonic clock the median and the average lie
    between the minimum and the maximum, none of them is negative, and
    the accuracy is at least 1 and at most the average (or 1). *)
Theorem accuracy_of_sorted_deltas :
  forall (W : Type) (clock : W -> Z * W) (w : W),
    let ds := clock_deltas clock 1000 w in
    let r := Accuracy.calculate_clock_stats clock w in
    let cs := fst r in
    snd r = after_reads clock 2000 w
    /\ In (Accuracy.min cs) ds
    /\ Forall (fun d => Accuracy.min cs <= d) ds
    /\ In (Accuracy.max cs) ds
    /\ Forall (fun d => d <= Accuracy.max cs) ds
    /\ Accuracy.average cs = Int64.div (Int64.wrap (list_sum ds)) 1000
    /\ Accuracy.accuracy cs <> 0
    /\ (Accuracy.accuracy cs = Accuracy.median cs
        \/ Accuracy.accuracy cs = Accuracy.average cs
        \/ Accuracy.accuracy cs = 1)
    /\ (monotonic_reads clock ->
        0 <= Accuracy.min cs <= Accuracy.median cs
        /\ Accuracy.median cs <= Accuracy.max cs
        /\ Accuracy.min cs <= Accuracy.average cs <= Accuracy.max cs
        /\ 1 <= Accuracy.accuracy cs <= Z.max 1 (Accuracy.average cs)).
Proof.
  intros W clock w ds r cs.
  assert (Hlen : length ds = 1000%nat) by apply clock_deltas_length.
  destruct (MedianFacts.bubble_sort_sorts ds ltac:(lia)) as [Hs Hp].
  rewrite Hlen in Hs, Hp.
  remember (Median.bubble_sort 1000 ds) as sorted eqn:Hsorted.
  assert (Hslen : length sorted = 1000%nat)
    by (rewrite (Permutation_length Hp); exact Hlen).
  remember (Int64.div (Int64.wrap (list_sum ds)) 1000) as average
    eqn:Haverage.
  remember (Median.median 1000 sorted) as median eqn:Hmedian.
  remember (if (median <? average) && negb (median =? 0)
            then median else average) as accuracy0 eqn:Haccuracy0.
  assert (Hr : r = ({| Accuracy.median := median;
                       Accuracy.average := average;
                       Accuracy.min := nth 0 sorted 0;
                       Accuracy.max := nth 999 sorted 0;
                       Accuracy.accuracy :=
                         if accuracy0 =? 0 then 1 else accuracy0 |},
                    after_reads clock 2000 w)).
  { subst r. unfold Accuracy.calculate_clock_stats, Accuracy.runs.
    rewrite AccuracyFacts.gather_samples_sum
      by (vm_compute; split; discriminate).
    fold ds. rewrite <- Hsorted, Z.add_0_l.
    change (Z.of_nat 1000) with 1000.
    rewrite <- Haverage, <- Hmedian, <- Haccuracy0. reflexivity. }
  subst cs. rewrite Hr.
  cbn [fst snd Accuracy.min Accuracy.max Accuracy.average Accuracy.median
       Accuracy.accuracy].
  destruct (AccuracyFacts.sorted_ends sorted ds Hs Hp ltac:(lia))
    as (Hmin & Hlow & Hmax & Hup).
  rewrite Hslen in Hmax, Hup. change (1000 - 1)%nat with 999%nat in Hmax, Hup.
  assert (Hacc : (if accuracy0 =? 0 then 1 else accuracy0) <> 0)
    by (destruct (Z.eqb_spec accuracy0 0); [discriminate|assumption]).
  assert (Hchoice :
    (if accuracy0 =? 0 then 1 else accuracy0) = median
    \/ (if accuracy0 =? 0 then 1 else accuracy0) = average
    \/ (if accuracy0 =? 0 then 1 else accuracy0) = 1).
  { destruct (Z.eqb_spec accuracy0 0); [right; right; reflexivity|].
    rewrite Haccuracy0.
    destruct ((median <? average) && negb (median =? 0));
      [left|right; left]; reflexivity. }
  split; [reflexivity|]. split; [exact Hmin|]. split; [exact Hlow|].
  split; [exact Hmax|]. split; [exact Hup|]. split; [reflexivity|].
  split; [exact Hacc|]. split; [exact Hchoice|].
  intros Hclock.
  destruct (clock_deltas_monotonic clock Hclock 1000 w)
    as (Hall & Hsum & Hend).
  fold ds in Hall, Hsum, Hend.
  assert (Hw : 0 <= reading clock w) by (destruct Hclock as [H _]; apply H).
  assert (Hsall : Forall (fun d => 0 <= d) sorted)
    by (apply (Permutation_Forall (Permutation_sym Hp)); exact Hall).
  assert (Hssum : list_sum sorted = list_sum ds)
    by (apply MedianFacts.list_sum_permutation; exact Hp).
  destruct (AccuracyFacts.median_between sorted Hs Hslen Hsall
              ltac:(rewrite Hssum; lia)) as [_ [Hm1 Hm2]].
  rewrite <- Hmedian in Hm1, Hm2.
  pose proof (AccuracyFacts.sorted_nth sorted 0 500 Hs ltac:(lia)) as H0.
  pose proof (AccuracyFacts.sorted_nth sorted 501 999 Hs ltac:(lia)) as H9.
  assert (Hmin0 : 0 <= nth 0 sorted 0).
  { rewrite Forall_forall in Hsall. apply Hsall, nth_In. lia. }
  assert (Havg : average = list_sum ds / 1000).
  { rewrite Haverage.
    rewrite Int64Facts.wrap_id, Int64Facts.div_exact, Z.quot_div_nonneg;
      try lia;
      unfold Int64.in_range, Int64.min_signed, Int64.max_signed,
        Int64.half_modulus in *; lia. }
  assert (Hbetween :
    Forall (fun d => nth 0 sorted 0 <= d <= nth 999 sorted 0) ds).
  { rewrite Forall_forall in Hlow, Hup. apply Forall_forall.
    intros d Hd. split; [apply Hlow|apply Hup]; exact Hd. }
  apply list_sum_between in Hbetween. rewrite Hlen in Hbetween.
  assert (Havg1 : nth 0 sorted 0 <= average <= nth 999 sorted 0).
  { rewrite Havg.
    split; [apply Z.div_le_lower_bound|apply Z.div_le_upper_bound]; lia. }
  split; [lia|]. split; [lia|]. split; [exact Havg1|].
  clear Hr Hchoice Hacc. rewrite Haccuracy0.
  destruct (Z.ltb_spec median average); destruct (Z.eqb_spec median 0);
    cbn [andb negb];
    match goal with
    | |- context [if ?x =? 0 then _ else _] => destruct (Z.eqb_spec x 0)
    end; lia.
Qed.

(** On a clock whose reads take 50 ns every delta is 50 ns. *)
Lemma accuracy_of_sorted_deltas_witness :
  1 <= Accuracy.accuracy
         (fst (Accuracy.calculate_clock_stats (ticking_clock 50) 0%N)).
Proof.
  destruct (accuracy_of_sorted_deltas N (ticking_clock 50) 0%N)
    as (_ & _ & _ & _ & _ & _ & _ & _ & H).
  destruct (H (ticking_clock_reads 50)) as (_ & _ & _ & [H1 _]).
  exact H1.
Defined.

(** ** The sampler's statistics in the reducer *)

Lemma fold_squares_range l : forall st,
  Int64.in_range (squared_time_sum st) ->
  Int64.in_range (squared_time_sum (fold_left accumulate l st)).
Proof.
  induction l as [|d l IH]; intros st Hst; [exact Hst|].
  cbn [fold_left]. apply IH. cbn [accumulate squared_time_sum].
  apply Int64Facts.wrap_range.
Qed.

(** The squared sum the sampler returns is an [int64_t] value. *)
Lemma sampler_squares_range {W : Type} (clock_ns : W -> Z * W)
    (measured_fn : W -> bool * W)
    max_time_ns warm_up_ns batch_time_ns min_batch_size min_end_checks
    w fuel result w' :
  gather_bench_stats clock_ns measured_fn fuel max_time_ns warm_up_ns
    batch_time_ns min_batch_size min_end_checks w = Some (result, w') ->
  Int64.in_range (squared_time_sum result).
Proof.
  intros Hrun. rewrite gather_bench_stats_unfold in Hrun.
  destruct (run_fold _ _ _ _ _ _ _ _ _ _ _ _ Hrun)
    as [(pre & last & _ & _ & _ & _ & ->)
       |(pre & answers & now & mid & last & _ & _ & _ & _ & _ & ->)];
    apply fold_squares_range; cbn; split; discriminate.
Qed.

(** X22.  In a build with assertions [benchmark] returns, and what it
    returns is in order.  On a clock that keeps its contract, for a
    budget from 0 ms to 9223372036854 ms and a multiplier of at least 1:
    when the sampler leaves its loop within [fuel] iterations with some
    statistics, and twice the number of iterations times the
    nanoseconds elapsed (plus one), and the number of calls in
    nanoseconds per millisecond, stay below [2^53], then every
    assertion of [process_stats] passes on these statistics, [benchmark]
    returns [process_stats] of them, and the result has
    [0 <= min <= mean <= max]. *)
Theorem benchmark_passes_assertions :
  forall (W : Type) (clock_ns : W -> Z * W) (measured_fn : W -> bool * W)
         (max_time_ms warm_up_ms runs_mult multiple : Z) (w : W)
         (fuel : nat) (stats : Bench_Stats) (w3 : W),
    monotonic_clock clock_ns measured_fn ->
    0 <= max_time_ms <= 9223372036854 ->
    1 <= runs_mult ->
    let w2 := after_reads clock_ns 2200 w in
    gather_bench_stats clock_ns measured_fn fuel
      (max_time_ms * MILISECOND_NANOSECONDS)
      (Int64.mul warm_up_ms MILISECOND_NANOSECONDS)
      (fst (benchmark_noise_floor clock_ns multiple w)) 1 5 w2
    = Some (stats, w3) ->
    2 * Z.of_nat fuel * (reading clock_ns w3 - reading clock_ns w2 + 1)
      < 2 ^ 53 ->
    batch_size stats * runs_mult * Z.max 1 (batch_count stats)
      * MILISECOND_NANOSECONDS < 2 ^ 53 ->
    let r := process_stats stats runs_mult in
    process_stats_asserts stats runs_mult = true
    /\ benchmark_checked clock_ns measured_fn fuel max_time_ms warm_up_ms
         runs_mult multiple w = Returns (r, w3)
    /\ Double.leb Double.zero (Bench_Result.min_ms r) = true
    /\ Double.leb (Bench_Result.min_ms r) (Bench_Result.mean_ms r) = true
    /\ Double.leb (Bench_Result.mean_ms r) (Bench_Result.max_ms r) = true.
Proof.
  intros W clock_ns measured_fn max_time_ms warm_up_ms runs_mult multiple w
         fuel stats w3 Hclock Hbudget Hmult w2 Hrun Hsmall Hcalls r.
  set (max_time_ns := max_time_ms * MILISECOND_NANOSECONDS) in *.
  set (warm_up_ns := Int64.mul warm_up_ms MILISECOND_NANOSECONDS) in *.
  set (noise := fst (benchmark_noise_floor clock_ns multiple w)) in *.
  assert (Hmax : 0 <= max_time_ns)
    by (subst max_time_ns; unfold MILISECOND_NANOSECONDS; lia).
  pose proof (sampler_squares_range _ _ _ _ _ _ _ _ _ _ _ Hrun) as Hsq.
  pose proof Hrun as Hloop. rewrite gather_bench_stats_unfold in Hloop.
  pose proof (loop_iter _ _ _ _ _ _ _ _ _ _ _ _ Hloop) as Hiter.
  pose proof (reading_range _ _ Hclock w2) as Hstart.
  pose proof (read_mono _ _ Hclock w2) as Hw1.
  pose proof (initial_accounting clock_ns measured_fn max_time_ns warm_up_ns
                1 w2 Hclock ltac:(lia)) as H0.
  pose proof (iter_accounting clock_ns measured_fn (reading clock_ns w2)
                max_time_ns (clamp_batch_time noise) 1 5 Hclock ltac:(lia)
                ltac:(lia) _ _ H0 Hw1 fuel) as Hacc.
  pose proof (durations_adjusted_iter clock_ns measured_fn
                (reading clock_ns w2) max_time_ns (clamp_batch_time noise)
                1 5 Hclock ltac:(lia) ltac:(lia) _ _ H0 Hw1) as Hadj.
  specialize (Hadj ltac:(split; cbn; unfold LARGE; lia) fuel).
  destruct (iter_boundary clock_ns measured_fn (reading clock_ns w2)
              max_time_ns (clamp_batch_time noise) 1 5 Hclock _ _
              (acc_boundary _ _ _ _ _ _ H0) Hw1 fuel) as [Hge _].
  rewrite Hiter in Hacc, Hadj, Hge.
  cbn [boundary_world boundary_stats] in Hacc, Hadj, Hge.
  set (e := reading clock_ns w3 - reading clock_ns w2) in *.
  set (k := Z.of_nat fuel) in *.
  assert (Hk : 1 <= k)
    by (subst k; destruct fuel; [discriminate Hloop|lia]).
  assert (He : 0 <= e) by (subst e; lia).
  assert (Hke : 0 <= k * (e + 1)) by (apply Z.mul_nonneg_nonneg; lia).
  assert (Hs62 : small (k * (e + 1))) by (unfold small; lia).
  specialize (Hacc Hs62). specialize (Hadj Hs62).
  destruct Hacc as [Hc Hsz Hest Hml Hmh Hmx Hsl Hsh].
  destruct Hadj as [Hleast _].
  set (c := batch_count stats) in *.
  assert (Hce : Z.max 1 c * e <= k * e)
    by (apply Z.mul_le_mono_nonneg_r; lia).
  assert (Hkee : k * (e + 1) = k * e + k) by ring.
  assert (Htimes : (max_batch_time stats + mean_time_estimate stats)
                   * Z.max 1 c < 2 ^ 53).
  { assert ((max_batch_time stats + mean_time_estimate stats) * Z.max 1 c
            <= (e + e) * Z.max 1 c)
      by (apply Z.mul_le_mono_nonneg_r; lia).
    lia. }
  assert (Hint : int64_sums stats).
  { split; [|split; [|exact Hsq]].
    - apply small_range. fold c. lia.
    - assert (max_batch_time stats * c <= e * c)
        by (apply Z.mul_le_mono_nonneg_r; lia).
      assert (- e * c <= min_batch_time stats * c)
        by (apply Z.mul_le_mono_nonneg_r; lia).
      assert (e * c <= e * Z.max 1 c)
        by (apply Z.mul_le_mono_nonneg_l; lia).
      apply small_range. lia. }
  pose proof (assertions_pass stats runs_mult Hint ltac:(fold c; lia)
                ltac:(lia) Hmult (conj Hsl Hsh) ltac:(lia) ltac:(lia)
                Hleast Htimes Hcalls) as Hassert.
  split; [exact Hassert|]. split.
  - rewrite benchmark_checked_unfold, milliseconds_exact by exact Hbudget.
    fold max_time_ns warm_up_ns noise.
    replace (max_time_ns >=? 0) with true
      by (symmetry; apply Z.geb_le; exact Hmax).
    rewrite noise_floor_unfold. cbn [snd]. fold w2.
    rewrite Hrun, Hassert. reflexivity.
  - unfold process_stats_asserts in Hassert.
    apply andb_prop in Hassert. destruct Hassert as [_ Hplausible].
    fold r in Hplausible. unfold plausible, Double.geb in Hplausible.
    repeat (apply andb_prop in Hplausible;
            destruct Hplausible as [Hplausible ?]).
    match goal with
    | H : _ && _ = true |- _ => apply andb_prop in H; destruct H
    end.
    unfold Double.leb. repeat split; assumption.
Qed.

(** A budget of 1 ms on a clock whose reads take 20 ns, for a function
    of 300 ns, one call in a logical unit. *)
Lemma benchmark_passes_assertions_witness :
  exists stats w3,
    benchmark_checked (ticking_clock 20) (steady_fn true 300) 3200 1 0 1 5
      0%N = Returns (process_stats stats 1, w3)
    /\ Double.leb (Bench_Result.min_ms (process_stats stats 1))
         (Bench_Result.mean_ms (process_stats stats 1)) = true.
Proof.
  assert (H : forall stats w3,
    gather_bench_stats (ticking_clock 20) (steady_fn true 300) 3200
      (1 * MILISECOND_NANOSECONDS) (Int64.mul 0 MILISECOND_NANOSECONDS)
      (fst (benchmark_noise_floor (ticking_clock 20) 5 0%N)) 1 5
      (after_reads (ticking_clock 20) 2200 0%N) = Some (stats, w3) ->
    2 * Z.of_nat 3200
      * (reading (ticking_clock 20) w3
         - reading (ticking_clock 20)
             (after_reads (ticking_clock 20) 2200 0%N) + 1) < 2 ^ 53 ->
    batch_size stats * 1 * Z.max 1 (batch_count stats)
      * MILISECOND_NANOSECONDS < 2 ^ 53 ->
    benchmark_checked (ticking_clock 20) (steady_fn true 300) 3200 1 0 1 5
      0%N = Returns (process_stats stats 1, w3)
    /\ Double.leb (Bench_Result.min_ms (process_stats stats 1))
         (Bench_Result.mean_ms (process_stats stats 1)) = true).
  { intros stats w3 Hrun Hsmall Hcalls.
    destruct (benchmark_passes_assertions N (ticking_clock 20)
                (steady_fn true 300) 1 0 1 5 0%N 3200%nat stats w3)
      as (_ & Hret & _ & Hmin & _).
    - apply ticking_clock_monotonic.
    - lia.
    - lia.
    - exact Hrun.
    - exact Hsmall.
    - exact Hcalls.
    - split; [exact Hret|exact Hmin]. }
  eexists. eexists. apply H.
  - vm_compute. reflexivity.
  - vm_compute. reflexivity.
  - vm_compute. reflexivity.
Defined.
